(** * OptionsTracker: position accounting, aggregation and strategy alerts

    A shallow embedding of the accounting and alert engine of the
    OptionsTracker web application (TypeScript), with the properties its
    specification states about it.

    Conventions of the embedding.
    - In the accounting and aggregation code a JavaScript [number] is an
      exact rational ([Q]).  The statements made over this model are those
      that the rounding of IEEE-754 arithmetic does not decide: counts,
      orderings, groupings, equalities between two runs of the same
      computation, and bounds with a margin.  [NaN] and the infinities
      are outside it; a division by zero, which gives 0 in [Q], arises
      only from a strike or a premium of 0, and the validation in front
      of the routes admits no strike of 0.  Rationals are not normalised,
      so amounts are compared with [==] wherever the two sides are
      computed differently.
    - Where a computed amount is compared with a threshold, in the roll
      and the close evaluation, rounding decides the outcome at the
      boundary.  These two functions are modelled a second time over
      binary64 floating-point numbers (module [Float64], on Rocq's
      primitive floats), and the statements about their thresholds are
      made over that model.
    - [null] and [undefined] are [None].  JavaScript truthiness of an
      optional number ([x && ...], [x || d], [if (x)]) is [truthy]:
      present and not zero.
    - A [Date] is its epoch time in milliseconds ([Z]); every [Date] object
      is truthy.
    - [Map<string, number>] and [Record<string, number>] are [gmap string _];
      the [Map] of wheel cycles, whose values are listed in insertion
      order, is an association list.
    - The routes are modelled from the validated request to the row or
      the summary they produce; the HTTP layer, the store and the price
      oracle are their parameters.
    - Display strings built with [toFixed] (alert messages) are left out
      of the alert record; no property below reads them. *)

From Stdlib Require Import QArith Qround Qabs Lqa ZArith String Ascii List Sorted.
From Stdlib Require PrimFloat SpecFloat FloatOps FloatAxioms.
From stdpp Require Import gmap strings list fin_maps.

(** ** JavaScript values *)

Abbreviation number := Q (only parsing).

(** [!!x] for an optional number: present and different from zero. *)
Definition nonzero (q : Q) : bool := negb (Qeq_bool q 0).

Definition truthy (x : option Q) : bool :=
  match x with
  | Some q => nonzero q
  | None => false
  end.

(** [x || d] for an optional number. *)
Definition or_default (x : option Q) (d : Q) : Q :=
  match x with
  | Some q => if nonzero q then q else d
  | None => d
  end.

(** [x || null] for an optional number. *)
Definition or_null (x : option Q) : option Q :=
  if truthy x then x else None.

(** [Math.round]: the nearest integer, halves rounded up. *)
Definition Math_round (x : Q) : Q := inject_Z (Qfloor (x + (1 # 2))%Q).

(** [Math.round(x * 100) / 100].  The code rounds the double it has
    computed for [x * 100], which at a half-cent boundary can fall on the
    other side (4.975 * 100 is computed as 497.49999999999994); the
    statements below that involve rounded amounts are bounds of one cent,
    orderings of the rounded amounts, or equalities between two runs of
    the same computation. *)
Definition round2 (x : Q) : Q := (Math_round (x * 100) / 100)%Q.

(** [String.prototype.toUpperCase] on ASCII text. *)
Definition upper_ascii (c : ascii) : ascii :=
  let n := nat_of_ascii c in
  if (97 <=? n)%nat && (n <=? 122)%nat then ascii_of_nat (n - 32) else c.

Fixpoint toUpperCase (s : string) : string :=
  match s with
  | EmptyString => EmptyString
  | String c r => String (upper_ascii c) (toUpperCase r)
  end.

(** ** Positions (types/option.ts) *)

Inductive OptionType := put | call.
Inductive OptionStatus := StatusOpen | StatusClosed | StatusAssigned.

Global Instance OptionType_eq_dec : EqDecision OptionType.
Proof. solve_decision. Defined.
Global Instance OptionStatus_eq_dec : EqDecision OptionStatus.
Proof. solve_decision. Defined.

(** The raw trade fields of a position: what the user supplies and what
    the metrics helper reads. *)
Record PositionFields := {
  stockTicker : string;
  type : OptionType;
  contracts : Q;
  strike : Q;
  premium : Q;
  ownsStock : bool;
  stockCostBasis : option Q;
  stockQuantity : option Q;
  stockSalePrice : option Q;
  assigned : bool;
  openFees : option Q;
  closeDate : option Z;
  premiumPaidToClose : option Q;
  closeFees : option Q
}.

(** A stored row: the raw fields and the derived ones. *)
Record OptionPosition := {
  id : string;
  wheelCycleName : option string;
  fields :> PositionFields;
  status : OptionStatus;
  realizedPL : option Q;
  premiumRealizedPL : option Q;
  stockRealizedPL : option Q
}.

(** ** Position metrics (api/positions) *)

Module Calc.
(** What [calculatePositionMetrics] returns. *)
Record t := {
  status : OptionStatus;
  realizedPL : option Q;
  premiumRealizedPL : option Q;
  stockRealizedPL : option Q
}.

(** What the earlier update route's helper returns. *)
Record legacy := {
  legacy_status : OptionStatus;
  legacy_realizedPL : option Q
}.
End Calc.

(** [calculatePositionMetrics] of POST /api/positions. *)
Definition calculatePositionMetrics (p : PositionFields) : Calc.t :=
  let status :=
    if bool_decide (is_Some (closeDate p)) then StatusClosed
    else if assigned p && ownsStock p then StatusAssigned
    else StatusOpen in
  match status with
  | StatusClosed =>
      let premiumCollected := (premium p * contracts p * 100)%Q in
      let premiumPaid := (or_default (premiumPaidToClose p) 0 * contracts p * 100)%Q in
      let fees := (or_default (openFees p) 0 + or_default (closeFees p) 0)%Q in
      let premiumRealizedPL := (premiumCollected - premiumPaid - fees)%Q in
      let stockRealizedPL :=
        match stockSalePrice p, stockCostBasis p, stockQuantity p with
        | Some sale, Some basis, Some quantity =>
            if nonzero sale && nonzero basis && nonzero quantity
            then ((sale - basis) * quantity)%Q
            else 0%Q
        | _, _, _ => 0%Q
        end in
      {| Calc.status := status;
         Calc.realizedPL := Some (premiumRealizedPL + stockRealizedPL)%Q;
         Calc.premiumRealizedPL := Some premiumRealizedPL;
         Calc.stockRealizedPL := Some stockRealizedPL |}
  | StatusAssigned =>
      let premiumCollected := (premium p * contracts p * 100)%Q in
      let fees := or_default (openFees p) 0 in
      let premiumRealizedPL := (premiumCollected - fees)%Q in
      {| Calc.status := status;
         Calc.realizedPL := Some premiumRealizedPL;
         Calc.premiumRealizedPL := Some premiumRealizedPL;
         Calc.stockRealizedPL := Some 0%Q |}
  | StatusOpen =>
      {| Calc.status := status;
         Calc.realizedPL := None;
         Calc.premiumRealizedPL := None;
         Calc.stockRealizedPL := None |}
  end.

(** [calculatePositionMetrics] of the current PATCH /api/positions/[id]:
    the same helper, repeated in that route's file. *)
Definition calculatePositionMetrics_patch (p : PositionFields) : Calc.t :=
  let status :=
    if bool_decide (is_Some (closeDate p)) then StatusClosed
    else if assigned p && ownsStock p then StatusAssigned
    else StatusOpen in
  match status with
  | StatusClosed =>
      let premiumCollected := (premium p * contracts p * 100)%Q in
      let premiumPaid := (or_default (premiumPaidToClose p) 0 * contracts p * 100)%Q in
      let fees := (or_default (openFees p) 0 + or_default (closeFees p) 0)%Q in
      let premiumRealizedPL := (premiumCollected - premiumPaid - fees)%Q in
      let stockRealizedPL :=
        match stockSalePrice p, stockCostBasis p, stockQuantity p with
        | Some sale, Some basis, Some quantity =>
            if nonzero sale && nonzero basis && nonzero quantity
            then ((sale - basis) * quantity)%Q
            else 0%Q
        | _, _, _ => 0%Q
        end in
      {| Calc.status := status;
         Calc.realizedPL := Some (premiumRealizedPL + stockRealizedPL)%Q;
         Calc.premiumRealizedPL := Some premiumRealizedPL;
         Calc.stockRealizedPL := Some stockRealizedPL |}
  | StatusAssigned =>
      let premiumCollected := (premium p * contracts p * 100)%Q in
      let fees := or_default (openFees p) 0 in
      let premiumRealizedPL := (premiumCollected - fees)%Q in
      {| Calc.status := status;
         Calc.realizedPL := Some premiumRealizedPL;
         Calc.premiumRealizedPL := Some premiumRealizedPL;
         Calc.stockRealizedPL := Some 0%Q |}
  | StatusOpen =>
      {| Calc.status := status;
         Calc.realizedPL := None;
         Calc.premiumRealizedPL := None;
         Calc.stockRealizedPL := None |}
  end.

(** [calculatePositionMetrics] of the earlier PATCH /api/positions/[id]
    (the earlier create route carries the same text): the status test
    reads the assignment flag alone, and only the total realized P/L of a
    closed position is computed. *)
Definition calculatePositionMetrics_legacy (p : PositionFields) : Calc.legacy :=
  let status :=
    if bool_decide (is_Some (closeDate p)) then StatusClosed
    else if assigned p then StatusAssigned
    else StatusOpen in
  let realizedPL :=
    match status with
    | StatusClosed =>
        let premiumCollected := (premium p * contracts p * 100)%Q in
        let premiumPaid := (or_default (premiumPaidToClose p) 0 * contracts p * 100)%Q in
        let fees := (or_default (openFees p) 0 + or_default (closeFees p) 0)%Q in
        Some (premiumCollected - premiumPaid - fees)%Q
    | _ => None
    end in
  {| Calc.legacy_status := status; Calc.legacy_realizedPL := realizedPL |}.

(** *** The write paths *)

Definition set_stockQuantity (p : PositionFields) (q : option Q) : PositionFields :=
  {| stockTicker := stockTicker p; type := type p; contracts := contracts p;
     strike := strike p; premium := premium p; ownsStock := ownsStock p;
     stockCostBasis := stockCostBasis p; stockQuantity := q;
     stockSalePrice := stockSalePrice p; assigned := assigned p;
     openFees := openFees p; closeDate := closeDate p;
     premiumPaidToClose := premiumPaidToClose p; closeFees := closeFees p |}.

(** Stock quantity defaults to [contracts * 100] when stock is owned and
    no quantity is given. *)
Definition autoStockQuantity (p : PositionFields) : option Q :=
  if ownsStock p && negb (truthy (stockQuantity p))
  then Some (contracts p * 100)%Q
  else or_null (stockQuantity p).

(** POST /api/positions on validated data [v]; [newId] is the key the
    store assigns.  An empty close-date string is [None] in [v]. *)
Definition POST (newId : string) (v : PositionFields) : OptionPosition :=
  let stockQuantity := autoStockQuantity v in
  let metrics := calculatePositionMetrics (set_stockQuantity v stockQuantity) in
  {| id := newId;
     wheelCycleName := Some (stockTicker v);
     fields :=
       {| stockTicker := stockTicker v; type := type v; contracts := contracts v;
          strike := strike v; premium := premium v; ownsStock := ownsStock v;
          stockCostBasis := or_null (stockCostBasis v);
          stockQuantity := stockQuantity;
          stockSalePrice := or_null (stockSalePrice v);
          assigned := assigned v;
          openFees := or_null (openFees v);
          closeDate := closeDate v;
          premiumPaidToClose := or_null (premiumPaidToClose v);
          closeFees := or_null (closeFees v) |};
     status := Calc.status metrics;
     realizedPL := Calc.realizedPL metrics;
     premiumRealizedPL := Calc.premiumRealizedPL metrics;
     stockRealizedPL := Calc.stockRealizedPL metrics |}.

(** A close date in a partial update: not supplied, supplied as the empty
    string, or supplied as a date. *)
Inductive DateUpdate := DateAbsent | DateEmpty | DateValue (d : Z).

(** The validated body of a PATCH: every field is optional. *)
Record PositionUpdate := {
  u_stockTicker : option string;
  u_type : option OptionType;
  u_contracts : option Q;
  u_strike : option Q;
  u_premium : option Q;
  u_ownsStock : option bool;
  u_stockCostBasis : option Q;
  u_stockQuantity : option Q;
  u_stockSalePrice : option Q;
  u_assigned : option bool;
  u_openFees : option Q;
  u_closeDate : DateUpdate;
  u_premiumPaidToClose : option Q;
  u_closeFees : option Q
}.

(** [{...existing}.f] overridden by [{...updateData}.f]. *)
Definition override {A} (old : A) (new : option A) : A := default old new.
Definition override_opt {A} (old new : option A) : option A :=
  match new with Some x => Some x | None => old end.

(** [{ ...existingPosition, ...updateData }], raw fields.  An empty
    close-date string is falsy for the helper, like [null]. *)
Definition mergedData (existing : PositionFields) (u : PositionUpdate) : PositionFields :=
  {| stockTicker := override (stockTicker existing) (u_stockTicker u);
     type := override (type existing) (u_type u);
     contracts := override (contracts existing) (u_contracts u);
     strike := override (strike existing) (u_strike u);
     premium := override (premium existing) (u_premium u);
     ownsStock := override (ownsStock existing) (u_ownsStock u);
     stockCostBasis := override_opt (stockCostBasis existing) (u_stockCostBasis u);
     stockQuantity := override_opt (stockQuantity existing) (u_stockQuantity u);
     stockSalePrice := override_opt (stockSalePrice existing) (u_stockSalePrice u);
     assigned := override (assigned existing) (u_assigned u);
     openFees := override_opt (openFees existing) (u_openFees u);
     closeDate :=
       match u_closeDate u with
       | DateAbsent => closeDate existing
       | DateEmpty => None
       | DateValue d => Some d
       end;
     premiumPaidToClose := override_opt (premiumPaidToClose existing) (u_premiumPaidToClose u);
     closeFees := override_opt (closeFees existing) (u_closeFees u) |}.

(** The current PATCH /api/positions/[id] on a found row. *)
Definition PATCH (existing : OptionPosition) (u : PositionUpdate) : OptionPosition :=
  let merged := mergedData existing u in
  let stockQuantity := autoStockQuantity merged in
  let mergedDataWithQuantity := set_stockQuantity merged stockQuantity in
  let metrics := calculatePositionMetrics_patch mergedDataWithQuantity in
  {| id := id existing;
     wheelCycleName :=
       match u_stockTicker u with
       | Some t => if String.eqb t "" then wheelCycleName existing else Some t
       | None => wheelCycleName existing
       end;
     fields := mergedDataWithQuantity;
     status := Calc.status metrics;
     realizedPL := Calc.realizedPL metrics;
     premiumRealizedPL := Calc.premiumRealizedPL metrics;
     stockRealizedPL := Calc.stockRealizedPL metrics |}.

(** The earlier PATCH /api/positions/[id] on a found row: status and total
    realized P/L are rewritten, the component fields are left as stored. *)
Definition PATCH_legacy (existing : OptionPosition) (u : PositionUpdate) : OptionPosition :=
  let merged := mergedData existing u in
  let metrics := calculatePositionMetrics_legacy merged in
  {| id := id existing;
     wheelCycleName := wheelCycleName existing;
     fields := merged;
     status := Calc.legacy_status metrics;
     realizedPL := Calc.legacy_realizedPL metrics;
     premiumRealizedPL := premiumRealizedPL existing;
     stockRealizedPL := stockRealizedPL existing |}.

(** ** Strategy alerts (types/strategy.ts, lib/strategies.ts)

    The alert engine over exact rationals.  This model carries the
    statements about which positions raise alerts, how many, in which
    order, and how they respond to prices and dismissals.  What an
    evaluation returns at a threshold is stated over the binary64 model
    that follows it (module [Float64]). *)

Inductive AlertType := roll | close | warning.
Inductive AlertUrgency := low | medium | high.
Inductive StrategyType := standard | custom.

Global Instance AlertType_eq_dec : EqDecision AlertType.
Proof. solve_decision. Defined.
Global Instance AlertUrgency_eq_dec : EqDecision AlertUrgency.
Proof. solve_decision. Defined.

Module Alert.
(** [StrategyAlert], without its display message. *)
Record t := {
  positionId : string;
  ticker : string;
  type : AlertType;
  title : string;
  targetPrice : Q;
  threshold : Q;
  currentDistance : Q;
  urgency : AlertUrgency;
  position : OptionPosition
}.
End Alert.

Record StrategyConfig := {
  strategyType : StrategyType;
  rollThreshold : Q;
  closeThreshold : Q
}.

Record UserStrategyConfig := {
  activeStrategy : StrategyType;
  customRollThreshold : Q;
  customCloseThreshold : Q;
  dismissedAlerts : list string;
  dismissedAt : gmap string Z
}.

Definition DEFAULT_STRATEGY_CONFIG : UserStrategyConfig :=
  {| activeStrategy := standard;
     customRollThreshold := 3;
     customCloseThreshold := 75;
     dismissedAlerts := [];
     dismissedAt := ∅ |}.

Definition STANDARD_STRATEGY : StrategyConfig :=
  {| strategyType := standard; rollThreshold := 3; closeThreshold := 75 |}.

(** [x < y] on numbers. *)
Definition Qlt_bool (x y : Q) : bool := negb (Qle_bool y x).

Definition calculateRollAlert (position : OptionPosition) (currentPrice : Q)
    (config : StrategyConfig) : option Alert.t :=
  if negb (bool_decide (status position = StatusOpen)) then None else
  let rollThresholdMultiplier := (1 + rollThreshold config / 100)%Q in
  let targetRollPrice := (strike position * rollThresholdMultiplier)%Q in
  let currentDistancePercent :=
    ((currentPrice - strike position) / strike position * 100)%Q in
  if Qle_bool targetRollPrice currentPrice then
    let overshoot := (currentPrice - targetRollPrice)%Q in
    let overshootPercent := (overshoot / strike position * 100)%Q in
    let urgency :=
      if Qle_bool 1 overshootPercent then high
      else if Qle_bool (1 # 4) overshootPercent then medium
      else low in
    Some {| Alert.positionId := id position;
            Alert.ticker := stockTicker position;
            Alert.type := roll;
            Alert.title :=
              match type position with
              | put => "Roll Put"
              | call => "Roll Call"
              end;
            Alert.targetPrice := targetRollPrice;
            Alert.threshold := rollThreshold config;
            Alert.currentDistance := currentDistancePercent;
            Alert.urgency := urgency;
            Alert.position := position |}
  else
    let approachThresholdMultiplier :=
      (1 + (rollThreshold config - (1 # 2)) / 100)%Q in
    let approachPrice := (strike position * approachThresholdMultiplier)%Q in
    if Qle_bool approachPrice currentPrice && Qlt_bool currentPrice targetRollPrice then
      Some {| Alert.positionId := id position;
              Alert.ticker := stockTicker position;
              Alert.type := warning;
              Alert.title := "Approaching Roll Threshold";
              Alert.targetPrice := targetRollPrice;
              Alert.threshold := rollThreshold config;
              Alert.currentDistance := currentDistancePercent;
              Alert.urgency := low;
              Alert.position := position |}
    else None.

Definition calculateCloseAlert (position : OptionPosition)
    (currentOptionPrice : option Q) (config : StrategyConfig) : option Alert.t :=
  if negb (bool_decide (status position = StatusOpen)) then None else
  match currentOptionPrice with
  | None => None
  | Some currentOptionPrice =>
      let targetCloseMultiplier := ((100 - closeThreshold config) / 100)%Q in
      let targetClosePrice := (premium position * targetCloseMultiplier)%Q in
      let profitPercent :=
        ((premium position - currentOptionPrice) / premium position * 100)%Q in
      if Qle_bool currentOptionPrice targetClosePrice then
        let urgency :=
          if Qle_bool (closeThreshold config + 5) profitPercent then high
          else if Qle_bool (closeThreshold config) profitPercent then medium
          else medium in
        Some {| Alert.positionId := id position;
                Alert.ticker := stockTicker position;
                Alert.type := close;
                Alert.title := "Close for Profit";
                Alert.targetPrice := targetClosePrice;
                Alert.threshold := closeThreshold config;
                Alert.currentDistance := profitPercent;
                Alert.urgency := urgency;
                Alert.position := position |}
      else None
  end.

(** [if (x) { const a = f(x); if (a) alerts.push(a) }] *)
Definition push_alert (a : option Alert.t) (alerts : list Alert.t) : list Alert.t :=
  match a with
  | Some a => alerts ++ [a]
  | None => alerts
  end.

Definition calculatePositionAlerts (position : OptionPosition)
    (currentStockPrice currentOptionPrice : option Q)
    (config : StrategyConfig) : list Alert.t :=
  let alerts := [] in
  let alerts :=
    match currentStockPrice with
    | Some price =>
        if nonzero price
        then push_alert (calculateRollAlert position price config) alerts
        else alerts
    | None => alerts
    end in
  let alerts :=
    if truthy currentOptionPrice
    then push_alert (calculateCloseAlert position currentOptionPrice config) alerts
    else alerts in
  alerts.

(** [Array.prototype.sort(compareFn)]: a stable sort; [compareFn a b]
    positive puts [b] first, negative or zero keeps [a] first. *)
Fixpoint sort_insert {A} (compareFn : A → A → Q) (x : A) (l : list A) : list A :=
  match l with
  | [] => [x]
  | y :: r =>
      if Qle_bool (compareFn x y) 0 then x :: y :: r
      else y :: sort_insert compareFn x r
  end.

Definition Array_sort {A} (compareFn : A → A → Q) (l : list A) : list A :=
  foldr (sort_insert compareFn) [] l.

Definition urgencyOrder (u : AlertUrgency) : Q :=
  match u with
  | high => 0
  | medium => 1
  | low => 2
  end.

Definition compareAlerts (a b : Alert.t) : Q :=
  if negb (Qeq_bool (urgencyOrder (Alert.urgency a)) (urgencyOrder (Alert.urgency b)))
  then (urgencyOrder (Alert.urgency a) - urgencyOrder (Alert.urgency b))%Q
  else (Qabs (Alert.currentDistance b) - Qabs (Alert.currentDistance a))%Q.

(** The alerts pushed by the [forEach] of [calculateAllAlerts], before
    sorting. *)
Definition collectAlerts (positions : list OptionPosition)
    (stockPrices : gmap string Q) (optionPrices : option (gmap string Q))
    (config : StrategyConfig) : list Alert.t :=
  fold_left
    (λ alerts position,
       if negb (bool_decide (status position = StatusOpen)) then alerts else
       let stockPrice := stockPrices !! toUpperCase (stockTicker position) in
       let optionPrice := or_null (optionPrices ≫= (λ m, m !! id position)) in
       let positionAlerts :=
         calculatePositionAlerts position (or_null stockPrice) optionPrice config in
       alerts ++ positionAlerts)
    positions [].

Definition calculateAllAlerts (positions : list OptionPosition)
    (stockPrices : gmap string Q) (optionPrices : option (gmap string Q))
    (config : StrategyConfig) : list Alert.t :=
  Array_sort compareAlerts (collectAlerts positions stockPrices optionPrices config).

Definition getStrategyConfig (activeStrategy : StrategyType)
    (customRollThreshold customCloseThreshold : Q) : StrategyConfig :=
  match activeStrategy with
  | standard => STANDARD_STRATEGY
  | custom =>
      {| strategyType := custom;
         rollThreshold := customRollThreshold;
         closeThreshold := customCloseThreshold |}
  end.

(** ** The roll and close evaluations over IEEE-754 doubles (lib/strategies.ts)

    The roll and the close evaluation compare a computed amount with a
    threshold, so at the boundary the rounding of each operation decides
    whether an alert is emitted and how urgent it is.  They are modelled
    here a second time with the numbers the code has, binary64
    floating-point numbers, operation for operation and in the order the
    code evaluates them.  [a >= b] is [b <=? a]; a comparison with [NaN]
    is false. *)

Module Float64.
Import PrimFloat.

(** [!!x] for a number: not 0, not -0 and not [NaN]. *)
Definition nonzero (x : float) : bool := negb (x =? 0)%float && negb (is_nan x).

Definition truthy (x : option float) : bool :=
  match x with
  | Some v => nonzero v
  | None => false
  end.

Definition isPresent (x : option float) : bool :=
  match x with Some _ => true | None => false end.

(** [OptionPosition] (types/option.ts): the identification, the terms and
    the amounts of a stored position. *)
Record OptionPosition := {
  id : string;
  wheelCycleName : option string;
  stockTicker : string;
  type : OptionType;
  contracts : float;
  strike : float;
  premium : float;
  ownsStock : bool;
  stockCostBasis : option float;
  stockQuantity : option float;
  stockSalePrice : option float;
  assigned : bool;
  status : OptionStatus;
  openFees : option float;
  closeDate : option Z;
  premiumPaidToClose : option float;
  closeFees : option float;
  realizedPL : option float;
  premiumRealizedPL : option float;
  stockRealizedPL : option float
}.

Module Alert.
(** [StrategyAlert], without its display message. *)
Record t := {
  positionId : string;
  ticker : string;
  type : AlertType;
  title : string;
  targetPrice : float;
  threshold : float;
  currentDistance : float;
  urgency : AlertUrgency;
  position : OptionPosition
}.
End Alert.

Record StrategyConfig := {
  strategyType : StrategyType;
  rollThreshold : float;
  closeThreshold : float
}.

Definition STANDARD_STRATEGY : StrategyConfig :=
  {| strategyType := standard; rollThreshold := 3; closeThreshold := 75 |}.

Definition calculateRollAlert (position : OptionPosition) (currentPrice : float)
    (config : StrategyConfig) : option Alert.t :=
  if negb (bool_decide (status position = StatusOpen)) then None else
  let rollThresholdMultiplier := (1 + rollThreshold config / 100)%float in
  let targetRollPrice := (strike position * rollThresholdMultiplier)%float in
  let currentDistancePercent :=
    ((currentPrice - strike position) / strike position * 100)%float in
  if (targetRollPrice <=? currentPrice)%float then
    let overshoot := (currentPrice - targetRollPrice)%float in
    let overshootPercent := (overshoot / strike position * 100)%float in
    let urgency :=
      if (1 <=? overshootPercent)%float then high
      else if (0.25 <=? overshootPercent)%float then medium
      else low in
    Some {| Alert.positionId := id position;
            Alert.ticker := stockTicker position;
            Alert.type := roll;
            Alert.title :=
              match type position with
              | put => "Roll Put"
              | call => "Roll Call"
              end;
            Alert.targetPrice := targetRollPrice;
            Alert.threshold := rollThreshold config;
            Alert.currentDistance := currentDistancePercent;
            Alert.urgency := urgency;
            Alert.position := position |}
  else
    let approachThresholdMultiplier :=
      (1 + (rollThreshold config - 0.5) / 100)%float in
    let approachPrice := (strike position * approachThresholdMultiplier)%float in
    if (approachPrice <=? currentPrice)%float
       && (currentPrice <? targetRollPrice)%float then
      Some {| Alert.positionId := id position;
              Alert.ticker := stockTicker position;
              Alert.type := warning;
              Alert.title := "Approaching Roll Threshold";
              Alert.targetPrice := targetRollPrice;
              Alert.threshold := rollThreshold config;
              Alert.currentDistance := currentDistancePercent;
              Alert.urgency := low;
              Alert.position := position |}
    else None.

Definition calculateCloseAlert (position : OptionPosition)
    (currentOptionPrice : option float) (config : StrategyConfig)
    : option Alert.t :=
  if negb (bool_decide (status position = StatusOpen)) then None else
  match currentOptionPrice with
  | None => None
  | Some currentOptionPrice =>
      let targetCloseMultiplier := ((100 - closeThreshold config) / 100)%float in
      let targetClosePrice := (premium position * targetCloseMultiplier)%float in
      let profitPercent :=
        ((premium position - currentOptionPrice) / premium position * 100)%float in
      if (currentOptionPrice <=? targetClosePrice)%float then
        let urgency :=
          if (closeThreshold config + 5 <=? profitPercent)%float then high
          else if (closeThreshold config <=? profitPercent)%float then medium
          else medium in
        Some {| Alert.positionId := id position;
                Alert.ticker := stockTicker position;
                Alert.type := close;
                Alert.title := "Close for Profit";
                Alert.targetPrice := targetClosePrice;
                Alert.threshold := closeThreshold config;
                Alert.currentDistance := profitPercent;
                Alert.urgency := urgency;
                Alert.position := position |}
      else None
  end.

(** [if (x) { const a = f(x); if (a) alerts.push(a) }] *)
Definition push_alert (a : option Alert.t) (alerts : list Alert.t) : list Alert.t :=
  match a with
  | Some a => alerts ++ [a]
  | None => alerts
  end.

Definition calculatePositionAlerts (position : OptionPosition)
    (currentStockPrice currentOptionPrice : option float)
    (config : StrategyConfig) : list Alert.t :=
  let alerts := [] in
  let alerts :=
    match currentStockPrice with
    | Some price =>
        if nonzero price
        then push_alert (calculateRollAlert position price config) alerts
        else alerts
    | None => alerts
    end in
  let alerts :=
    if truthy currentOptionPrice
    then push_alert (calculateCloseAlert position currentOptionPrice config) alerts
    else alerts in
  alerts.

(** *** The thresholds and percentages of the alert rules, as the
    specification writes them, evaluated in doubles *)

(** targetRollPrice = strike x (1 + rollThreshold/100) *)
Definition targetRollPrice (p : OptionPosition) (config : StrategyConfig) : float :=
  (strike p * (1 + rollThreshold config / 100))%float.

(** strike x (1 + (rollThreshold - 0.5)/100) *)
Definition approachPrice (p : OptionPosition) (config : StrategyConfig) : float :=
  (strike p * (1 + (rollThreshold config - 0.5) / 100))%float.

(** (price - strike)/strike x 100 *)
Definition distancePercent (p : OptionPosition) (price : float) : float :=
  ((price - strike p) / strike p * 100)%float.

(** (price - targetRollPrice)/strike x 100 *)
Definition overshootPercent (p : OptionPosition) (config : StrategyConfig)
    (price : float) : float :=
  ((price - targetRollPrice p config) / strike p * 100)%float.

(** targetClosePrice = premium x (100 - closeThreshold)/100, the premium
    times the fraction that is left of it *)
Definition targetClosePrice (p : OptionPosition) (config : StrategyConfig) : float :=
  (premium p * ((100 - closeThreshold config) / 100))%float.

(** (premium - optionPrice)/premium x 100 *)
Definition profitPercent (p : OptionPosition) (optionPrice : float) : float :=
  ((premium p - optionPrice) / premium p * 100)%float.

(** The alerts of one kind in a list. *)
Definition alertsOfType (ty : AlertType) (alerts : list Alert.t) : list Alert.t :=
  List.filter (λ a, bool_decide (Alert.type a = ty)) alerts.


(** An open put: strike 100, premium 2.00, one contract. *)
Definition openPut (strikePrice premiumReceived : float) : OptionPosition :=
  {| id := "pos-1"; wheelCycleName := None; stockTicker := "XYZ"; type := put;
     contracts := 1; strike := strikePrice; premium := premiumReceived;
     ownsStock := false; stockCostBasis := None; stockQuantity := None;
     stockSalePrice := None; assigned := false; status := StatusOpen;
     openFees := Some 1%float; closeDate := None; premiumPaidToClose := None;
     closeFees := None; realizedPL := None; premiumRealizedPL := None;
     stockRealizedPL := None |}.

Definition withThresholds (rollPercent closePercent : float) : StrategyConfig :=
  {| strategyType := custom; rollThreshold := rollPercent;
     closeThreshold := closePercent |}.

End Float64.

(** ** The alert hook and its dismissal store (hooks/use-strategy-alerts.ts)

    Every state setter of the hook is a function from the stored
    configuration to the next one; [now] is the value of [Date.now()]. *)

Definition ALERT_REAPPEAR_HOURS : Z := 24.

(** [array.includes(x)] on strings. *)
Definition includes (l : list string) (x : string) : bool :=
  existsb (String.eqb x) l.

(** The clean-up effect: the callback of the [filter] over the id list. *)
Definition stillDismissed (now : Z) (dismissedAt : gmap string Z)
    (positionId : string) : bool :=
  let hoursInMs := (ALERT_REAPPEAR_HOURS * 60 * 60 * 1000)%Z in
  match dismissedAt !! positionId with
  | None => false
  | Some dismissedTime =>
      if (dismissedTime =? 0)%Z then false
      else (now - dismissedTime <? hoursInMs)%Z
  end.

Definition expirySweep (now : Z) (strategyConfig : UserStrategyConfig)
    : UserStrategyConfig :=
  let newDismissedAlerts :=
    List.filter (stillDismissed now (dismissedAt strategyConfig))
                (dismissedAlerts strategyConfig) in
  let newDismissedAt : gmap string Z :=
    filter (λ entry, includes newDismissedAlerts entry.1 = true)
           (dismissedAt strategyConfig) in
  if negb (length newDismissedAlerts =? length (dismissedAlerts strategyConfig))%nat
  then {| activeStrategy := activeStrategy strategyConfig;
          customRollThreshold := customRollThreshold strategyConfig;
          customCloseThreshold := customCloseThreshold strategyConfig;
          dismissedAlerts := newDismissedAlerts;
          dismissedAt := newDismissedAt |}
  else strategyConfig.

Definition dismissAlert (now : Z) (positionId : string)
    (prev : UserStrategyConfig) : UserStrategyConfig :=
  {| activeStrategy := activeStrategy prev;
     customRollThreshold := customRollThreshold prev;
     customCloseThreshold := customCloseThreshold prev;
     dismissedAlerts := dismissedAlerts prev ++ [positionId];
     dismissedAt := <[positionId := now]> (dismissedAt prev) |}.

Definition undismissAlert (positionId : string)
    (prev : UserStrategyConfig) : UserStrategyConfig :=
  let newDismissedAlerts :=
    List.filter (λ id, negb (String.eqb id positionId)) (dismissedAlerts prev) in
  let newDismissedAt := delete positionId (dismissedAt prev) in
  {| activeStrategy := activeStrategy prev;
     customRollThreshold := customRollThreshold prev;
     customCloseThreshold := customCloseThreshold prev;
     dismissedAlerts := newDismissedAlerts;
     dismissedAt := newDismissedAt |}.

Definition clearAllDismissed (prev : UserStrategyConfig) : UserStrategyConfig :=
  {| activeStrategy := activeStrategy prev;
     customRollThreshold := customRollThreshold prev;
     customCloseThreshold := customCloseThreshold prev;
     dismissedAlerts := [];
     dismissedAt := ∅ |}.

Definition allAlerts (strategyConfig : UserStrategyConfig)
    (positions : list OptionPosition) (stockPrices : gmap string Q) : list Alert.t :=
  let config :=
    getStrategyConfig (activeStrategy strategyConfig)
      (customRollThreshold strategyConfig) (customCloseThreshold strategyConfig) in
  calculateAllAlerts positions stockPrices None config.

Definition activeAlerts (strategyConfig : UserStrategyConfig)
    (positions : list OptionPosition) (stockPrices : gmap string Q) : list Alert.t :=
  List.filter
    (λ alert, negb (includes (dismissedAlerts strategyConfig) (Alert.positionId alert)))
    (allAlerts strategyConfig positions stockPrices).

(** The operations on the dismissal store. *)
Inductive DismissalOp :=
  | OpDismiss (now : Z) (positionId : string)
  | OpUndismiss (positionId : string)
  | OpClearAll
  | OpSweep (now : Z).

Definition applyOp (op : DismissalOp) (c : UserStrategyConfig) : UserStrategyConfig :=
  match op with
  | OpDismiss now positionId => dismissAlert now positionId c
  | OpUndismiss positionId => undismissAlert positionId c
  | OpClearAll => clearAllDismissed c
  | OpSweep now => expirySweep now c
  end.

(** The list of dismissed ids and the timestamp map name the same ids. *)
Definition dismissalsInSync (c : UserStrategyConfig) : Prop :=
  ∀ positionId : string,
    positionId ∈ dismissedAlerts c ↔ is_Some (dismissedAt c !! positionId).

(** ** Wheel cycles (api/wheel-cycles) *)

Inductive CycleStatus := active | completed.

Global Instance CycleStatus_eq_dec : EqDecision CycleStatus.
Proof. solve_decision. Defined.

Module Cycle.
(** The accumulator kept per cycle name in [wheelCyclesMap]. *)
Record t := {
  name : string;
  positions : list OptionPosition;
  totalPositions : nat;
  openPositions : nat;
  closedPositions : nat;
  totalPL : Q;
  realizedPL : Q;
  unrealizedPL : Q;
  totalPremiumCollected : Q;
  status : CycleStatus
}.

Definition new (cycleName : string) : t :=
  {| name := cycleName; positions := []; totalPositions := 0;
     openPositions := 0; closedPositions := 0; totalPL := 0;
     realizedPL := 0; unrealizedPL := 0; totalPremiumCollected := 0;
     status := active |}.
End Cycle.

(** [WheelCycleSummary]: what the route returns per cycle. *)
Module Summary.
Record t := {
  name : string;
  totalPositions : nat;
  openPositions : nat;
  closedPositions : nat;
  totalPL : Q;
  realizedPL : Q;
  unrealizedPL : Q;
  totalPremiumCollected : Q;
  status : CycleStatus
}.
End Summary.

(** [position.wheelCycleName || 'Uncategorized'] *)
Definition cycleNameOf (position : OptionPosition) : string :=
  match wheelCycleName position with
  | Some n => if String.eqb n "" then "Uncategorized" else n
  | None => "Uncategorized"
  end.

(** The body of the [forEach] once the cycle object is at hand. *)
Definition accrue (cycle : Cycle.t) (position : OptionPosition) : Cycle.t :=
  let positions := Cycle.positions cycle ++ [position] in
  let totalPositions := S (Cycle.totalPositions cycle) in
  let premiumCollected := (premium position * contracts position * 100)%Q in
  match status position with
  | StatusOpen | StatusAssigned =>
      let realizedPL := Cycle.realizedPL cycle in
      let unrealizedPL :=
        (Cycle.unrealizedPL cycle
         + (premiumCollected - or_default (openFees position) 0))%Q in
      {| Cycle.name := Cycle.name cycle;
         Cycle.positions := positions;
         Cycle.totalPositions := totalPositions;
         Cycle.openPositions := S (Cycle.openPositions cycle);
         Cycle.closedPositions := Cycle.closedPositions cycle;
         Cycle.totalPL := (realizedPL + unrealizedPL)%Q;
         Cycle.realizedPL := realizedPL;
         Cycle.unrealizedPL := unrealizedPL;
         Cycle.totalPremiumCollected :=
           (Cycle.totalPremiumCollected cycle + premiumCollected)%Q;
         Cycle.status := active |}
  | StatusClosed =>
      let realizedPL :=
        match realizedPL position with
        | Some pl =>
            if nonzero pl then (Cycle.realizedPL cycle + pl)%Q
            else Cycle.realizedPL cycle
        | None => Cycle.realizedPL cycle
        end in
      let unrealizedPL := Cycle.unrealizedPL cycle in
      let premiumPaid :=
        (or_default (premiumPaidToClose position) 0 * contracts position * 100)%Q in
      {| Cycle.name := Cycle.name cycle;
         Cycle.positions := positions;
         Cycle.totalPositions := totalPositions;
         Cycle.openPositions := Cycle.openPositions cycle;
         Cycle.closedPositions := S (Cycle.closedPositions cycle);
         Cycle.totalPL := (realizedPL + unrealizedPL)%Q;
         Cycle.realizedPL := realizedPL;
         Cycle.unrealizedPL := unrealizedPL;
         Cycle.totalPremiumCollected :=
           (Cycle.totalPremiumCollected cycle + (premiumCollected - premiumPaid))%Q;
         Cycle.status := Cycle.status cycle |}
  end.

(** The insertion-ordered [Map<string, cycle>]. *)
Fixpoint Map_has (m : list (string * Cycle.t)) (k : string) : bool :=
  match m with
  | [] => false
  | (k', _) :: r => if String.eqb k' k then true else Map_has r k
  end.

Fixpoint Map_get (m : list (string * Cycle.t)) (k : string) : option Cycle.t :=
  match m with
  | [] => None
  | (k', c) :: r => if String.eqb k' k then Some c else Map_get r k
  end.

(** Mutation of the object stored under [k], in place. *)
Fixpoint Map_update (f : Cycle.t → Cycle.t) (k : string)
    (m : list (string * Cycle.t)) : list (string * Cycle.t) :=
  match m with
  | [] => []
  | (k', c) :: r =>
      if String.eqb k' k then (k', f c) :: r else (k', c) :: Map_update f k r
  end.

Definition Map_values (m : list (string * Cycle.t)) : list Cycle.t := m.*2.

Definition groupStep (wheelCyclesMap : list (string * Cycle.t))
    (position : OptionPosition) : list (string * Cycle.t) :=
  let cycleName := cycleNameOf position in
  let wheelCyclesMap :=
    if negb (Map_has wheelCyclesMap cycleName)
    then wheelCyclesMap ++ [(cycleName, Cycle.new cycleName)]
    else wheelCyclesMap in
  Map_update (λ cycle, accrue cycle position) cycleName wheelCyclesMap.

(** The second [forEach]: a cycle with no open and some closed position
    is completed. *)
Definition determineStatus (cycle : Cycle.t) : Cycle.t :=
  if (Cycle.openPositions cycle =? 0)%nat && (0 <? Cycle.closedPositions cycle)%nat
  then {| Cycle.name := Cycle.name cycle;
          Cycle.positions := Cycle.positions cycle;
          Cycle.totalPositions := Cycle.totalPositions cycle;
          Cycle.openPositions := Cycle.openPositions cycle;
          Cycle.closedPositions := Cycle.closedPositions cycle;
          Cycle.totalPL := Cycle.totalPL cycle;
          Cycle.realizedPL := Cycle.realizedPL cycle;
          Cycle.unrealizedPL := Cycle.unrealizedPL cycle;
          Cycle.totalPremiumCollected := Cycle.totalPremiumCollected cycle;
          Cycle.status := completed |}
  else cycle.

(** The cycles after both passes, in insertion order, before rounding. *)
Definition cycleAccumulators (positions : list OptionPosition) : list Cycle.t :=
  map determineStatus (Map_values (fold_left groupStep positions [])).

Definition summarize (cycle : Cycle.t) : Summary.t :=
  {| Summary.name := Cycle.name cycle;
     Summary.totalPositions := Cycle.totalPositions cycle;
     Summary.openPositions := Cycle.openPositions cycle;
     Summary.closedPositions := Cycle.closedPositions cycle;
     Summary.totalPL := round2 (Cycle.totalPL cycle);
     Summary.realizedPL := round2 (Cycle.realizedPL cycle);
     Summary.unrealizedPL := round2 (Cycle.unrealizedPL cycle);
     Summary.totalPremiumCollected := round2 (Cycle.totalPremiumCollected cycle);
     Summary.status := Cycle.status cycle |}.

Definition compareCycles (a b : Summary.t) : Q :=
  match Summary.status a, Summary.status b with
  | active, completed => (-1)%Q
  | completed, active => 1%Q
  | _, _ => (Summary.totalPL b - Summary.totalPL a)%Q
  end.

(** GET /api/wheel-cycles on the stored positions. *)
Definition wheelCycles (positions : list OptionPosition) : list Summary.t :=
  Array_sort compareCycles (map summarize (cycleAccumulators positions)).

(** ** Portfolio metrics (api/metrics) *)

Module Metrics.
Record t := {
  totalPositions : nat;
  openPositions : nat;
  closedPositions : nat;
  assignedPositions : nat;
  realizedPL : Q;
  premiumRealizedPL : Q;
  stockRealizedPL : Q;
  unrealizedPL : Q;
  premiumUnrealizedPL : Q;
  stockUnrealizedPL : Q;
  openPremiumCollected : Q;
  closedPremiumCollected : Q;
  totalCapitalAllocated : Q;
  totalFees : Q
}.
End Metrics.

(** [if (x) { total += x }] *)
Definition add_if_truthy (total : Q) (x : option Q) : Q :=
  match x with
  | Some v => if nonzero v then (total + v)%Q else total
  | None => total
  end.

Definition countStatus (s : OptionStatus) (positions : list OptionPosition) : nat :=
  length (List.filter (λ p, bool_decide (status p = s)) positions).

(** [total += x] when a contribution is made, no change otherwise. *)
Definition add_opt (total : Q) (x : option Q) : Q :=
  match x with
  | Some v => (total + v)%Q
  | None => total
  end.

(** The stock part of the assigned branch: the unrealized gain on stock
    held, when there is one to add. *)
Definition stockUnrealized (currentStockPrices : gmap string Q)
    (position : OptionPosition) : option Q :=
  match stockCostBasis position, stockQuantity position with
  | Some basis, Some quantity =>
      if ownsStock position && nonzero basis && nonzero quantity then
        match currentStockPrices !! toUpperCase (stockTicker position) with
        | Some currentPrice =>
            if nonzero currentPrice
            then Some ((currentPrice - basis) * quantity)%Q
            else None
        | None => None
        end
      else None
  | _, _ => None
  end.

(** Capital allocated by one position, when it allocates any. *)
Definition capitalAllocated (position : OptionPosition) : option Q :=
  match status position with
  | StatusOpen | StatusAssigned =>
      match type position with
      | put => Some (strike position * contracts position * 100)%Q
      | call =>
          if ownsStock position then
            let stockValue :=
              match stockCostBasis position with
              | Some basis =>
                  if ownsStock position && nonzero basis
                  then (basis * contracts position * 100)%Q
                  else (strike position * contracts position * 100)%Q
              | None => (strike position * contracts position * 100)%Q
              end in
            Some stockValue
          else None
      end
  | StatusClosed => None
  end.

(** The body of the [forEach] over the positions. *)
Definition metricsStep (currentStockPrices : gmap string Q)
    (metrics : Metrics.t) (position : OptionPosition) : Metrics.t :=
  let premiumCollected := (premium position * contracts position * 100)%Q in
  let fees :=
    (or_default (openFees position) 0 + or_default (closeFees position) 0)%Q in
  let totalFees := (Metrics.totalFees metrics + fees)%Q in
  let totalCapitalAllocated :=
    add_opt (Metrics.totalCapitalAllocated metrics) (capitalAllocated position) in
  match status position with
  | StatusClosed =>
      let premiumPaidToClose :=
        (or_default (premiumPaidToClose position) 0 * contracts position * 100)%Q in
      let netPremium := (premiumCollected - premiumPaidToClose)%Q in
      {| Metrics.totalPositions := Metrics.totalPositions metrics;
         Metrics.openPositions := Metrics.openPositions metrics;
         Metrics.closedPositions := Metrics.closedPositions metrics;
         Metrics.assignedPositions := Metrics.assignedPositions metrics;
         Metrics.realizedPL :=
           add_if_truthy (Metrics.realizedPL metrics) (realizedPL position);
         Metrics.premiumRealizedPL :=
           add_if_truthy (Metrics.premiumRealizedPL metrics) (premiumRealizedPL position);
         Metrics.stockRealizedPL :=
           add_if_truthy (Metrics.stockRealizedPL metrics) (stockRealizedPL position);
         Metrics.unrealizedPL := Metrics.unrealizedPL metrics;
         Metrics.premiumUnrealizedPL := Metrics.premiumUnrealizedPL metrics;
         Metrics.stockUnrealizedPL := Metrics.stockUnrealizedPL metrics;
         Metrics.openPremiumCollected := Metrics.openPremiumCollected metrics;
         Metrics.closedPremiumCollected :=
           (Metrics.closedPremiumCollected metrics + netPremium)%Q;
         Metrics.totalCapitalAllocated := totalCapitalAllocated;
         Metrics.totalFees := totalFees |}
  | StatusOpen =>
      let premiumUnrealized :=
        (premiumCollected - or_default (openFees position) 0)%Q in
      {| Metrics.totalPositions := Metrics.totalPositions metrics;
         Metrics.openPositions := Metrics.openPositions metrics;
         Metrics.closedPositions := Metrics.closedPositions metrics;
         Metrics.assignedPositions := Metrics.assignedPositions metrics;
         Metrics.realizedPL := Metrics.realizedPL metrics;
         Metrics.premiumRealizedPL := Metrics.premiumRealizedPL metrics;
         Metrics.stockRealizedPL := Metrics.stockRealizedPL metrics;
         Metrics.unrealizedPL := Metrics.unrealizedPL metrics;
         Metrics.premiumUnrealizedPL :=
           (Metrics.premiumUnrealizedPL metrics + premiumUnrealized)%Q;
         Metrics.stockUnrealizedPL := Metrics.stockUnrealizedPL metrics;
         Metrics.openPremiumCollected :=
           (Metrics.openPremiumCollected metrics + premiumCollected)%Q;
         Metrics.closedPremiumCollected := Metrics.closedPremiumCollected metrics;
         Metrics.totalCapitalAllocated := totalCapitalAllocated;
         Metrics.totalFees := totalFees |}
  | StatusAssigned =>
      {| Metrics.totalPositions := Metrics.totalPositions metrics;
         Metrics.openPositions := Metrics.openPositions metrics;
         Metrics.closedPositions := Metrics.closedPositions metrics;
         Metrics.assignedPositions := Metrics.assignedPositions metrics;
         Metrics.realizedPL :=
           add_if_truthy (Metrics.realizedPL metrics) (premiumRealizedPL position);
         Metrics.premiumRealizedPL :=
           add_if_truthy (Metrics.premiumRealizedPL metrics) (premiumRealizedPL position);
         Metrics.stockRealizedPL := Metrics.stockRealizedPL metrics;
         Metrics.unrealizedPL := Metrics.unrealizedPL metrics;
         Metrics.premiumUnrealizedPL := Metrics.premiumUnrealizedPL metrics;
         Metrics.stockUnrealizedPL :=
           add_opt (Metrics.stockUnrealizedPL metrics)
                   (stockUnrealized currentStockPrices position);
         Metrics.openPremiumCollected := Metrics.openPremiumCollected metrics;
         Metrics.closedPremiumCollected :=
           (Metrics.closedPremiumCollected metrics + premiumCollected)%Q;
         Metrics.totalCapitalAllocated := totalCapitalAllocated;
         Metrics.totalFees := totalFees |}
  end.

(** GET /api/metrics on the stored positions and the prices the oracle
    returned. *)
Definition portfolioMetrics (currentStockPrices : gmap string Q)
    (positions : list OptionPosition) : Metrics.t :=
  let metrics :=
    {| Metrics.totalPositions := length positions;
       Metrics.openPositions := countStatus StatusOpen positions;
       Metrics.closedPositions := countStatus StatusClosed positions;
       Metrics.assignedPositions := countStatus StatusAssigned positions;
       Metrics.realizedPL := 0;
       Metrics.premiumRealizedPL := 0;
       Metrics.stockRealizedPL := 0;
       Metrics.unrealizedPL := 0;
       Metrics.premiumUnrealizedPL := 0;
       Metrics.stockUnrealizedPL := 0;
       Metrics.openPremiumCollected := 0;
       Metrics.closedPremiumCollected := 0;
       Metrics.totalCapitalAllocated := 0;
       Metrics.totalFees := 0 |} in
  let metrics := fold_left (metricsStep currentStockPrices) positions metrics in
  let unrealizedPL :=
    (Metrics.premiumUnrealizedPL metrics + Metrics.stockUnrealizedPL metrics)%Q in
  {| Metrics.totalPositions := Metrics.totalPositions metrics;
     Metrics.openPositions := Metrics.openPositions metrics;
     Metrics.closedPositions := Metrics.closedPositions metrics;
     Metrics.assignedPositions := Metrics.assignedPositions metrics;
     Metrics.realizedPL := round2 (Metrics.realizedPL metrics);
     Metrics.premiumRealizedPL := round2 (Metrics.premiumRealizedPL metrics);
     Metrics.stockRealizedPL := round2 (Metrics.stockRealizedPL metrics);
     Metrics.unrealizedPL := round2 unrealizedPL;
     Metrics.premiumUnrealizedPL := round2 (Metrics.premiumUnrealizedPL metrics);
     Metrics.stockUnrealizedPL := round2 (Metrics.stockUnrealizedPL metrics);
     Metrics.openPremiumCollected := round2 (Metrics.openPremiumCollected metrics);
     Metrics.closedPremiumCollected := round2 (Metrics.closedPremiumCollected metrics);
     Metrics.totalCapitalAllocated := round2 (Metrics.totalCapitalAllocated metrics);
     Metrics.totalFees := round2 (Metrics.totalFees metrics) |}.

(** ** What the specification says, in its own words

    The statements below are written from the specification; the theorems
    compare them with the definitions above. *)

(** A missing optional amount counts as zero. *)
Definition orZero (x : option Q) : Q := default 0%Q x.

(** An optional result holds the amount [q]. *)
Definition holds (x : option Q) (q : Q) : Prop :=
  match x with
  | Some v => v == q
  | None => False
  end.

(** The status rule of the data model. *)
Definition specStatus (p : PositionFields) : OptionStatus :=
  match closeDate p with
  | Some _ => StatusClosed
  | None => if assigned p && ownsStock p then StatusAssigned else StatusOpen
  end.

(** Realized P/L of a closed position; [present] decides when a stock-sale
    field counts as present. *)
Definition closedPL (present : option Q → bool) (p : PositionFields) (m : Calc.t) : Prop :=
  let premiumPL :=
    (premium p * contracts p * 100 - orZero (premiumPaidToClose p) * contracts p * 100
     - (orZero (openFees p) + orZero (closeFees p)))%Q in
  let stockPL :=
    if present (stockSalePrice p) && present (stockCostBasis p)
       && present (stockQuantity p)
    then ((orZero (stockSalePrice p) - orZero (stockCostBasis p))
          * orZero (stockQuantity p))%Q
    else 0%Q in
  holds (Calc.premiumRealizedPL m) premiumPL
  ∧ holds (Calc.stockRealizedPL m) stockPL
  ∧ holds (Calc.realizedPL m) (premiumPL + stockPL).

(** A field is present when it is not null. *)
Definition isPresent (x : option Q) : bool :=
  match x with Some _ => true | None => false end.

(** The thresholds and percentages of the alert rules. *)
Definition targetRollPrice (p : PositionFields) (config : StrategyConfig) : Q :=
  (strike p * (1 + rollThreshold config / 100))%Q.

Definition approachPrice (p : PositionFields) (config : StrategyConfig) : Q :=
  (strike p * (1 + (rollThreshold config - (1 # 2)) / 100))%Q.

Definition distancePercent (p : PositionFields) (price : Q) : Q :=
  ((price - strike p) / strike p * 100)%Q.

Definition overshootPercent (p : PositionFields) (config : StrategyConfig)
    (price : Q) : Q :=
  ((price - targetRollPrice p config) / strike p * 100)%Q.

Definition targetClosePrice (p : PositionFields) (config : StrategyConfig) : Q :=
  (premium p * (100 - closeThreshold config) / 100)%Q.

Definition profitPercent (p : PositionFields) (optionPrice : Q) : Q :=
  ((premium p - optionPrice) / premium p * 100)%Q.

(** The alerts of one kind in a list. *)
Definition alertsOfType (ty : AlertType) (alerts : list Alert.t) : list Alert.t :=
  List.filter (λ a, bool_decide (Alert.type a = ty)) alerts.

(** Under the comparison function, [a] may stand before [b]. *)
Definition before {A} (compareFn : A → A → Q) (a b : A) : Prop :=
  (compareFn a b <= 0)%Q.

(** The fixed order of urgencies: high, then medium, then low. *)
Definition urgencyRank (u : AlertUrgency) : nat :=
  match u with
  | high => 0
  | medium => 1
  | low => 2
  end.

Definition precedes (u v : AlertUrgency) : Prop := urgencyRank u < urgencyRank v.

(** A price [z] in a price map is indistinguishable from no price:
    over the stock prices (keyed by ticker) and over the option prices
    (keyed by position id) the evaluation returns what it returns without
    the entry, with no roll or warning alert for the ticker and no close
    alert for the position; and the portfolio metrics are those without
    the entry, a looked-up [z] adding nothing to stockUnrealizedPL. *)
Definition priceIsAbsent (z : Q) : Prop :=
  (∀ (positions : list OptionPosition) (stockPrices : gmap string Q)
     (optionPrices : option (gmap string Q)) (config : StrategyConfig)
     (ticker : string),
     calculateAllAlerts positions (<[ticker := z]> stockPrices) optionPrices config
     = calculateAllAlerts positions (delete ticker stockPrices) optionPrices config
     ∧ ∀ a : Alert.t,
         a ∈ calculateAllAlerts positions (<[ticker := z]> stockPrices)
               optionPrices config →
         toUpperCase (Alert.ticker a) = ticker → Alert.type a = close)
  ∧ (∀ (positions : list OptionPosition) (stockPrices optionPrices : gmap string Q)
       (config : StrategyConfig) (positionId : string),
       calculateAllAlerts positions stockPrices
         (Some (<[positionId := z]> optionPrices)) config
       = calculateAllAlerts positions stockPrices
           (Some (delete positionId optionPrices)) config
       ∧ ∀ a : Alert.t,
           a ∈ calculateAllAlerts positions stockPrices
                 (Some (<[positionId := z]> optionPrices)) config →
           Alert.positionId a = positionId → Alert.type a ≠ close)
  ∧ (∀ (positions : list OptionPosition) (currentStockPrices : gmap string Q)
       (ticker : string),
       portfolioMetrics (<[ticker := z]> currentStockPrices) positions
       = portfolioMetrics (delete ticker currentStockPrices) positions)
  ∧ (∀ (currentStockPrices : gmap string Q) (metrics : Metrics.t)
       (position : OptionPosition),
       currentStockPrices !! toUpperCase (stockTicker position) = Some z →
       Metrics.stockUnrealizedPL (metricsStep currentStockPrices metrics position)
       = Metrics.stockUnrealizedPL metrics).

(** The first wording of the zero-price rule for stock prices: over a
    stock-price map in which a ticker maps to 0 the evaluation returns no
    alert of any kind for that ticker. *)
Definition zeroPriceSilencesTicker : Prop :=
  ∀ (positions : list OptionPosition) (stockPrices : gmap string Q)
    (optionPrices : option (gmap string Q)) (config : StrategyConfig)
    (ticker : string) (a : Alert.t),
    a ∈ calculateAllAlerts positions (<[ticker := 0%Q]> stockPrices)
          optionPrices config →
    toUpperCase (Alert.ticker a) ≠ ticker.

(** The positions of one cycle: those whose cycle name is [cycleName]. *)
Definition groupOf (cycleName : string) (positions : list OptionPosition)
    : list OptionPosition :=
  List.filter (λ p, String.eqb (cycleNameOf p) cycleName) positions.


(** The wheel-cycle totals as the specification words them: the rules of
    the portfolio aggregator applied to the cycle's group, without live
    prices. *)
Definition wheelFollowsPortfolioRules : Prop :=
  ∀ (positions : list OptionPosition) (s : Summary.t),
    s ∈ wheelCycles positions →
    Summary.realizedPL s
    == Metrics.realizedPL (portfolioMetrics ∅ (groupOf (Summary.name s) positions))
    ∧ Summary.unrealizedPL s
      == Metrics.unrealizedPL (portfolioMetrics ∅ (groupOf (Summary.name s) positions)).

(** The cycle object of a group: the positions of the group accrued in
    order onto a fresh object. *)
Definition cycleOfGroup (k : string) (positions : list OptionPosition) : Cycle.t :=
  fold_left accrue (groupOf k positions) (Cycle.new k).

(** The map after the positions [done]: one entry per cycle name met, each
    holding the cycle object of its group. *)
Definition grouped (m : list (string * Cycle.t)) (done : list OptionPosition) : Prop :=
  NoDup m.*1
  ∧ (∀ p, p ∈ done → cycleNameOf p ∈ m.*1)
  ∧ Forall (λ kc, kc.2 = cycleOfGroup kc.1 done) m.

(** ** Sample inputs *)

(** A record with the assignment flag set, no stock owned and no close
    date. *)
Definition assignedWithoutStock : PositionFields :=
  {| stockTicker := "XYZ"; type := put; contracts := 1; strike := 100;
     premium := 2; ownsStock := false; stockCostBasis := None;
     stockQuantity := None; stockSalePrice := None; assigned := true;
     openFees := Some 1%Q; closeDate := None; premiumPaidToClose := None;
     closeFees := None |}.


(** A closed put: premium 2.00, one contract, bought back at 0.50, fees of
    1 on each side, no stock fields. *)
Definition closedPut : PositionFields :=
  {| stockTicker := "XYZ"; type := put; contracts := 1; strike := 100;
     premium := 2; ownsStock := false; stockCostBasis := None;
     stockQuantity := None; stockSalePrice := None; assigned := false;
     openFees := Some 1%Q; closeDate := Some 1700000000000%Z;
     premiumPaidToClose := Some (1 # 2)%Q; closeFees := Some 1%Q |}.

(** A closed position whose stock went to zero: sale price 0, cost basis
    98, 100 shares. *)
Definition closedZeroSalePrice : PositionFields :=
  {| stockTicker := "XYZ"; type := put; contracts := 1; strike := 100;
     premium := 2; ownsStock := true; stockCostBasis := Some 98%Q;
     stockQuantity := Some 100%Q; stockSalePrice := Some 0%Q; assigned := true;
     openFees := Some 1%Q; closeDate := Some 1700000000000%Z;
     premiumPaidToClose := None; closeFees := None |}.

(** An assigned put with the stock held, and an open put. *)
Definition assignedPut : PositionFields :=
  {| stockTicker := "XYZ"; type := put; contracts := 1; strike := 100;
     premium := 2; ownsStock := true; stockCostBasis := Some 98%Q;
     stockQuantity := Some 100%Q; stockSalePrice := None; assigned := true;
     openFees := Some 1%Q; closeDate := None; premiumPaidToClose := None;
     closeFees := None |}.

Definition openPut : PositionFields :=
  {| stockTicker := "XYZ"; type := put; contracts := 1; strike := 100;
     premium := 2; ownsStock := false; stockCostBasis := None;
     stockQuantity := None; stockSalePrice := None; assigned := false;
     openFees := Some 1%Q; closeDate := None; premiumPaidToClose := None;
     closeFees := None |}.

(** The rows the create route writes for the open put and for the
    assigned put. *)
Definition openPutRow : OptionPosition := POST "pos-1" openPut.
Definition assignedPutRow : OptionPosition := POST "pos-2" assignedPut.
Definition closedPutRow : OptionPosition := POST "pos-3" closedPut.

(** Three open puts on different tickers and the prices that put them at
    a high, a low and a medium roll urgency. *)
Definition putOn (ticker : string) (strikePrice : Q) : PositionFields :=
  {| stockTicker := ticker; type := put; contracts := 1; strike := strikePrice;
     premium := 2; ownsStock := false; stockCostBasis := None;
     stockQuantity := None; stockSalePrice := None; assigned := false;
     openFees := Some 1%Q; closeDate := None; premiumPaidToClose := None;
     closeFees := None |}.

Definition threePuts : list OptionPosition :=
  [POST "a" (putOn "AAA" 100); POST "b" (putOn "BBB" 100); POST "c" (putOn "CCC" 100)].

Definition threePrices : gmap string Q :=
  <["AAA" := (1031 # 10)%Q]> (<["BBB" := 105%Q]> (<["CCC" := (1035 # 10)%Q]> ∅)).

(** A store with one dismissal 25 hours old and one an hour old, seen at
    time [sampleNow]. *)
Definition sampleNow : Z := 1700000000000.

Definition twoDismissals : UserStrategyConfig :=
  dismissAlert (sampleNow - 1 * 60 * 60 * 1000) "recent"
    (dismissAlert (sampleNow - 25 * 60 * 60 * 1000) "stale" DEFAULT_STRATEGY_CONFIG).

(** Two positions on one ticker, one open and one closed. *)
Definition openAndClosed : list OptionPosition := [openPutRow; closedPutRow].

(** The cycle of a single assigned put. *)
Definition assignedCycle : Summary.t :=
  summarize (determineStatus (cycleOfGroup "XYZ" [assignedPutRow])).

(** Partial updates: nothing supplied; the assignment flag set; the stock
    sale price set to 0. *)
Definition noUpdate : PositionUpdate :=
  {| u_stockTicker := None; u_type := None; u_contracts := None; u_strike := None;
     u_premium := None; u_ownsStock := None; u_stockCostBasis := None;
     u_stockQuantity := None; u_stockSalePrice := None; u_assigned := None;
     u_openFees := None; u_closeDate := DateAbsent; u_premiumPaidToClose := None;
     u_closeFees := None |}.

Definition markAssigned : PositionUpdate :=
  {| u_stockTicker := None; u_type := None; u_contracts := None; u_strike := None;
     u_premium := None; u_ownsStock := None; u_stockCostBasis := None;
     u_stockQuantity := None; u_stockSalePrice := None; u_assigned := Some true;
     u_openFees := None; u_closeDate := DateAbsent; u_premiumPaidToClose := None;
     u_closeFees := None |}.

Definition soldAtZero : PositionUpdate :=
  {| u_stockTicker := None; u_type := None; u_contracts := None; u_strike := None;
     u_premium := None; u_ownsStock := None; u_stockCostBasis := None;
     u_stockQuantity := None; u_stockSalePrice := Some 0%Q; u_assigned := None;
     u_openFees := None; u_closeDate := DateValue 1700000000000; u_premiumPaidToClose := None;
     u_closeFees := None |}.

(** ** Further statements about the code *)

(** The derived P/L fields of a row agree with its status: all null when
    open, all present otherwise with the total the sum of its parts. *)
Definition consistentPL (p : OptionPosition) : Prop :=
  match status p with
  | StatusOpen =>
      realizedPL p = None ∧ premiumRealizedPL p = None ∧ stockRealizedPL p = None
  | StatusClosed | StatusAssigned =>
      ∃ total premiumPart stockPart : Q,
        realizedPL p = Some total
        ∧ premiumRealizedPL p = Some premiumPart
        ∧ stockRealizedPL p = Some stockPart
        ∧ total == premiumPart + stockPart
  end.

(** Two snapshots that differ at most in the unrealized stock gain and in
    the unrealized total. *)
Definition sameApartFromStockGain (m1 m2 : Metrics.t) : Prop :=
  Metrics.totalPositions m1 = Metrics.totalPositions m2
  ∧ Metrics.openPositions m1 = Metrics.openPositions m2
  ∧ Metrics.closedPositions m1 = Metrics.closedPositions m2
  ∧ Metrics.assignedPositions m1 = Metrics.assignedPositions m2
  ∧ Metrics.realizedPL m1 = Metrics.realizedPL m2
  ∧ Metrics.premiumRealizedPL m1 = Metrics.premiumRealizedPL m2
  ∧ Metrics.stockRealizedPL m1 = Metrics.stockRealizedPL m2
  ∧ Metrics.premiumUnrealizedPL m1 = Metrics.premiumUnrealizedPL m2
  ∧ Metrics.openPremiumCollected m1 = Metrics.openPremiumCollected m2
  ∧ Metrics.closedPremiumCollected m1 = Metrics.closedPremiumCollected m2
  ∧ Metrics.totalCapitalAllocated m1 = Metrics.totalCapitalAllocated m2
  ∧ Metrics.totalFees m1 = Metrics.totalFees m2.

(** An amount [x] is within one cent of [y]. *)
Definition withinCent (x y : Q) : Prop :=
  (- (1 # 100) <= x - y)%Q ∧ (x - y <= 1 # 100)%Q.

(** ** The earlier portfolio metrics route (api/metrics, before the P/L
    components) *)

Module LegacyMetrics.
Record t := {
  totalPositions : nat;
  openPositions : nat;
  closedPositions : nat;
  assignedPositions : nat;
  realizedPL : Q;
  unrealizedPL : Q;
  openPremiumCollected : Q;
  closedPremiumCollected : Q;
  totalCapitalAllocated : Q;
  totalFees : Q
}.
End LegacyMetrics.

(** The body of the [forEach] of the earlier route. *)
Definition legacyMetricsStep (metrics : LegacyMetrics.t) (position : OptionPosition)
    : LegacyMetrics.t :=
  let premiumCollected := (premium position * contracts position * 100)%Q in
  let fees :=
    (or_default (openFees position) 0 + or_default (closeFees position) 0)%Q in
  let totalFees := (LegacyMetrics.totalFees metrics + fees)%Q in
  let totalCapitalAllocated :=
    add_opt (LegacyMetrics.totalCapitalAllocated metrics) (capitalAllocated position) in
  match status position with
  | StatusClosed =>
      let premiumPaidToClose :=
        (or_default (premiumPaidToClose position) 0 * contracts position * 100)%Q in
      let netPremium := (premiumCollected - premiumPaidToClose)%Q in
      {| LegacyMetrics.totalPositions := LegacyMetrics.totalPositions metrics;
         LegacyMetrics.openPositions := LegacyMetrics.openPositions metrics;
         LegacyMetrics.closedPositions := LegacyMetrics.closedPositions metrics;
         LegacyMetrics.assignedPositions := LegacyMetrics.assignedPositions metrics;
         LegacyMetrics.realizedPL :=
           add_if_truthy (LegacyMetrics.realizedPL metrics) (realizedPL position);
         LegacyMetrics.unrealizedPL := LegacyMetrics.unrealizedPL metrics;
         LegacyMetrics.openPremiumCollected :=
           LegacyMetrics.openPremiumCollected metrics;
         LegacyMetrics.closedPremiumCollected :=
           (LegacyMetrics.closedPremiumCollected metrics + netPremium)%Q;
         LegacyMetrics.totalCapitalAllocated := totalCapitalAllocated;
         LegacyMetrics.totalFees := totalFees |}
  | StatusOpen =>
      {| LegacyMetrics.totalPositions := LegacyMetrics.totalPositions metrics;
         LegacyMetrics.openPositions := LegacyMetrics.openPositions metrics;
         LegacyMetrics.closedPositions := LegacyMetrics.closedPositions metrics;
         LegacyMetrics.assignedPositions := LegacyMetrics.assignedPositions metrics;
         LegacyMetrics.realizedPL := LegacyMetrics.realizedPL metrics;
         LegacyMetrics.unrealizedPL :=
           (LegacyMetrics.unrealizedPL metrics
            + (premiumCollected - or_default (openFees position) 0))%Q;
         LegacyMetrics.openPremiumCollected :=
           (LegacyMetrics.openPremiumCollected metrics + premiumCollected)%Q;
         LegacyMetrics.closedPremiumCollected :=
           LegacyMetrics.closedPremiumCollected metrics;
         LegacyMetrics.totalCapitalAllocated := totalCapitalAllocated;
         LegacyMetrics.totalFees := totalFees |}
  | StatusAssigned =>
      {| LegacyMetrics.totalPositions := LegacyMetrics.totalPositions metrics;
         LegacyMetrics.openPositions := LegacyMetrics.openPositions metrics;
         LegacyMetrics.closedPositions := LegacyMetrics.closedPositions metrics;
         LegacyMetrics.assignedPositions := LegacyMetrics.assignedPositions metrics;
         LegacyMetrics.realizedPL := LegacyMetrics.realizedPL metrics;
         LegacyMetrics.unrealizedPL := LegacyMetrics.unrealizedPL metrics;
         LegacyMetrics.openPremiumCollected :=
           LegacyMetrics.openPremiumCollected metrics;
         LegacyMetrics.closedPremiumCollected :=
           (LegacyMetrics.closedPremiumCollected metrics + premiumCollected)%Q;
         LegacyMetrics.totalCapitalAllocated := totalCapitalAllocated;
         LegacyMetrics.totalFees := totalFees |}
  end.

(** The earlier GET /api/metrics on the stored positions. *)
Definition portfolioMetrics_legacy (positions : list OptionPosition)
    : LegacyMetrics.t :=
  let metrics :=
    {| LegacyMetrics.totalPositions := length positions;
       LegacyMetrics.openPositions := countStatus StatusOpen positions;
       LegacyMetrics.closedPositions := countStatus StatusClosed positions;
       LegacyMetrics.assignedPositions := countStatus StatusAssigned positions;
       LegacyMetrics.realizedPL := 0;
       LegacyMetrics.unrealizedPL := 0;
       LegacyMetrics.openPremiumCollected := 0;
       LegacyMetrics.closedPremiumCollected := 0;
       LegacyMetrics.totalCapitalAllocated := 0;
       LegacyMetrics.totalFees := 0 |} in
  let metrics := fold_left legacyMetricsStep positions metrics in
  {| LegacyMetrics.totalPositions := LegacyMetrics.totalPositions metrics;
     LegacyMetrics.openPositions := LegacyMetrics.openPositions metrics;
     LegacyMetrics.closedPositions := LegacyMetrics.closedPositions metrics;
     LegacyMetrics.assignedPositions := LegacyMetrics.assignedPositions metrics;
     LegacyMetrics.realizedPL := round2 (LegacyMetrics.realizedPL metrics);
     LegacyMetrics.unrealizedPL := round2 (LegacyMetrics.unrealizedPL metrics);
     LegacyMetrics.openPremiumCollected :=
       round2 (LegacyMetrics.openPremiumCollected metrics);
     LegacyMetrics.closedPremiumCollected :=
       round2 (LegacyMetrics.closedPremiumCollected metrics);
     LegacyMetrics.totalCapitalAllocated :=
       round2 (LegacyMetrics.totalCapitalAllocated metrics);
     LegacyMetrics.totalFees := round2 (LegacyMetrics.totalFees metrics) |}.

(** What the two generations of the metrics route have in common: the
    counts, the premium collected, the capital allocated and the fees; the
    earlier unrealized total is the current unrealized premium. *)
Definition legacyAgrees (old : LegacyMetrics.t) (new : Metrics.t) : Prop :=
  LegacyMetrics.totalPositions old = Metrics.totalPositions new
  ∧ LegacyMetrics.openPositions old = Metrics.openPositions new
  ∧ LegacyMetrics.closedPositions old = Metrics.closedPositions new
  ∧ LegacyMetrics.assignedPositions old = Metrics.assignedPositions new
  ∧ LegacyMetrics.unrealizedPL old = Metrics.premiumUnrealizedPL new
  ∧ LegacyMetrics.openPremiumCollected old = Metrics.openPremiumCollected new
  ∧ LegacyMetrics.closedPremiumCollected old = Metrics.closedPremiumCollected new
  ∧ LegacyMetrics.totalCapitalAllocated old = Metrics.totalCapitalAllocated new
  ∧ LegacyMetrics.totalFees old = Metrics.totalFees new.

(** ** The price service (lib/stock-price.ts)

    The module-level [priceCache] is threaded through as a map; the clock
    and the answer of the quote service are arguments.  An asynchronous
    call runs in two parts: what happens before the [await] (the look-up
    in the cache) and what happens after it (the answer is read and
    cached). *)

Module PriceCache.
Record t := { price : Q; timestamp : Z }.
End PriceCache.

Definition CACHE_DURATION : Z := 5 * 60 * 1000.

(** What [yahooFinance.quote] may do: throw, resolve to nothing, or resolve
    to a quote whose [regularMarketPrice] may be missing. *)
Inductive QuoteResult :=
| QuoteThrows
| QuoteMissing
| QuoteOf (regularMarketPrice : option Q).

(** Before the [await]: the cached price, when one is young enough. *)
Definition cachedPrice (now : Z) (ticker : string)
    (priceCache : gmap string PriceCache.t) : option Q :=
  let upperTicker := toUpperCase ticker in
  match priceCache !! upperTicker with
  | Some cached =>
      if (now - PriceCache.timestamp cached <? CACHE_DURATION)%Z
      then Some (PriceCache.price cached)
      else None
  | None => None
  end.

(** After the [await]: the answer is checked, cached and returned. *)
Definition fetchPrice (quote : string → QuoteResult) (now : Z) (ticker : string)
    (priceCache : gmap string PriceCache.t)
    : option Q * gmap string PriceCache.t :=
  let upperTicker := toUpperCase ticker in
  match quote upperTicker with
  | QuoteOf (Some price) =>
      if nonzero price then
        (Some price,
         <[upperTicker := {| PriceCache.price := price;
                             PriceCache.timestamp := now |}]> priceCache)
      else (None, priceCache)
  | QuoteOf None | QuoteMissing | QuoteThrows => (None, priceCache)
  end.

Definition getStockPrice (quote : string → QuoteResult) (now : Z) (ticker : string)
    (priceCache : gmap string PriceCache.t)
    : option Q * gmap string PriceCache.t :=
  match cachedPrice now ticker priceCache with
  | Some price => (Some price, priceCache)
  | None => fetchPrice quote now ticker priceCache
  end.

(** [getMultipleStockPrices]: the [map] starts every call, so every look-up
    in the cache sees the cache as it was; the fetches then complete one
    after the other and write to the shared cache.  All calls of one batch
    read the same clock, and the quote service answers a symbol the same
    way throughout the batch. *)
Definition settleAll (quote : string → QuoteResult) (now : Z)
    (pending : list (string * option Q)) (priceCache : gmap string PriceCache.t)
    : list (string * option Q) * gmap string PriceCache.t :=
  fold_left
    (λ '(results, priceCache) '(ticker, cached),
       match cached with
       | Some price => (results ++ [(ticker, Some price)], priceCache)
       | None =>
           let '(price, priceCache) := fetchPrice quote now ticker priceCache in
           (results ++ [(ticker, price)], priceCache)
       end)
    pending ([], priceCache).

Definition collectPrices (results : list (string * option Q)) : gmap string Q :=
  fold_left
    (λ prices '(ticker, price),
       match price with
       | Some price => <[toUpperCase ticker := price]> prices
       | None => prices
       end)
    results ∅.

Definition getMultipleStockPrices (quote : string → QuoteResult) (now : Z)
    (tickers : list string) (priceCache : gmap string PriceCache.t)
    : gmap string Q * gmap string PriceCache.t :=
  let pending :=
    map (λ ticker, (ticker, cachedPrice now ticker priceCache)) tickers in
  let '(results, priceCache) := settleAll quote now pending priceCache in
  (collectPrices results, priceCache).

Definition clearPriceCache (priceCache : gmap string PriceCache.t)
    : gmap string PriceCache.t := ∅.

(** [Set.prototype.add] on a set kept in insertion order. *)
Definition Set_add (s : list string) (x : string) : list string :=
  if includes s x then s else s ++ [x].

(** The tickers the metrics route asks prices for. *)
Definition stockTickers (positions : list OptionPosition) : list string :=
  fold_left
    (λ stockTickers (position : OptionPosition),
       if ownsStock position && negb (String.eqb (stockTicker position) "")
       then Set_add stockTickers (stockTicker position)
       else stockTickers)
    positions [].

(** GET /api/metrics with its call of the price service. *)
Definition GET_metrics (quote : string → QuoteResult) (now : Z)
    (positions : list OptionPosition) (priceCache : gmap string PriceCache.t)
    : Metrics.t * gmap string PriceCache.t :=
  let '(currentStockPrices, priceCache) :=
    getMultipleStockPrices quote now (stockTickers positions) priceCache in
  (portfolioMetrics currentStockPrices positions, priceCache).

(** No cached price is zero. *)
Definition noZeroCached (priceCache : gmap string PriceCache.t) : Prop :=
  ∀ k e, priceCache !! k = Some e → ¬ (PriceCache.price e == 0)%Q.

(** A quote service that is down, and one that knows one price. *)
Definition quoteDown : string → QuoteResult := λ _, QuoteThrows.

Definition quoteAAPL : string → QuoteResult :=
  λ symbol, if String.eqb symbol "AAPL" then QuoteOf (Some 150%Q) else QuoteMissing.

(** ** Stock holdings (api/stock-holdings)

    The route divides by a sum of share quantities; the statements about
    it are for stored quantities that are not negative, for which the sum
    is not zero. *)

Module Holding.
Record t := { quantity : Q; costBasis : Q; totalCost : Q }.
End Holding.

Module StockHolding.
Record t := {
  ticker : string;
  quantity : Q;
  costBasis : Q;
  totalCostBasis : Q;
  currentPrice : option Q;
  currentValue : option Q;
  unrealizedPL : option Q
}.
End StockHolding.

(** The insertion-ordered [Map<string, holding>]. *)
Fixpoint Holdings_get (m : list (string * Holding.t)) (k : string)
    : option Holding.t :=
  match m with
  | [] => None
  | (k', h) :: r => if String.eqb k' k then Some h else Holdings_get r k
  end.

(** Mutation of the object stored under [k], in place. *)
Fixpoint Holdings_update (f : Holding.t → Holding.t) (k : string)
    (m : list (string * Holding.t)) : list (string * Holding.t) :=
  match m with
  | [] => []
  | (k', h) :: r =>
      if String.eqb k' k then (k', f h) :: r else (k', h) :: Holdings_update f k r
  end.

(** The [where] clause of the query. *)
Definition holdsStockNow (position : OptionPosition) : bool :=
  ownsStock position
  && (bool_decide (status position = StatusOpen)
      || bool_decide (status position = StatusAssigned)).

(** The body of the [forEach] over the positions found. *)
Definition holdingsStep (holdingsMap : list (string * Holding.t))
    (position : OptionPosition) : list (string * Holding.t) :=
  match stockQuantity position, stockCostBasis position with
  | Some stockQuantity, Some stockCostBasis =>
      if nonzero stockQuantity && nonzero stockCostBasis then
        match Holdings_get holdingsMap (stockTicker position) with
        | Some _ =>
            Holdings_update
              (λ existing,
                 let newTotalCost :=
                   (Holding.totalCost existing + stockCostBasis * stockQuantity)%Q in
                 let newTotalQuantity :=
                   (Holding.quantity existing + stockQuantity)%Q in
                 {| Holding.quantity := newTotalQuantity;
                    Holding.costBasis := (newTotalCost / newTotalQuantity)%Q;
                    Holding.totalCost := newTotalCost |})
              (stockTicker position) holdingsMap
        | None =>
            holdingsMap
            ++ [(stockTicker position,
                 {| Holding.quantity := stockQuantity;
                    Holding.costBasis := stockCostBasis;
                    Holding.totalCost := (stockCostBasis * stockQuantity)%Q |})]
        end
      else holdingsMap
  | _, _ => holdingsMap
  end.

(** The callback of [holdingsMap.forEach]: one row of the answer. *)
Definition holdingRow (currentPrices : gmap string Q)
    (entry : string * Holding.t) : StockHolding.t :=
  let '(ticker, holding) := entry in
  let currentPrice := or_null (currentPrices !! toUpperCase ticker) in
  let currentValue :=
    match currentPrice with
    | Some currentPrice => Some (currentPrice * Holding.quantity holding)%Q
    | None => None
    end in
  let totalCostBasis := (Holding.costBasis holding * Holding.quantity holding)%Q in
  let unrealizedPL :=
    match currentValue with
    | Some currentValue =>
        if nonzero currentValue then Some (currentValue - totalCostBasis)%Q
        else None
    | None => None
    end in
  {| StockHolding.ticker := ticker;
     StockHolding.quantity := Holding.quantity holding;
     StockHolding.costBasis := Holding.costBasis holding;
     StockHolding.totalCostBasis := totalCostBasis;
     StockHolding.currentPrice := currentPrice;
     StockHolding.currentValue := currentValue;
     StockHolding.unrealizedPL := unrealizedPL |}.

(** GET /api/stock-holdings on the stored positions; [localeCompare] is the
    string comparison of the platform. *)
Definition stockHoldings (localeCompare : string → string → Q)
    (quote : string → QuoteResult) (now : Z)
    (positions : list OptionPosition) (priceCache : gmap string PriceCache.t)
    : list StockHolding.t * gmap string PriceCache.t :=
  let positions := List.filter holdsStockNow positions in
  let holdingsMap := fold_left holdingsStep positions [] in
  let tickers := holdingsMap.*1 in
  let '(currentPrices, priceCache) :=
    getMultipleStockPrices quote now tickers priceCache in
  let holdings := map (holdingRow currentPrices) holdingsMap in
  (Array_sort
     (λ a b, localeCompare (StockHolding.ticker a) (StockHolding.ticker b))
     holdings,
   priceCache).

(** The positions that make up the holding of one ticker: those the query
    finds whose share quantity and cost basis are present and not zero. *)
Definition heldLot (position : OptionPosition) : bool :=
  truthy (stockQuantity position) && truthy (stockCostBasis position).






Definition quoteXYZ : string → QuoteResult :=
  λ symbol, if String.eqb symbol "XYZ" then QuoteOf (Some 110%Q) else QuoteMissing.





(** ** The alerts of one position (hooks/use-strategy-alerts.ts) *)

Definition usePositionAlerts (position : OptionPosition)
    (allAlerts : list Alert.t) : list Alert.t :=
  List.filter
    (λ alert, String.eqb (Alert.positionId alert) (id position)) allAlerts.
(** * Properties *)

(** ** Optional numbers *)

Lemma nonzero_false (q : Q) : nonzero q = false ↔ q == 0.
Proof.
  unfold nonzero. rewrite negb_false_iff. apply Qeq_bool_iff.
Qed.

Lemma nonzero_true (q : Q) : nonzero q = true ↔ ¬ q == 0.
Proof.
  rewrite <- nonzero_false. destruct (nonzero q); split; congruence.
Qed.

Lemma or_default_zero (x : option Q) : or_default x 0 == orZero x.
Proof.
  destruct x as [q|]; simpl; [|reflexivity].
  destruct (nonzero q) eqn:E; [reflexivity|].
  apply nonzero_false in E. now rewrite E.
Qed.

Lemma truthy_present (x : option Q) : truthy x = true → isPresent x = true.
Proof. now destruct x. Qed.

Lemma or_null_truthy (x : option Q) : truthy (or_null x) = truthy x.
Proof. unfold or_null. destruct (truthy x) eqn:E; [exact E|reflexivity]. Qed.

Lemma or_null_present (x : option Q) : isPresent (or_null x) = truthy x.
Proof. unfold or_null. destruct x as [q|]; simpl; [|reflexivity]. now destruct (nonzero q). Qed.

Lemma or_default_or_null (x : option Q) (d : Q) : or_default (or_null x) d = or_default x d.
Proof.
  unfold or_null. destruct x as [q|]; simpl; [|reflexivity].
  destruct (nonzero q) eqn:E; simpl; now rewrite ?E.
Qed.

(** ** Position metrics *)

Lemma calculatePositionMetrics_patch_eq (p : PositionFields) :
  calculatePositionMetrics_patch p = calculatePositionMetrics p.
Proof. reflexivity. Qed.

(** The create route's helper follows the status rule of the data model. *)
Lemma calculatePositionMetrics_status (p : PositionFields) :
  Calc.status (calculatePositionMetrics p) = specStatus p.
Proof.
  unfold calculatePositionMetrics, specStatus.
  destruct (closeDate p) as [d|]; simpl; [reflexivity|].
  now destruct (assigned p && ownsStock p).
Qed.

(** Rows written by the create route and by the current update route
    carry the status the rule gives for their own fields. *)
Lemma POST_status (newId : string) (v : PositionFields) :
  status (POST newId v) = specStatus (POST newId v).
Proof.
  unfold POST. cbn [status fields]. rewrite calculatePositionMetrics_status.
  reflexivity.
Qed.

Lemma PATCH_status (existing : OptionPosition) (u : PositionUpdate) :
  status (PATCH existing u) = specStatus (PATCH existing u).
Proof.
  unfold PATCH. cbn [status fields].
  rewrite calculatePositionMetrics_patch_eq, calculatePositionMetrics_status.
  reflexivity.
Qed.

(** C1 (defect in the earlier update route).  The status rule is: closed
    iff a close date is present, assigned iff the assignment flag is set,
    no close date is present and stock is owned, open otherwise.  On a
    merged record with the flag set, no close date and no stock owned, the
    helper of the create route and of the current update route answer
    open, as the rule says, while the helper of the earlier update route
    answers assigned; so does that route on an open put when the update
    sets the flag. *)
Theorem C1_legacy_update_assigned_without_stock :
  specStatus assignedWithoutStock = StatusOpen
  ∧ Calc.status (calculatePositionMetrics assignedWithoutStock) = StatusOpen
  ∧ Calc.status (calculatePositionMetrics_patch assignedWithoutStock) = StatusOpen
  ∧ Calc.legacy_status (calculatePositionMetrics_legacy assignedWithoutStock)
    = StatusAssigned
  ∧ status (PATCH openPutRow markAssigned) = StatusOpen
  ∧ status (PATCH_legacy openPutRow markAssigned) = StatusAssigned
  ∧ specStatus (PATCH_legacy openPutRow markAssigned) = StatusOpen.
Proof. repeat split. Qed.

Lemma closed_has_closeDate (p : PositionFields) :
  Calc.status (calculatePositionMetrics p) = StatusClosed → is_Some (closeDate p).
Proof.
  rewrite calculatePositionMetrics_status. unfold specStatus.
  destruct (closeDate p); [eauto|]. now destruct (assigned p && ownsStock p).
Qed.

(** The stock component the helper computes for a closed position. *)
Lemma closed_stock_component (sale basis quantity : option Q) :
  match sale, basis, quantity with
  | Some s, Some b, Some q =>
      if nonzero s && nonzero b && nonzero q then ((s - b) * q)%Q else 0%Q
  | _, _, _ => 0%Q
  end
  == (if truthy sale && truthy basis && truthy quantity
      then (orZero sale - orZero basis) * orZero quantity else 0).
Proof.
  destruct sale as [s|], basis as [b|], quantity as [q|]; simpl;
    rewrite ?andb_false_r; reflexivity.
Qed.

(** C2 (amended).  For every position whose derived status is closed:
    premiumRealizedPL = premium x contracts x 100 - premiumPaidToClose x
    contracts x 100 - (openFees + closeFees), missing fields counting as 0;
    stockRealizedPL = (stockSalePrice - stockCostBasis) x stockQuantity
    when all three stock-sale fields are present and not zero, and 0
    otherwise; realizedPL = premiumRealizedPL + stockRealizedPL. *)
Theorem C2_closed_realized_PL (p : PositionFields) :
  Calc.status (calculatePositionMetrics p) = StatusClosed →
  closedPL truthy p (calculatePositionMetrics p).
Proof.
  intros Hclosed. destruct (closed_has_closeDate p Hclosed) as [d Hd].
  unfold closedPL, calculatePositionMetrics. rewrite Hd. cbn.
  pose proof (closed_stock_component (stockSalePrice p) (stockCostBasis p)
                (stockQuantity p)) as Hstock.
  assert (Hprem :
    premium p * contracts p * 100
    - or_default (premiumPaidToClose p) 0 * contracts p * 100
    - (or_default (openFees p) 0 + or_default (closeFees p) 0)
    == premium p * contracts p * 100
       - orZero (premiumPaidToClose p) * contracts p * 100
       - (orZero (openFees p) + orZero (closeFees p))).
  { now rewrite !or_default_zero. }
  split; [exact Hprem|]. split; [exact Hstock|].
  now rewrite Hprem, Hstock.
Qed.

Lemma C2_closed_realized_PL_witness :
  closedPL truthy closedPut (calculatePositionMetrics closedPut).
Proof. apply (C2_closed_realized_PL closedPut). reflexivity. Defined.

(** The closed put of the specification's third scenario: 200 - 50 - 2. *)
Example closedPut_PL :
  calculatePositionMetrics closedPut
  = {| Calc.status := StatusClosed;
       Calc.realizedPL := Some (2 * 1 * 100 - (1 # 2) * 1 * 100 - (1 + 1) + 0)%Q;
       Calc.premiumRealizedPL := Some (2 * 1 * 100 - (1 # 2) * 1 * 100 - (1 + 1))%Q;
       Calc.stockRealizedPL := Some 0%Q |}
  ∧ holds (Calc.realizedPL (calculatePositionMetrics closedPut)) 148.
Proof. split; reflexivity. Qed.

(** C2 as stated fails: with a sale price of 0 present next to a cost
    basis of 98 and 100 shares, the helper reports a stock component of 0,
    not (0 - 98) x 100; the current update route stores such a row when an
    assigned put is closed with the stock sold at 0. *)
Lemma C2_counterexample_zero_sale_price :
  Calc.status (calculatePositionMetrics closedZeroSalePrice) = StatusClosed
  ∧ ¬ closedPL isPresent closedZeroSalePrice
        (calculatePositionMetrics closedZeroSalePrice)
  ∧ status (PATCH assignedPutRow soldAtZero) = StatusClosed
  ∧ stockSalePrice (PATCH assignedPutRow soldAtZero) = Some 0%Q
  ∧ stockCostBasis (PATCH assignedPutRow soldAtZero) = Some 98%Q
  ∧ stockQuantity (PATCH assignedPutRow soldAtZero) = Some 100%Q
  ∧ stockRealizedPL (PATCH assignedPutRow soldAtZero) = Some 0%Q.
Proof.
  split; [reflexivity|]. split; [|repeat split].
  intros (_ & Hstock & _). cbv in Hstock. discriminate.
Qed.

(** On rows written by the create route the two readings agree: a stored
    optional amount is never zero (the contract count is positive), so
    present and truthy coincide. *)
Lemma POST_fields_normalised (newId : string) (v : PositionFields) :
  ¬ contracts v == 0 →
  isPresent (stockSalePrice (POST newId v)) = truthy (stockSalePrice (POST newId v))
  ∧ isPresent (stockCostBasis (POST newId v)) = truthy (stockCostBasis (POST newId v))
  ∧ isPresent (stockQuantity (POST newId v)) = truthy (stockQuantity (POST newId v)).
Proof.
  intros Hc. cbn. rewrite !or_null_present, !or_null_truthy. repeat split.
  unfold autoStockQuantity.
  destruct (ownsStock v && negb (truthy (stockQuantity v))) eqn:E.
  - cbn. symmetry. apply nonzero_true. intros H. apply Hc.
    apply (Qmult_inj_r _ _ 100); [discriminate|]. now rewrite H.
  - now rewrite or_null_present, or_null_truthy.
Qed.

(** C5.  For every position whose derived status is assigned,
    stockRealizedPL = 0 and realizedPL = premiumRealizedPL = premium x
    contracts x 100 - openFees, a missing openFees counting as 0; for every
    position whose derived status is open, realizedPL, premiumRealizedPL
    and stockRealizedPL are all null. *)
Theorem C5_assigned_and_open_PL (p : PositionFields) :
  (Calc.status (calculatePositionMetrics p) = StatusAssigned →
     holds (Calc.stockRealizedPL (calculatePositionMetrics p)) 0
     ∧ Calc.realizedPL (calculatePositionMetrics p)
       = Calc.premiumRealizedPL (calculatePositionMetrics p)
     ∧ holds (Calc.premiumRealizedPL (calculatePositionMetrics p))
         (premium p * contracts p * 100 - orZero (openFees p)))
  ∧ (Calc.status (calculatePositionMetrics p) = StatusOpen →
       Calc.realizedPL (calculatePositionMetrics p) = None
       ∧ Calc.premiumRealizedPL (calculatePositionMetrics p) = None
       ∧ Calc.stockRealizedPL (calculatePositionMetrics p) = None).
Proof.
  unfold calculatePositionMetrics.
  destruct (closeDate p) as [d|]; cbn.
  - split; discriminate.
  - destruct (assigned p && ownsStock p); cbn; split; try discriminate; intros _.
    + split; [reflexivity|]. split; [reflexivity|]. now rewrite or_default_zero.
    + repeat split.
Qed.

Lemma C5_assigned_and_open_PL_witness :
  (holds (Calc.stockRealizedPL (calculatePositionMetrics assignedPut)) 0
   ∧ Calc.realizedPL (calculatePositionMetrics assignedPut)
     = Calc.premiumRealizedPL (calculatePositionMetrics assignedPut)
   ∧ holds (Calc.premiumRealizedPL (calculatePositionMetrics assignedPut))
       (premium assignedPut * contracts assignedPut * 100
        - orZero (openFees assignedPut)))
  ∧ (Calc.realizedPL (calculatePositionMetrics openPut) = None
     ∧ Calc.premiumRealizedPL (calculatePositionMetrics openPut) = None
     ∧ Calc.stockRealizedPL (calculatePositionMetrics openPut) = None).
Proof.
  split.
  - apply (proj1 (C5_assigned_and_open_PL assignedPut)). reflexivity.
  - apply (proj2 (C5_assigned_and_open_PL openPut)). reflexivity.
Defined.

(** ** Roll and close evaluation, over doubles *)

Section OverDoubles.
Import PrimFloat Float64.




(** The first two scenarios of the specification: at 104 the roll target
    103 is passed by one percent of the strike; at 102.6 the price is in
    the warning band. *)
Example scenario_roll_high :
  (λ a, (Alert.type a, Alert.urgency a, Alert.targetPrice a))
    <$> calculateRollAlert (openPut 100 2) 104 STANDARD_STRATEGY
  = Some (roll, high, 103%float).
Proof. reflexivity. Qed.

Example scenario_warning_low :
  (λ a, (Alert.type a, Alert.urgency a))
    <$> calculateRollAlert (openPut 100 2) (1026 / 10) STANDARD_STRATEGY
  = Some (warning, low).
Proof. reflexivity. Qed.

(** Rounding at the boundary.  The quotients below are the doubles nearest
    to 30.9, 10.4, 0.35, 0.14, 0.6 and 0.27.  With a strike of 30 the
    target 30 x 1.03 is computed as 30.900000000000002, above the double
    nearest to 30.9, so that price is still in the warning band; with a
    strike of 10 and a price of 10.4 the overshoot is computed as
    0.9999999999999963 percent, below the step to high. *)
Example rounding_at_the_roll_target :
  (λ a, (Alert.type a, Alert.urgency a))
    <$> calculateRollAlert (openPut 30 2) (309 / 10) STANDARD_STRATEGY
  = Some (warning, low).
Proof. reflexivity. Qed.

Example rounding_at_the_urgency_step :
  (λ a, (Alert.type a, Alert.urgency a))
    <$> calculateRollAlert (openPut 10 2) (104 / 10) STANDARD_STRATEGY
  = Some (roll, medium).
Proof. reflexivity. Qed.







(** Rounding at the boundary of the close rule: with a threshold of 60 and
    a premium of 0.35 the target is computed as 0.13999999999999999, so an
    option price of 0.14 raises no alert; with a threshold of 50, a premium
    of 0.6 and a price of 0.27 the profit is computed as 54.99999999999999
    percent, below the step to high. *)
Example rounding_at_the_close_target :
  calculateCloseAlert (openPut 100 (35 / 100)) (Some (14 / 100)%float)
    (withThresholds 3 60)
  = None.
Proof. reflexivity. Qed.

Example rounding_at_the_close_urgency :
  (λ a, (Alert.type a, Alert.urgency a))
    <$> calculateCloseAlert (openPut 100 (6 / 10)) (Some (27 / 100)%float)
          (withThresholds 3 50)
  = Some (close, medium).
Proof. reflexivity. Qed.

End OverDoubles.

Lemma calculateRollAlert_type (position : OptionPosition) (price : Q)
    (config : StrategyConfig) (a : Alert.t) :
  calculateRollAlert position price config = Some a →
  Alert.type a = roll ∨ Alert.type a = warning.
Proof.
  unfold calculateRollAlert.
  repeat match goal with
         | |- context [if ?b then _ else _] => destruct b
         end; intros [= <-]; cbn; auto.
Qed.

Lemma calculateCloseAlert_type (position : OptionPosition) (price : option Q)
    (config : StrategyConfig) (a : Alert.t) :
  calculateCloseAlert position price config = Some a → Alert.type a = close.
Proof.
  unfold calculateCloseAlert. destruct price as [price|];
  repeat match goal with
         | |- context [if ?b then _ else _] => destruct b
         end; intros [= <-]; reflexivity.
Qed.

Lemma alertsOfType_app (ty : AlertType) (l1 l2 : list Alert.t) :
  alertsOfType ty (l1 ++ l2) = alertsOfType ty l1 ++ alertsOfType ty l2.
Proof. apply List.filter_app. Qed.

(** ** Sorting with a comparison function *)

(** In a strongly sorted list an earlier element is related to every
    later one. *)
Lemma StronglySorted_lookup_lt {A} (R : A → A → Prop) (l : list A)
    (i j : nat) (a b : A) :
  StronglySorted R l → l !! i = Some a → l !! j = Some b → i < j → R a b.
Proof.
  intros Hl. revert i j. induction Hl as [|x r Hr IH Hx]; intros i j Hi Hj Hlt.
  - discriminate.
  - destruct j as [|j]; [lia|]. destruct i as [|i].
    + injection Hi as <-. cbn in Hj. rewrite List.Forall_forall in Hx.
      apply Hx. apply list_elem_of_In. eapply list_elem_of_lookup_2, Hj.
    + cbn in Hi, Hj. apply (IH i j); [assumption..|lia].
Qed.

Lemma StronglySorted_List_filter {A} (R : A → A → Prop) (f : A → bool)
    (l : list A) :
  StronglySorted R l → StronglySorted R (List.filter f l).
Proof.
  induction 1 as [|x r Hr IH Hx]; cbn; [constructor|].
  destruct (f x); [|exact IH]. constructor; [exact IH|].
  rewrite List.Forall_forall in Hx |- *. intros y Hy.
  apply List.filter_In in Hy as [Hy _]. now apply Hx.
Qed.

Section Array_sort.
Context {A : Type} (compareFn : A → A → Q).

Hypothesis before_total : ∀ a b, ¬ before compareFn a b → before compareFn b a.
Hypothesis before_trans :
  ∀ a b c, before compareFn a b → before compareFn b c → before compareFn a c.

Lemma sort_insert_Permutation (x : A) (l : list A) :
  sort_insert compareFn x l ≡ₚ x :: l.
Proof.
  induction l as [|y r IH]; [reflexivity|]. cbn.
  destruct (Qle_bool (compareFn x y) 0); [reflexivity|].
  rewrite IH. apply perm_swap.
Qed.

Lemma Array_sort_Permutation (l : list A) : Array_sort compareFn l ≡ₚ l.
Proof.
  induction l as [|x r IH]; [reflexivity|]. cbn.
  rewrite sort_insert_Permutation. now rewrite IH.
Qed.

Lemma Array_sort_elem_of (x : A) (l : list A) :
  x ∈ Array_sort compareFn l ↔ x ∈ l.
Proof. now rewrite Array_sort_Permutation. Qed.

Lemma sort_insert_HdRel (a x : A) (l : list A) :
  before compareFn a x → HdRel (before compareFn) a l →
  HdRel (before compareFn) a (sort_insert compareFn x l).
Proof.
  intros Hax Hal. destruct l as [|y r]; cbn; [now constructor|].
  destruct (Qle_bool (compareFn x y) 0); constructor; [exact Hax|].
  now inversion Hal.
Qed.

Lemma sort_insert_Sorted (x : A) (l : list A) :
  Sorted (before compareFn) l →
  Sorted (before compareFn) (sort_insert compareFn x l).
Proof.
  induction 1 as [|y r Hr IH Hy]; cbn; [repeat constructor|].
  destruct (Qle_bool (compareFn x y) 0) eqn:E.
  - apply Qle_bool_iff in E. repeat constructor; assumption.
  - constructor; [exact IH|]. apply sort_insert_HdRel; [|exact Hy].
    apply before_total. unfold before. rewrite <- Qle_bool_iff. congruence.
Qed.

Lemma Array_sort_Sorted (l : list A) :
  Sorted (before compareFn) (Array_sort compareFn l).
Proof.
  induction l as [|x r IH]; cbn; [constructor|]. now apply sort_insert_Sorted.
Qed.

Lemma Array_sort_StronglySorted (l : list A) :
  StronglySorted (before compareFn) (Array_sort compareFn l).
Proof.
  apply Sorted_StronglySorted; [|apply Array_sort_Sorted].
  intros a b c. apply before_trans.
Qed.

(** In the sorted array an earlier element may stand before every later
    one. *)
Lemma Array_sort_lookup (l : list A) (i j : nat) (a b : A) :
  Array_sort compareFn l !! i = Some a →
  Array_sort compareFn l !! j = Some b →
  i < j → before compareFn a b.
Proof.
  apply StronglySorted_lookup_lt, Array_sort_StronglySorted.
Qed.
End Array_sort.

(** ** Ranking of alerts *)

Lemma compareAlerts_before (a b : Alert.t) :
  before compareAlerts a b
  ↔ precedes (Alert.urgency a) (Alert.urgency b)
    ∨ (Alert.urgency a = Alert.urgency b
       ∧ (Qabs (Alert.currentDistance b) <= Qabs (Alert.currentDistance a))%Q).
Proof.
  unfold before, compareAlerts, precedes.
  destruct (Alert.urgency a), (Alert.urgency b); cbn;
    match goal with
    | |- context [negb (Qeq_bool ?x ?y)] =>
        let v := eval vm_compute in (negb (Qeq_bool x y)) in
        change (negb (Qeq_bool x y)) with v
    end; cbv iota;
    (split;
     [ intros H; first [ left; lia | right; split; [reflexivity|lra] | lra ]
     | intros [H | [H1 H2]]; first [ lra | lia | discriminate ] ]).
Qed.

Lemma compareAlerts_total (a b : Alert.t) :
  ¬ before compareAlerts a b → before compareAlerts b a.
Proof.
  rewrite !compareAlerts_before. unfold precedes. intros H.
  destruct (lt_eq_lt_dec (urgencyRank (Alert.urgency a)) (urgencyRank (Alert.urgency b)))
    as [[Hlt | Heq] | Hgt].
  - exfalso. apply H. now left.
  - assert (Hu : Alert.urgency a = Alert.urgency b)
      by (destruct (Alert.urgency a), (Alert.urgency b); cbn in Heq; congruence).
    right. split; [now symmetry|].
    destruct (Qlt_le_dec (Qabs (Alert.currentDistance a)) (Qabs (Alert.currentDistance b)))
      as [Hd | Hd]; [now apply Qlt_le_weak|].
    exfalso. apply H. right. now split.
  - now left.
Qed.

Lemma compareAlerts_trans (a b c : Alert.t) :
  before compareAlerts a b → before compareAlerts b c → before compareAlerts a c.
Proof.
  rewrite !compareAlerts_before. unfold precedes.
  intros [H1 | [E1 D1]] [H2 | [E2 D2]].
  - left. lia.
  - left. now rewrite <- E2.
  - left. now rewrite E1.
  - right. split; [congruence|]. now apply (Qle_trans _ _ _ D2).
Qed.

(** The ranking read off a list sorted by the comparison function. *)
Lemma ranking_of_sorted (out : list Alert.t) (i j : nat) (a b : Alert.t) :
  StronglySorted (before compareAlerts) out →
  out !! i = Some a → out !! j = Some b →
  (precedes (Alert.urgency a) (Alert.urgency b) → i < j)
  ∧ (Alert.urgency a = Alert.urgency b →
     (Qabs (Alert.currentDistance b) < Qabs (Alert.currentDistance a))%Q →
     i < j).
Proof.
  intros Hsorted Ha Hb.
  assert (Hord : j < i → before compareAlerts b a)
    by (apply (StronglySorted_lookup_lt _ out j i b a Hsorted Hb Ha)).
  rewrite compareAlerts_before in Hord. unfold precedes in *.
  split.
  - intros Hprec. destruct (lt_eq_lt_dec i j) as [[Hlt | ->] | Hgt]; [exact Hlt| |].
    + rewrite Ha in Hb. injection Hb as ->. lia.
    + destruct (Hord Hgt) as [H | [H _]]; [lia|]. rewrite H in Hprec. lia.
  - intros Heq Hdist. destruct (lt_eq_lt_dec i j) as [[Hlt | ->] | Hgt]; [exact Hlt| |].
    + rewrite Ha in Hb. injection Hb as ->. exfalso. revert Hdist. apply Qlt_irrefl.
    + destruct (Hord Hgt) as [H | [_ H]]; [rewrite Heq in H; lia|].
      exfalso. revert Hdist. now apply Qle_not_lt.
Qed.

Lemma calculateAllAlerts_sorted (positions : list OptionPosition)
    (stockPrices : gmap string Q) (optionPrices : option (gmap string Q))
    (config : StrategyConfig) :
  StronglySorted (before compareAlerts)
    (calculateAllAlerts positions stockPrices optionPrices config).
Proof.
  apply Array_sort_StronglySorted;
    [apply compareAlerts_total|apply compareAlerts_trans].
Qed.

(** C8.  In the alert list an evaluation pass returns, for any two alerts
    a and b: if a's urgency strictly precedes b's in the order high,
    medium, low, then a appears before b; and among alerts of equal
    urgency, one with strictly larger absolute distance appears first. *)
Theorem C8_alert_ranking (positions : list OptionPosition)
    (stockPrices : gmap string Q) (optionPrices : option (gmap string Q))
    (config : StrategyConfig) (i j : nat) (a b : Alert.t) :
  calculateAllAlerts positions stockPrices optionPrices config !! i = Some a →
  calculateAllAlerts positions stockPrices optionPrices config !! j = Some b →
  (precedes (Alert.urgency a) (Alert.urgency b) → i < j)
  ∧ (Alert.urgency a = Alert.urgency b →
     (Qabs (Alert.currentDistance b) < Qabs (Alert.currentDistance a))%Q →
     i < j).
Proof.
  intros Ha Hb.
  apply (ranking_of_sorted
           (calculateAllAlerts positions stockPrices optionPrices config));
    [apply calculateAllAlerts_sorted|exact Ha|exact Hb].
Qed.

(** The same ranking holds in the hook's list of alerts not dismissed. *)
Lemma activeAlerts_ranking (strategyConfig : UserStrategyConfig)
    (positions : list OptionPosition) (stockPrices : gmap string Q)
    (i j : nat) (a b : Alert.t) :
  activeAlerts strategyConfig positions stockPrices !! i = Some a →
  activeAlerts strategyConfig positions stockPrices !! j = Some b →
  (precedes (Alert.urgency a) (Alert.urgency b) → i < j)
  ∧ (Alert.urgency a = Alert.urgency b →
     (Qabs (Alert.currentDistance b) < Qabs (Alert.currentDistance a))%Q →
     i < j).
Proof.
  apply ranking_of_sorted. unfold activeAlerts, allAlerts.
  apply StronglySorted_List_filter, calculateAllAlerts_sorted.
Qed.

Lemma C8_alert_ranking_witness :
  ∃ a b,
    calculateAllAlerts threePuts threePrices None STANDARD_STRATEGY !! 0 = Some a
    ∧ calculateAllAlerts threePuts threePrices None STANDARD_STRATEGY !! 1 = Some b
    ∧ (precedes (Alert.urgency a) (Alert.urgency b) → 0 < 1)
    ∧ (Alert.urgency a = Alert.urgency b →
       (Qabs (Alert.currentDistance b) < Qabs (Alert.currentDistance a))%Q →
       0 < 1).
Proof.
  eexists. eexists.
  split; [vm_compute; reflexivity|]. split; [vm_compute; reflexivity|].
  apply (C8_alert_ranking threePuts threePrices None STANDARD_STRATEGY 0 1);
    vm_compute; reflexivity.
Defined.

(** The three puts come out as high, medium, low. *)
Example threePuts_ranked :
  (λ a, (Alert.ticker a, Alert.urgency a))
    <$> calculateAllAlerts threePuts threePrices None STANDARD_STRATEGY
  = [("BBB", high); ("CCC", medium); ("AAA", low)].
Proof. vm_compute. reflexivity. Qed.

(** ** The dismissal store *)

Lemma includes_elem_of (l : list string) (x : string) :
  includes l x = true ↔ x ∈ l.
Proof.
  unfold includes. rewrite existsb_exists. split.
  - intros (y & Hy & Heq). apply String.eqb_eq in Heq as ->.
    now apply list_elem_of_In.
  - intros Hx. exists x. split; [now apply list_elem_of_In|apply String.eqb_refl].
Qed.

Lemma elem_of_List_filter {A} (f : A → bool) (l : list A) (x : A) :
  x ∈ List.filter f l ↔ x ∈ l ∧ f x = true.
Proof. rewrite !list_elem_of_In. apply List.filter_In. Qed.

(** A filter that keeps the length keeps every element. *)
Lemma List_filter_same_length {A} (f : A → bool) (l : list A) :
  length (List.filter f l) = length l → ∀ x, x ∈ l → f x = true.
Proof.
  induction l as [|y r IH]; intros Hlen x Hx; [inversion Hx|].
  cbn in Hlen. pose proof (List.filter_length_le f r) as Hle.
  destruct (f y) eqn:E; cbn in Hlen; [|lia].
  apply elem_of_cons in Hx as [-> | Hx]; [exact E|].
  apply IH; [lia|exact Hx].
Qed.

Lemma dismissAlert_in_sync (now : Z) (positionId : string) (c : UserStrategyConfig) :
  dismissalsInSync c → dismissalsInSync (dismissAlert now positionId c).
Proof.
  intros Hc k. cbn. rewrite elem_of_app, list_elem_of_singleton, lookup_insert_is_Some.
  rewrite (Hc k). destruct (decide (positionId = k)) as [-> | Hne]; intuition congruence.
Qed.

Lemma undismissAlert_in_sync (positionId : string) (c : UserStrategyConfig) :
  dismissalsInSync c → dismissalsInSync (undismissAlert positionId c).
Proof.
  intros Hc k. cbn. rewrite elem_of_List_filter, lookup_delete_is_Some, (Hc k).
  rewrite negb_true_iff, String.eqb_neq. intuition congruence.
Qed.

Lemma clearAllDismissed_in_sync (c : UserStrategyConfig) :
  dismissalsInSync (clearAllDismissed c).
Proof.
  intros k. cbn. rewrite lookup_empty. split.
  - intros H. inversion H.
  - intros [x Hx]. discriminate.
Qed.

(** What the sweep leaves in the id list and in the timestamp map. *)
Lemma expirySweep_contents (now : Z) (c : UserStrategyConfig) (k : string) :
  dismissalsInSync c →
  (k ∈ dismissedAlerts (expirySweep now c)
   ↔ k ∈ dismissedAlerts c ∧ stillDismissed now (dismissedAt c) k = true)
  ∧ (is_Some (dismissedAt (expirySweep now c) !! k)
     ↔ is_Some (dismissedAt c !! k) ∧ stillDismissed now (dismissedAt c) k = true).
Proof.
  intros Hc. unfold expirySweep.
  destruct (length (List.filter (stillDismissed now (dismissedAt c)) (dismissedAlerts c))
            =? length (dismissedAlerts c)) eqn:Hlen; cbn [negb].
  - apply Nat.eqb_eq in Hlen.
    pose proof (List_filter_same_length _ _ Hlen) as Hall.
    split.
    + split; [intros Hk; split; [exact Hk|now apply Hall]|now intros [Hk _]].
    + split; [intros Hk; split; [exact Hk|]|now intros [Hk _]].
      apply Hall. now apply Hc.
  - cbn [dismissedAlerts dismissedAt]. split.
    + apply elem_of_List_filter.
    + unfold is_Some. setoid_rewrite map_lookup_filter_Some. cbn [fst].
      setoid_rewrite includes_elem_of. setoid_rewrite elem_of_List_filter.
      split.
      * intros (x & Hx & _ & Hf). eauto.
      * intros ([x Hx] & Hf). exists x. repeat split; [exact Hx| |exact Hf].
        apply Hc. eauto.
Qed.

Lemma expirySweep_in_sync (now : Z) (c : UserStrategyConfig) :
  dismissalsInSync c → dismissalsInSync (expirySweep now c).
Proof.
  intros Hc k. destruct (expirySweep_contents now c k Hc) as [-> ->].
  now rewrite (Hc k).
Qed.

(** C9.  If every id in the dismissal list has a timestamp entry and
    every timestamp entry's id is in the list, the same holds after
    dismiss, undismiss, clear-all and the 24-hour expiry sweep; and the
    sweep keeps an id in the list exactly when it keeps its timestamp:
    both stay when the dismissal is younger than 24 hours, both go
    otherwise. *)
Theorem C9_dismissals_stay_in_sync (c : UserStrategyConfig) :
  dismissalsInSync c →
  (∀ op, dismissalsInSync (applyOp op c))
  ∧ (∀ now positionId,
       (positionId ∈ dismissedAlerts (expirySweep now c)
        ↔ positionId ∈ dismissedAlerts c
          ∧ stillDismissed now (dismissedAt c) positionId = true)
       ∧ (is_Some (dismissedAt (expirySweep now c) !! positionId)
          ↔ is_Some (dismissedAt c !! positionId)
            ∧ stillDismissed now (dismissedAt c) positionId = true)).
Proof.
  intros Hc. split.
  - intros [now positionId | positionId | | now]; cbn [applyOp].
    + now apply dismissAlert_in_sync.
    + now apply undismissAlert_in_sync.
    + apply clearAllDismissed_in_sync.
    + now apply expirySweep_in_sync.
  - intros now positionId. now apply expirySweep_contents.
Qed.

Lemma default_config_in_sync : dismissalsInSync DEFAULT_STRATEGY_CONFIG.
Proof. apply (clearAllDismissed_in_sync DEFAULT_STRATEGY_CONFIG). Qed.

Lemma C9_dismissals_stay_in_sync_witness :
  dismissalsInSync
    (applyOp (OpSweep sampleNow)
       (applyOp (OpDismiss (sampleNow - 25 * 60 * 60 * 1000) "stale")
          DEFAULT_STRATEGY_CONFIG)).
Proof.
  apply C9_dismissals_stay_in_sync.
  apply (C9_dismissals_stay_in_sync DEFAULT_STRATEGY_CONFIG).
  apply default_config_in_sync.
Defined.

(** A dismissal 25 hours old is gone from both after the sweep; one an
    hour old is still in both. *)
Example expirySweep_twoDismissals :
  dismissedAlerts (expirySweep sampleNow twoDismissals) = ["recent"]
  ∧ dismissedAt (expirySweep sampleNow twoDismissals) !! "stale" = None
  ∧ dismissedAt (expirySweep sampleNow twoDismissals) !! "recent"
    = Some (sampleNow - 1 * 60 * 60 * 1000)%Z.
Proof. vm_compute. repeat split. Qed.

(** ** A price of zero *)

Section ZeroPrice.
Variable z : Q.
Hypothesis z_zero : z == 0.

Lemma nonzero_z : nonzero z = false.
Proof. now apply nonzero_false. Qed.

Lemma or_null_zero_entry (k key : string) (m : gmap string Q) :
  or_null (<[k := z]> m !! key) = or_null (delete k m !! key).
Proof.
  destruct (decide (k = key)) as [-> | Hne].
  - rewrite lookup_insert_eq, lookup_delete_eq. unfold or_null. cbn.
    now rewrite nonzero_z.
  - now rewrite lookup_insert_ne, lookup_delete_ne.
Qed.

Lemma collectAlerts_zero_stock (positions : list OptionPosition)
    (stockPrices : gmap string Q) (optionPrices : option (gmap string Q))
    (config : StrategyConfig) (ticker : string) :
  collectAlerts positions (<[ticker := z]> stockPrices) optionPrices config
  = collectAlerts positions (delete ticker stockPrices) optionPrices config.
Proof.
  unfold collectAlerts. generalize (@nil Alert.t).
  induction positions as [|p r IH]; intros acc; [reflexivity|].
  cbn [fold_left]. rewrite or_null_zero_entry. apply IH.
Qed.

Lemma collectAlerts_zero_option (positions : list OptionPosition)
    (stockPrices optionPrices : gmap string Q)
    (config : StrategyConfig) (positionId : string) :
  collectAlerts positions stockPrices (Some (<[positionId := z]> optionPrices)) config
  = collectAlerts positions stockPrices (Some (delete positionId optionPrices)) config.
Proof.
  unfold collectAlerts. generalize (@nil Alert.t).
  induction positions as [|p r IH]; intros acc; [reflexivity|].
  cbn [fold_left mbind option_bind]. rewrite or_null_zero_entry. apply IH.
Qed.

Lemma stockUnrealized_zero (currentStockPrices : gmap string Q) (ticker : string)
    (position : OptionPosition) :
  stockUnrealized (<[ticker := z]> currentStockPrices) position
  = stockUnrealized (delete ticker currentStockPrices) position.
Proof.
  unfold stockUnrealized.
  destruct (stockCostBasis position) as [basis|]; [|reflexivity].
  destruct (stockQuantity position) as [quantity|]; [|reflexivity].
  destruct (ownsStock position && nonzero basis && nonzero quantity); [|reflexivity].
  destruct (decide (ticker = toUpperCase (stockTicker position))) as [-> | Hne].
  - rewrite lookup_insert_eq, lookup_delete_eq. now rewrite nonzero_z.
  - now rewrite lookup_insert_ne, lookup_delete_ne.
Qed.

Lemma metricsStep_zero (currentStockPrices : gmap string Q) (ticker : string)
    (metrics : Metrics.t) (position : OptionPosition) :
  metricsStep (<[ticker := z]> currentStockPrices) metrics position
  = metricsStep (delete ticker currentStockPrices) metrics position.
Proof. unfold metricsStep. now rewrite stockUnrealized_zero. Qed.

Lemma stockUnrealized_looked_up_zero (currentStockPrices : gmap string Q)
    (position : OptionPosition) :
  currentStockPrices !! toUpperCase (stockTicker position) = Some z →
  stockUnrealized currentStockPrices position = None.
Proof.
  intros Hz. unfold stockUnrealized. rewrite Hz, nonzero_z.
  destruct (stockCostBasis position), (stockQuantity position); try reflexivity.
  now destruct (ownsStock position && _ && _).
Qed.
End ZeroPrice.

(** Where the alerts of an evaluation pass come from. *)
Lemma collectAlerts_elem_of (positions : list OptionPosition)
    (stockPrices : gmap string Q) (optionPrices : option (gmap string Q))
    (config : StrategyConfig) (a : Alert.t) :
  a ∈ collectAlerts positions stockPrices optionPrices config →
  ∃ p, p ∈ positions
       ∧ a ∈ calculatePositionAlerts p
               (or_null (stockPrices !! toUpperCase (stockTicker p)))
               (or_null (optionPrices ≫= (λ m, m !! id p))) config.
Proof.
  unfold collectAlerts.
  assert (H : ∀ acc,
    a ∈ fold_left
          (λ alerts position,
             if negb (bool_decide (status position = StatusOpen)) then alerts else
             alerts ++ calculatePositionAlerts position
                         (or_null (stockPrices !! toUpperCase (stockTicker position)))
                         (or_null (optionPrices ≫= (λ m, m !! id position))) config)
          positions acc →
    a ∈ acc ∨ ∃ p, p ∈ positions
       ∧ a ∈ calculatePositionAlerts p
               (or_null (stockPrices !! toUpperCase (stockTicker p)))
               (or_null (optionPrices ≫= (λ m, m !! id p))) config).
  { induction positions as [|p r IH]; intros acc Ha; [now left|].
    cbn [fold_left] in Ha. apply IH in Ha as [Ha | (q & Hq & Ha)].
    - destruct (negb (bool_decide (status p = StatusOpen))); [now left|].
      apply elem_of_app in Ha as [Ha | Ha]; [now left|].
      right. exists p. split; [apply list_elem_of_here|exact Ha].
    - right. exists q. split; [now apply list_elem_of_further|exact Ha]. }
  intros Ha. apply H in Ha as [Ha | Ha]; [inversion Ha|exact Ha].
Qed.

(** An alert of one position names that position, and is a roll or a
    warning only on a truthy stock price, a close only on a truthy option
    price. *)
Lemma calculatePositionAlerts_elem_of (p : OptionPosition)
    (stockPrice optionPrice : option Q) (config : StrategyConfig) (a : Alert.t) :
  a ∈ calculatePositionAlerts p stockPrice optionPrice config →
  Alert.ticker a = stockTicker p ∧ Alert.positionId a = id p
  ∧ ((Alert.type a ≠ close ∧ truthy stockPrice = true)
     ∨ (Alert.type a = close ∧ truthy optionPrice = true)).
Proof.
  unfold calculatePositionAlerts. intros Ha.
  assert (Hroll : ∀ price r, calculateRollAlert p price config = Some r →
            Alert.ticker r = stockTicker p ∧ Alert.positionId r = id p
            ∧ Alert.type r ≠ close).
  { intros price r Hr. pose proof (calculateRollAlert_type _ _ _ _ Hr) as Hty.
    unfold calculateRollAlert in Hr.
    repeat match type of Hr with
           | context [if ?b then _ else _] => destruct b
           end; try discriminate; injection Hr as <-; cbn;
      repeat split; discriminate. }
  assert (Hclose : ∀ price r, calculateCloseAlert p price config = Some r →
            Alert.ticker r = stockTicker p ∧ Alert.positionId r = id p
            ∧ Alert.type r = close).
  { intros price r Hr. unfold calculateCloseAlert in Hr.
    destruct price as [price|];
    repeat match type of Hr with
           | context [if ?b then _ else _] => destruct b
           end; try discriminate; injection Hr as <-; cbn; repeat split. }
  assert (Hfirst : ∀ x,
    x ∈ match stockPrice with
        | Some price =>
            if nonzero price
            then push_alert (calculateRollAlert p price config) []
            else []
        | None => []
        end →
    Alert.ticker x = stockTicker p ∧ Alert.positionId x = id p
    ∧ Alert.type x ≠ close ∧ truthy stockPrice = true).
  { intros x Hx. destruct stockPrice as [price|]; [|inversion Hx]. cbn.
    destruct (nonzero price); [|inversion Hx].
    destruct (calculateRollAlert p price config) as [r|] eqn:E; [|inversion Hx].
    cbn in Hx. apply list_elem_of_singleton in Hx as ->.
    destruct (Hroll _ _ E) as (? & ? & ?). repeat split; assumption. }
  destruct (truthy optionPrice) eqn:Hop.
  - destruct (calculateCloseAlert p optionPrice config) as [c|] eqn:E; cbn in Ha.
    + apply elem_of_app in Ha as [Ha | Ha].
      * destruct (Hfirst _ Ha) as (? & ? & ? & ?). repeat split; auto.
      * apply list_elem_of_singleton in Ha as ->.
        destruct (Hclose _ _ E) as (? & ? & ?). repeat split; auto.
    + destruct (Hfirst _ Ha) as (? & ? & ? & ?). repeat split; auto.
  - destruct (Hfirst _ Ha) as (? & ? & ? & ?). repeat split; auto.
Qed.

(** C10 (amended).  A current price equal to exactly 0 is
    indistinguishable from an absent price: evaluating alerts over a price
    map in which a key maps to 0 yields the alerts of the map without that
    entry.  For a ticker whose stock price is 0 that means no roll and no
    warning alert, the only alerts that read the stock price; a close
    alert for it is still produced when the option price calls for one.
    For a position whose option price is 0 it means no close alert.  In
    the portfolio metrics a looked-up current price of 0 contributes
    nothing to stockUnrealizedPL. *)
Theorem C10_zero_price_is_absent (z : Q) : z == 0 → priceIsAbsent z.
Proof.
  intros Hz. unfold priceIsAbsent. split; [|split; [|split]].
  - intros positions stockPrices optionPrices config ticker.
    unfold calculateAllAlerts. split.
    + now rewrite collectAlerts_zero_stock.
    + intros a Ha Hticker. apply Array_sort_elem_of in Ha.
      apply collectAlerts_elem_of in Ha as (p & _ & Ha).
      apply calculatePositionAlerts_elem_of in Ha as (Ht & _ & [[_ Hsp] | [Hc _]]);
        [|exact Hc].
      rewrite Ht in Hticker. rewrite <- Hticker, lookup_insert_eq in Hsp.
      cbn in Hsp. rewrite or_null_truthy in Hsp. cbn in Hsp.
      rewrite (nonzero_z z Hz) in Hsp. discriminate.
  - intros positions stockPrices optionPrices config positionId.
    unfold calculateAllAlerts. split.
    + now rewrite collectAlerts_zero_option.
    + intros a Ha Hid. apply Array_sort_elem_of in Ha.
      apply collectAlerts_elem_of in Ha as (p & _ & Ha).
      apply calculatePositionAlerts_elem_of in Ha as (_ & Hi & [[Hn _] | [_ Hop]]);
        [exact Hn|].
      rewrite Hi in Hid. cbn in Hop. rewrite <- Hid, lookup_insert_eq in Hop.
      rewrite or_null_truthy in Hop. cbn in Hop.
      rewrite (nonzero_z z Hz) in Hop. discriminate.
  - intros positions currentStockPrices ticker. unfold portfolioMetrics.
    assert (Hfold : ∀ init,
      fold_left (metricsStep (<[ticker := z]> currentStockPrices)) positions init
      = fold_left (metricsStep (delete ticker currentStockPrices)) positions init).
    { induction positions as [|p r IH]; intros init; [reflexivity|].
      cbn [fold_left]. rewrite (metricsStep_zero z Hz). apply IH. }
    now rewrite Hfold.
  - intros currentStockPrices metrics position Hlook.
    unfold metricsStep.
    rewrite (stockUnrealized_looked_up_zero z Hz _ _ Hlook).
    now destruct (status position).
Qed.

Lemma C10_zero_price_is_absent_witness : priceIsAbsent 0.
Proof. apply (C10_zero_price_is_absent 0). reflexivity. Defined.

(** C10 as stated fails: the close evaluation does not read the stock
    price.  For an open put on BBB with premium 2.00, a stock price of 0
    and an option price of 0.20, the pass returns a close alert for BBB. *)
Lemma C10_counterexample_close_alert_at_zero_stock_price :
  (λ a, (Alert.ticker a, Alert.positionId a, Alert.type a, Alert.urgency a))
    <$> calculateAllAlerts [POST "k" (putOn "BBB" 100)] (<["BBB" := 0%Q]> ∅)
          (Some (<["k" := (1 # 5)%Q]> ∅)) STANDARD_STRATEGY
  = [("BBB", "k", close, high)]
  ∧ ¬ zeroPriceSilencesTicker.
Proof.
  split; [reflexivity|].
  intros H.
  assert (Hin : ∃ a, a ∈ calculateAllAlerts [POST "k" (putOn "BBB" 100)]
                         (<["BBB" := 0%Q]> ∅) (Some (<["k" := (1 # 5)%Q]> ∅))
                         STANDARD_STRATEGY
                     ∧ toUpperCase (Alert.ticker a) = "BBB").
  { eexists. split; [vm_compute; apply list_elem_of_here|reflexivity]. }
  destruct Hin as (a & Ha & Ht). exact (H _ _ _ _ _ _ Ha Ht).
Qed.

(** ** Wheel cycles *)

Lemma Map_has_keys (m : list (string * Cycle.t)) (k : string) :
  Map_has m k = true ↔ k ∈ m.*1.
Proof.
  induction m as [|[k' c] r IH]; cbn.
  - split; [discriminate|intros H; inversion H].
  - rewrite elem_of_cons. destruct (String.eqb k' k) eqn:E.
    + apply String.eqb_eq in E. split; auto.
    + apply String.eqb_neq in E. rewrite IH. split; [auto|].
      intros [-> | H]; [contradiction|exact H].
Qed.

Lemma Map_update_keys (f : Cycle.t → Cycle.t) (k : string)
    (m : list (string * Cycle.t)) :
  (Map_update f k m).*1 = m.*1.
Proof.
  induction m as [|[k' c] r IH]; [reflexivity|]. cbn.
  destruct (String.eqb k' k); cbn; [reflexivity|]. now rewrite IH.
Qed.

(** Updating the object under [k] changes that entry and no other. *)
Lemma Map_update_Forall (P Q : string * Cycle.t → Prop) (f : Cycle.t → Cycle.t)
    (k : string) (m : list (string * Cycle.t)) :
  NoDup m.*1 → Forall P m →
  (∀ c, P (k, c) → Q (k, f c)) →
  (∀ k' c, k' ≠ k → P (k', c) → Q (k', c)) →
  Forall Q (Map_update f k m).
Proof.
  intros Hnd HP Hk Hother. induction m as [|[k' c] r IH]; [constructor|].
  cbn in Hnd. apply NoDup_cons in Hnd as [Hfresh Hnd].
  apply Forall_cons in HP as [Hhead HP]. cbn.
  destruct (String.eqb k' k) eqn:E.
  - apply String.eqb_eq in E as ->. constructor; [now apply Hk|].
    rewrite Forall_forall in HP |- *. intros [k'' c''] Hin.
    apply Hother; [|now apply HP]. intros ->. apply Hfresh.
    apply list_elem_of_fmap. now exists (k, c'').
  - apply String.eqb_neq in E. constructor; [now apply Hother|now apply IH].
Qed.

Lemma groupOf_snoc (k : string) (done : list OptionPosition) (p : OptionPosition) :
  groupOf k (done ++ [p])
  = groupOf k done ++ (if String.eqb (cycleNameOf p) k then [p] else []).
Proof. unfold groupOf. now rewrite List.filter_app. Qed.

Lemma groupOf_none (k : string) (done : list OptionPosition) :
  (∀ q, q ∈ done → cycleNameOf q ≠ k) → groupOf k done = [].
Proof.
  induction done as [|q r IH]; intros Hnone; [reflexivity|]. cbn.
  destruct (String.eqb (cycleNameOf q) k) eqn:E.
  - apply String.eqb_eq in E. exfalso. apply (Hnone q); [apply list_elem_of_here|exact E].
  - apply IH. intros q' Hq'. apply Hnone. now apply list_elem_of_further.
Qed.

Lemma groupStep_grouped (m : list (string * Cycle.t)) (done : list OptionPosition)
    (p : OptionPosition) :
  grouped m done → grouped (groupStep m p) (done ++ [p]).
Proof.
  intros (Hnd & Hcover & Hval). unfold groupStep.
  set (k := cycleNameOf p).
  set (m1 := if negb (Map_has m k) then m ++ [(k, Cycle.new k)] else m).
  assert (H1 : NoDup m1.*1 ∧ k ∈ m1.*1 ∧ (∀ q, q ∈ done → cycleNameOf q ∈ m1.*1)
               ∧ Forall (λ kc, kc.2 = cycleOfGroup kc.1 done) m1).
  { subst m1. destruct (Map_has m k) eqn:Hhas; cbn [negb].
    - repeat split; try assumption. now apply Map_has_keys.
    - assert (Hfresh : k ∉ m.*1).
      { rewrite <- Map_has_keys. congruence. }
      rewrite fmap_app. cbn. repeat split.
      + apply NoDup_app. repeat split; [exact Hnd| |apply NoDup_singleton].
        intros x Hx Hx'. apply list_elem_of_singleton in Hx' as ->. contradiction.
      + apply elem_of_app. right. apply list_elem_of_here.
      + intros q Hq. apply elem_of_app. left. now apply Hcover.
      + apply Forall_app. split; [exact Hval|]. constructor; [|constructor].
        cbn. unfold cycleOfGroup. rewrite groupOf_none; [reflexivity|].
        intros q Hq E. apply Hfresh. rewrite <- E. now apply Hcover. }
  destruct H1 as (Hnd1 & Hk1 & Hcover1 & Hval1).
  repeat split.
  - now rewrite Map_update_keys.
  - intros q Hq. rewrite Map_update_keys.
    apply elem_of_app in Hq as [Hq | Hq]; [now apply Hcover1|].
    apply list_elem_of_singleton in Hq as ->. exact Hk1.
  - apply (Map_update_Forall (λ kc, kc.2 = cycleOfGroup kc.1 done)); try assumption.
    + intros c Hc. cbn in *. subst c. unfold cycleOfGroup.
      rewrite groupOf_snoc. fold k. rewrite String.eqb_refl.
      now rewrite fold_left_app.
    + intros k' c Hne Hc. cbn in *. subst c. unfold cycleOfGroup.
      rewrite groupOf_snoc. fold k.
      assert (E : String.eqb k k' = false) by (apply String.eqb_neq; congruence).
      rewrite E. now rewrite app_nil_r.
Qed.

Lemma wheelCyclesMap_grouped (positions : list OptionPosition) :
  grouped (fold_left groupStep positions []) positions.
Proof.
  assert (H : ∀ m done, grouped m done →
                grouped (fold_left groupStep positions m) (done ++ positions)).
  { induction positions as [|p r IH]; intros m done Hm; cbn.
    - now rewrite app_nil_r.
    - replace (done ++ p :: r) with ((done ++ [p]) ++ r)
        by (now rewrite <- app_assoc).
      apply IH. now apply groupStep_grouped. }
  apply (H [] []). repeat split; [constructor|intros p Hp; inversion Hp|constructor].
Qed.

(** Every cycle the route builds is the cycle object of its own group,
    after the status pass. *)
Lemma cycleAccumulators_elem_of (positions : list OptionPosition) (c : Cycle.t) :
  c ∈ cycleAccumulators positions →
  ∃ k, c = determineStatus (cycleOfGroup k positions).
Proof.
  unfold cycleAccumulators, Map_values. intros Hc.
  apply list_elem_of_fmap in Hc as (c0 & -> & Hc0).
  apply list_elem_of_fmap in Hc0 as ([k c1] & -> & Hkc).
  destruct (wheelCyclesMap_grouped positions) as (_ & _ & Hval).
  rewrite Forall_forall in Hval. specialize (Hval _ Hkc). cbn in Hval.
  exists k. now rewrite Hval.
Qed.

Lemma wheelCycles_elem_of (positions : list OptionPosition) (s : Summary.t) :
  s ∈ wheelCycles positions →
  ∃ k, s = summarize (determineStatus (cycleOfGroup k positions)).
Proof.
  unfold wheelCycles. intros Hs. apply Array_sort_elem_of in Hs.
  apply list_elem_of_fmap in Hs as (c & -> & Hc).
  apply cycleAccumulators_elem_of in Hc as (k & ->). now exists k.
Qed.

Lemma accrue_active (c : Cycle.t) (p : OptionPosition) :
  Cycle.status c = active → Cycle.status (accrue c p) = active.
Proof. intros Hc. unfold accrue. now destruct (status p). Qed.

Lemma fold_accrue_active (group : list OptionPosition) (c : Cycle.t) :
  Cycle.status c = active → Cycle.status (fold_left accrue group c) = active.
Proof.
  revert c. induction group as [|p r IH]; intros c Hc; [exact Hc|].
  cbn. now apply IH, accrue_active.
Qed.

Lemma fold_accrue_name (group : list OptionPosition) (c : Cycle.t) :
  Cycle.name (fold_left accrue group c) = Cycle.name c.
Proof.
  revert c. induction group as [|p r IH]; intros c; [reflexivity|].
  cbn. rewrite IH. unfold accrue. now destruct (status p).
Qed.

(** C6.  For every wheel cycle the aggregation returns, the status is
    completed iff the open-position count is 0 and the closed-position
    count is positive, and active otherwise. *)
Theorem C6_cycle_status (positions : list OptionPosition) (s : Summary.t) :
  s ∈ wheelCycles positions →
  (Summary.status s = completed
   ↔ Summary.openPositions s = 0 ∧ 0 < Summary.closedPositions s)
  ∧ (Summary.status s = active
     ↔ ¬ (Summary.openPositions s = 0 ∧ 0 < Summary.closedPositions s)).
Proof.
  intros Hs. apply wheelCycles_elem_of in Hs as (k & ->).
  pose proof (fold_accrue_active (groupOf k positions) (Cycle.new k) eq_refl)
    as Hactive.
  fold (cycleOfGroup k positions) in Hactive.
  unfold determineStatus.
  destruct ((Cycle.openPositions (cycleOfGroup k positions) =? 0)
            && (0 <? Cycle.closedPositions (cycleOfGroup k positions))) eqn:E; cbn.
  - apply andb_true_iff in E as [E1 E2].
    apply Nat.eqb_eq in E1. apply Nat.ltb_lt in E2.
    split; split; try done. intros H. now destruct H.
  - rewrite Hactive.
    assert (Hn : ¬ (Cycle.openPositions (cycleOfGroup k positions) = 0
                    ∧ 0 < Cycle.closedPositions (cycleOfGroup k positions))).
    { intros [H1 H2]. apply Nat.eqb_eq in H1. apply Nat.ltb_lt in H2.
      rewrite H1, H2 in E. discriminate. }
    split; split; try done.
Qed.

Lemma C6_cycle_status_witness :
  ∃ s, s ∈ wheelCycles openAndClosed
       ∧ Summary.openPositions s = 1 ∧ Summary.closedPositions s = 1
       ∧ (Summary.status s = completed
          ↔ Summary.openPositions s = 0 ∧ 0 < Summary.closedPositions s)
       ∧ (Summary.status s = active
          ↔ ¬ (Summary.openPositions s = 0 ∧ 0 < Summary.closedPositions s)).
Proof.
  eexists. split; [vm_compute; apply list_elem_of_here|].
  split; [reflexivity|]. split; [reflexivity|].
  apply (C6_cycle_status openAndClosed). vm_compute. apply list_elem_of_here.
Defined.

(** The fifth scenario of the specification: one open and one closed
    position on a ticker make one active cycle. *)
Example openAndClosed_cycle :
  (λ s, (Summary.name s, Summary.openPositions s, Summary.closedPositions s,
         Summary.status s)) <$> wheelCycles openAndClosed
  = [("XYZ", 1, 1, active)].
Proof. vm_compute. reflexivity. Qed.

Lemma round2_comp (x y : Q) : x == y → round2 x = round2 y.
Proof.
  intros H. unfold round2, Math_round.
  assert (E : Qfloor (x * 100 + (1 # 2)) = Qfloor (y * 100 + (1 # 2)))
    by (apply Qfloor_comp; now rewrite H).
  now rewrite E.
Qed.

Lemma determineStatus_totals (c : Cycle.t) :
  Cycle.name (determineStatus c) = Cycle.name c
  ∧ Cycle.realizedPL (determineStatus c) = Cycle.realizedPL c
  ∧ Cycle.unrealizedPL (determineStatus c) = Cycle.unrealizedPL c.
Proof. unfold determineStatus. now destruct (_ && _). Qed.

(** The portfolio aggregator credits the premium of an assigned position
    to the realized totals and leaves the unrealized premium alone. *)
Lemma metricsStep_assigned (currentStockPrices : gmap string Q)
    (metrics : Metrics.t) (p : OptionPosition) :
  status p = StatusAssigned →
  Metrics.realizedPL (metricsStep currentStockPrices metrics p)
  = add_if_truthy (Metrics.realizedPL metrics) (premiumRealizedPL p)
  ∧ Metrics.premiumUnrealizedPL (metricsStep currentStockPrices metrics p)
    = Metrics.premiumUnrealizedPL metrics.
Proof. intros Hp. unfold metricsStep. now rewrite Hp. Qed.

(** C7 (defect in the wheel-cycles route).  The rule of the portfolio
    aggregator for an assigned position is that its premiumRealizedPL is
    credited to the realized totals and nothing to the unrealized premium.
    The wheel-cycles route treats an assigned position as an open one:
    the step that accrues it leaves the cycle's realizedPL as it was and
    adds premium x contracts x 100 - openFees to the cycle's unrealizedPL.
    For a single assigned put with premium 2.00, one contract and open
    fees of 1, whose premiumRealizedPL is 199, the portfolio aggregator
    reports 199 realized and 0 unrealized, the wheel-cycles route 0
    realized and 199 unrealized. *)
Theorem C7_assigned_premium_left_unrealized :
  (∀ (cycle : Cycle.t) (metrics : Metrics.t) (prices : gmap string Q)
     (p : OptionPosition),
     status p = StatusAssigned →
     Cycle.realizedPL (accrue cycle p) = Cycle.realizedPL cycle
     ∧ Cycle.unrealizedPL (accrue cycle p)
       = (Cycle.unrealizedPL cycle
          + (premium p * contracts p * 100 - or_default (openFees p) 0))%Q
     ∧ Metrics.realizedPL (metricsStep prices metrics p)
       = add_if_truthy (Metrics.realizedPL metrics) (premiumRealizedPL p)
     ∧ Metrics.premiumUnrealizedPL (metricsStep prices metrics p)
       = Metrics.premiumUnrealizedPL metrics)
  ∧ status assignedPutRow = StatusAssigned
  ∧ holds (premiumRealizedPL assignedPutRow) 199
  ∧ wheelCycles [assignedPutRow] = [assignedCycle]
  ∧ (Summary.realizedPL assignedCycle == 0)%Q
  ∧ (Summary.unrealizedPL assignedCycle == 199)%Q
  ∧ (Metrics.realizedPL (portfolioMetrics ∅ [assignedPutRow]) == 199)%Q
  ∧ (Metrics.unrealizedPL (portfolioMetrics ∅ [assignedPutRow]) == 0)%Q
  ∧ ¬ wheelFollowsPortfolioRules.
Proof.
  split.
  { intros cycle metrics prices p Hp.
    destruct (metricsStep_assigned prices metrics p Hp) as [Hreal Hunreal].
    unfold accrue. rewrite Hp. cbn. now repeat split. }
  repeat (split; [now vm_compute|]).
  intros H. destruct (H [assignedPutRow] assignedCycle) as [Hr _].
  - vm_compute. apply list_elem_of_here.
  - vm_compute in Hr. discriminate.
Qed.

(** * Further properties of the code *)

(** ** The roll evaluation and the stock price *)

Lemma Qdiv_100 (t : Q) : (t / 100 == t * (1 # 100))%Q.
Proof. field. Qed.

Lemma percent_mono (s x y : Q) :
  (0 < s)%Q → (x <= y)%Q → (x / s * 100 <= y / s * 100)%Q.
Proof.
  intros Hs Hxy. apply Qmult_le_compat_r; [|discriminate].
  unfold Qdiv. apply Qmult_le_compat_r; [exact Hxy|].
  apply Qlt_le_weak, Qinv_lt_0_compat, Hs.
Qed.

(** Above a positive strike a higher stock price never removes a roll
    alert and never lowers its urgency. *)
Theorem roll_alert_monotone (position : OptionPosition) (price1 price2 : Q)
    (config : StrategyConfig) (a1 : Alert.t) :
  (0 < strike position)%Q → (price1 <= price2)%Q →
  calculateRollAlert position price1 config = Some a1 →
  Alert.type a1 = roll →
  ∃ a2, calculateRollAlert position price2 config = Some a2
        ∧ Alert.type a2 = roll
        ∧ urgencyRank (Alert.urgency a2) ≤ urgencyRank (Alert.urgency a1)
        ∧ (Alert.currentDistance a1 <= Alert.currentDistance a2)%Q.
Proof.
  intros Hs Hle. unfold calculateRollAlert.
  destruct (negb (bool_decide (status position = StatusOpen))); [discriminate|].
  set (target := (strike position * (1 + rollThreshold config / 100))%Q).
  destruct (Qle_bool target price1) eqn:H1.
  - apply Qle_bool_iff in H1.
    assert (H2 : Qle_bool target price2 = true)
      by (apply Qle_bool_iff; now apply (Qle_trans _ price1)).
    rewrite H2. intros [= <-] _. eexists. split; [reflexivity|].
    cbn [Alert.type Alert.urgency Alert.currentDistance].
    split; [reflexivity|].
    assert (Hover : ((price1 - target) / strike position * 100
                     <= (price2 - target) / strike position * 100)%Q)
      by (apply percent_mono; [exact Hs|lra]).
    split; [|apply percent_mono; [exact Hs|lra]].
    revert Hover.
    generalize ((price1 - target) / strike position * 100)%Q.
    generalize ((price2 - target) / strike position * 100)%Q.
    intros over2 over1 Hover.
    destruct (Qle_bool 1 over1) eqn:E1.
    + apply Qle_bool_iff in E1.
      assert (E2 : Qle_bool 1 over2 = true) by (apply Qle_bool_iff; lra).
      now rewrite E2.
    + destruct (Qle_bool 1 over2); [cbn; destruct (Qle_bool _ _); cbn; lia|].
      destruct (Qle_bool (1 # 4) over1) eqn:E3.
      * apply Qle_bool_iff in E3.
        assert (E4 : Qle_bool (1 # 4) over2 = true) by (apply Qle_bool_iff; lra).
        now rewrite E4.
      * destruct (Qle_bool (1 # 4) over2); cbn; lia.
  - destruct (_ && _); [|discriminate]. intros [= <-]. discriminate.
Qed.

Lemma roll_alert_monotone_witness :
  ∃ a2, calculateRollAlert openPutRow 104 STANDARD_STRATEGY = Some a2
        ∧ Alert.type a2 = roll
        ∧ urgencyRank (Alert.urgency a2) ≤ 1.
Proof.
  destruct (roll_alert_monotone openPutRow (1035 # 10) 104 STANDARD_STRATEGY
              {| Alert.positionId := id openPutRow;
                 Alert.ticker := stockTicker openPutRow;
                 Alert.type := roll;
                 Alert.title := "Roll Put";
                 Alert.targetPrice := targetRollPrice openPutRow STANDARD_STRATEGY;
                 Alert.threshold := rollThreshold STANDARD_STRATEGY;
                 Alert.currentDistance := distancePercent openPutRow (1035 # 10);
                 Alert.urgency := medium;
                 Alert.position := openPutRow |})
    as (a2 & H1 & H2 & H3 & _);
    [now vm_compute|now vm_compute|reflexivity|reflexivity|].
  exists a2. repeat split; assumption.
Defined.

(** ** Alerts of a position and of a pass *)

Lemma calculateRollAlert_origin (position : OptionPosition) (price : Q)
    (config : StrategyConfig) (a : Alert.t) :
  calculateRollAlert position price config = Some a →
  status position = StatusOpen ∧ Alert.position a = position
  ∧ Alert.positionId a = id position ∧ Alert.ticker a = stockTicker position.
Proof.
  unfold calculateRollAlert.
  destruct (bool_decide (status position = StatusOpen)) eqn:E; [|discriminate].
  apply bool_decide_eq_true in E. cbn [negb].
  repeat match goal with
         | |- context [if ?b then _ else _] => destruct b
         end; try discriminate; intros [= <-]; now repeat split.
Qed.

Lemma calculateCloseAlert_origin (position : OptionPosition) (price : option Q)
    (config : StrategyConfig) (a : Alert.t) :
  calculateCloseAlert position price config = Some a →
  status position = StatusOpen ∧ Alert.position a = position
  ∧ Alert.positionId a = id position ∧ Alert.ticker a = stockTicker position.
Proof.
  unfold calculateCloseAlert.
  destruct (bool_decide (status position = StatusOpen)) eqn:E; [|discriminate].
  apply bool_decide_eq_true in E. cbn [negb].
  destruct price as [price|]; [|discriminate].
  repeat match goal with
         | |- context [if ?b then _ else _] => destruct b
         end; try discriminate; intros [= <-]; now repeat split.
Qed.

(** The alerts of one position are the roll-family alert, if any, followed
    by the close alert, if any. *)
Lemma calculatePositionAlerts_parts (p : OptionPosition)
    (stockPrice optionPrice : option Q) (config : StrategyConfig) :
  ∃ r c : option Alert.t,
    calculatePositionAlerts p stockPrice optionPrice config
    = option_list r ++ option_list c
    ∧ (∀ a, r = Some a →
            (Alert.type a = roll ∨ Alert.type a = warning)
            ∧ status p = StatusOpen ∧ Alert.position a = p
            ∧ Alert.positionId a = id p ∧ Alert.ticker a = stockTicker p)
    ∧ (∀ a, c = Some a →
            Alert.type a = close
            ∧ status p = StatusOpen ∧ Alert.position a = p
            ∧ Alert.positionId a = id p ∧ Alert.ticker a = stockTicker p)
    ∧ (truthy optionPrice = false → c = None).
Proof.
  unfold calculatePositionAlerts.
  set (r := match stockPrice with
            | Some price =>
                if nonzero price then calculateRollAlert p price config else None
            | None => None
            end).
  set (c := if truthy optionPrice
            then calculateCloseAlert p optionPrice config else None).
  exists r, c. split; [|split; [|split]].
  - subst r c. destruct stockPrice as [price|]; cbn;
      [destruct (nonzero price); cbn;
       [destruct (calculateRollAlert p price config); cbn|]|];
      (destruct (truthy optionPrice); cbn;
       [destruct (calculateCloseAlert p optionPrice config); reflexivity
       |reflexivity]).
  - subst r. intros a Ha. destruct stockPrice as [price|]; [|discriminate].
    destruct (nonzero price); [|discriminate].
    split; [eapply calculateRollAlert_type, Ha|eapply calculateRollAlert_origin, Ha].
  - subst c. intros a Ha. destruct (truthy optionPrice); [|discriminate].
    split; [eapply calculateCloseAlert_type, Ha|eapply calculateCloseAlert_origin, Ha].
  - subst c. now intros ->.
Qed.

Lemma alertsOfType_option (ty : AlertType) (x : option Alert.t) :
  length (alertsOfType ty (option_list x))
  = match x with
    | Some a => if bool_decide (Alert.type a = ty) then 1 else 0
    | None => 0
    end.
Proof. destruct x as [a|]; cbn; [|reflexivity]. now destruct (bool_decide _). Qed.

(** One position yields at most one roll-family alert and at most one
    close alert, the roll-family alert first, none at all unless its
    status is open; each alert carries the position it is about. *)
Theorem position_alerts_shape (p : OptionPosition)
    (stockPrice optionPrice : option Q) (config : StrategyConfig) :
  length (alertsOfType roll (calculatePositionAlerts p stockPrice optionPrice config))
  + length (alertsOfType warning
              (calculatePositionAlerts p stockPrice optionPrice config)) ≤ 1
  ∧ length (alertsOfType close
              (calculatePositionAlerts p stockPrice optionPrice config)) ≤ 1
  ∧ length (calculatePositionAlerts p stockPrice optionPrice config) ≤ 2
  ∧ (status p ≠ StatusOpen →
     calculatePositionAlerts p stockPrice optionPrice config = [])
  ∧ ∀ a, a ∈ calculatePositionAlerts p stockPrice optionPrice config →
         Alert.position a = p ∧ Alert.positionId a = id p
         ∧ Alert.ticker a = stockTicker p.
Proof.
  destruct (calculatePositionAlerts_parts p stockPrice optionPrice config)
    as (r & c & -> & Hr & Hc & _).
  rewrite !alertsOfType_app, !length_app, !alertsOfType_option.
  split; [|split; [|split; [|split]]].
  - destruct r as [a|], c as [b|]; cbn; try lia;
      try (destruct (Hc b eq_refl) as [Hb _]);
      try (destruct (Hr a eq_refl) as [[Ha | Ha] _]);
      repeat case_bool_decide; try lia; congruence.
  - destruct r as [a|], c as [b|]; cbn; try lia;
      try (destruct (Hc b eq_refl) as [Hb _]);
      try (destruct (Hr a eq_refl) as [[Ha | Ha] _]);
      repeat case_bool_decide; try lia; congruence.
  - destruct r, c; cbn; lia.
  - intros Hn. destruct r as [a|]; [destruct (Hr a eq_refl) as (_ & Ho & _); contradiction|].
    destruct c as [b|]; [destruct (Hc b eq_refl) as (_ & Ho & _); contradiction|].
    reflexivity.
  - intros a Ha. apply elem_of_app in Ha as [Ha | Ha];
      [destruct r as [x|]|destruct c as [x|]]; cbn in Ha;
      try (now inversion Ha); apply list_elem_of_singleton in Ha as ->.
    + destruct (Hr x eq_refl) as (_ & _ & ? & ? & ?). now repeat split.
    + destruct (Hc x eq_refl) as (_ & _ & ? & ? & ?). now repeat split.
Qed.

Lemma List_filter_none {A} (f : A → bool) (l : list A) :
  (∀ x, x ∈ l → f x = false) → List.filter f l = [].
Proof.
  induction l as [|x r IH]; intros H; [reflexivity|]. cbn.
  rewrite (H x) by apply list_elem_of_here.
  apply IH. intros y Hy. apply H. now apply list_elem_of_further.
Qed.

Lemma List_filter_all {A} (f : A → bool) (l : list A) :
  (∀ x, x ∈ l → f x = true) → List.filter f l = l.
Proof.
  induction l as [|x r IH]; intros H; [reflexivity|]. cbn.
  rewrite (H x) by apply list_elem_of_here. f_equal.
  apply IH. intros y Hy. apply H. now apply list_elem_of_further.
Qed.

Lemma countStatus_cons (s : OptionStatus) (p : OptionPosition)
    (r : list OptionPosition) :
  countStatus s (p :: r)
  = (if bool_decide (status p = s) then 1 else 0) + countStatus s r.
Proof. unfold countStatus. cbn. now destruct (bool_decide _). Qed.

Lemma collectAlerts_length (positions : list OptionPosition)
    (stockPrices : gmap string Q) (optionPrices : option (gmap string Q))
    (config : StrategyConfig) :
  length (collectAlerts positions stockPrices optionPrices config)
  ≤ 2 * countStatus StatusOpen positions
  ∧ (optionPrices = None →
     length (collectAlerts positions stockPrices optionPrices config)
     ≤ countStatus StatusOpen positions).
Proof.
  unfold collectAlerts.
  assert (H : ∀ acc,
    length (fold_left
      (λ alerts position,
         if negb (bool_decide (status position = StatusOpen)) then alerts else
         alerts ++ calculatePositionAlerts position
                     (or_null (stockPrices !! toUpperCase (stockTicker position)))
                     (or_null (optionPrices ≫= (λ m, m !! id position))) config)
      positions acc)
    ≤ length acc + 2 * countStatus StatusOpen positions
    ∧ (optionPrices = None →
       length (fold_left
         (λ alerts position,
            if negb (bool_decide (status position = StatusOpen)) then alerts else
            alerts ++ calculatePositionAlerts position
                        (or_null (stockPrices !! toUpperCase (stockTicker position)))
                        (or_null (optionPrices ≫= (λ m, m !! id position))) config)
         positions acc)
       ≤ length acc + countStatus StatusOpen positions)).
  { induction positions as [|p r IH]; intros acc; cbn [fold_left].
    - cbn. split; [lia|intros _; lia].
    - rewrite countStatus_cons.
      destruct (bool_decide (status p = StatusOpen)); cbn [negb].
      + destruct (calculatePositionAlerts_parts p
                    (or_null (stockPrices !! toUpperCase (stockTicker p)))
                    (or_null (optionPrices ≫= (λ m, m !! id p))) config)
          as (x & c & E & _ & _ & Hnone).
        match goal with |- context [fold_left ?f r ?a] =>
          destruct (IH a) as [IH1 IH2] end.
        rewrite E in *. rewrite !length_app in *.
        split.
        * destruct x, c; cbn in *; lia.
        * intros ->. specialize (IH2 eq_refl). rewrite (Hnone eq_refl) in *.
          destruct x; cbn in *; lia.
      + destruct (IH acc) as [IH1 IH2]. split; [lia|intros H; specialize (IH2 H); lia]. }
  destruct (H []) as [H1 H2]. cbn in *. split; [lia|intros E; specialize (H2 E); lia].
Qed.

(** An evaluation pass returns at most two alerts per open position; with
    no option prices, as the hook calls it, at most one and never a close
    alert; with no prices at all, none. *)
Theorem alert_count_bounds (positions : list OptionPosition)
    (stockPrices : gmap string Q) (optionPrices : option (gmap string Q))
    (config : StrategyConfig) :
  length (calculateAllAlerts positions stockPrices optionPrices config)
  ≤ 2 * countStatus StatusOpen positions
  ∧ length (calculateAllAlerts positions stockPrices None config)
    ≤ countStatus StatusOpen positions
  ∧ alertsOfType close (calculateAllAlerts positions stockPrices None config) = []
  ∧ calculateAllAlerts positions ∅ None config = [].
Proof.
  unfold calculateAllAlerts.
  rewrite !(Permutation_length (Array_sort_Permutation compareAlerts _)).
  split; [apply collectAlerts_length|].
  split; [now apply collectAlerts_length|].
  assert (Hnoclose : ∀ prices a,
            a ∈ collectAlerts positions prices None config → Alert.type a ≠ close).
  { intros prices a Ha. apply collectAlerts_elem_of in Ha as (p & _ & Ha).
    destruct (calculatePositionAlerts_parts p
                (or_null (prices !! toUpperCase (stockTicker p)))
                (or_null (None ≫= (λ m : gmap string Q, m !! id p))) config)
      as (r & c & E & Hr & _ & Hnone).
    rewrite E, (Hnone eq_refl), app_nil_r in Ha.
    destruct r as [x|]; [|inversion Ha].
    apply list_elem_of_singleton in Ha as ->.
    destruct (Hr x eq_refl) as [[-> | ->] _]; discriminate. }
  split.
  - apply List_filter_none. intros a Ha. apply Array_sort_elem_of in Ha.
    apply bool_decide_eq_false. now apply (Hnoclose stockPrices).
  - assert (E : collectAlerts positions ∅ None config = []); [|now rewrite E].
    destruct (collectAlerts positions ∅ None config) as [|a l] eqn:E; [reflexivity|].
    exfalso.
    assert (Ha : a ∈ collectAlerts positions ∅ None config)
      by (rewrite E; apply list_elem_of_here).
    apply collectAlerts_elem_of in Ha as (p & _ & Ha).
    rewrite lookup_empty in Ha. cbn in Ha. inversion Ha.
Qed.

(** Every alert of an evaluation pass is about an open position of the
    input and carries that position, its id and its ticker; closed and
    assigned positions yield none. *)
Theorem alerts_come_from_open_positions (positions : list OptionPosition)
    (stockPrices : gmap string Q) (optionPrices : option (gmap string Q))
    (config : StrategyConfig) (a : Alert.t) :
  a ∈ calculateAllAlerts positions stockPrices optionPrices config →
  Alert.position a ∈ positions
  ∧ status (Alert.position a) = StatusOpen
  ∧ Alert.positionId a = id (Alert.position a)
  ∧ Alert.ticker a = stockTicker (Alert.position a).
Proof.
  unfold calculateAllAlerts. intros Ha. apply Array_sort_elem_of in Ha.
  apply collectAlerts_elem_of in Ha as (p & Hp & Ha).
  destruct (calculatePositionAlerts_parts p
              (or_null (stockPrices !! toUpperCase (stockTicker p)))
              (or_null (optionPrices ≫= (λ m, m !! id p))) config)
    as (r & c & E & Hr & Hc & _).
  rewrite E in Ha. apply elem_of_app in Ha as [Ha | Ha];
    [destruct r as [x|]|destruct c as [x|]]; cbn in Ha;
    try (now inversion Ha); apply list_elem_of_singleton in Ha as ->.
  - destruct (Hr x eq_refl) as (_ & Ho & -> & Hi & Ht). now repeat split.
  - destruct (Hc x eq_refl) as (_ & Ho & -> & Hi & Ht). now repeat split.
Qed.

Lemma alerts_come_from_open_positions_witness :
  ∃ a, a ∈ calculateAllAlerts threePuts threePrices None STANDARD_STRATEGY
       ∧ Alert.position a ∈ threePuts
       ∧ status (Alert.position a) = StatusOpen
       ∧ Alert.positionId a = id (Alert.position a)
       ∧ Alert.ticker a = stockTicker (Alert.position a).
Proof.
  eexists. split; [vm_compute; apply list_elem_of_here|].
  apply (alerts_come_from_open_positions threePuts threePrices None
           STANDARD_STRATEGY).
  vm_compute. apply list_elem_of_here.
Defined.

(** ** The hook: active alerts, dismissals and the sweep *)

Lemma includes_app (l1 l2 : list string) (x : string) :
  includes (l1 ++ l2) x = includes l1 x || includes l2 x.
Proof. unfold includes. apply existsb_app. Qed.

Lemma List_filter_filter {A} (f g : A → bool) (l : list A) :
  List.filter (λ x, f x && g x) l = List.filter g (List.filter f l).
Proof.
  induction l as [|x r IH]; [reflexivity|]. cbn.
  destruct (f x); cbn; [destruct (g x); now rewrite IH|exact IH].
Qed.

(** The active alerts are the alerts of the pass whose position is not
    dismissed; dismissing a position hides exactly its alerts and leaves
    the pass itself alone; clearing the dismissals shows every alert. *)
Theorem active_alerts_and_dismissals (c : UserStrategyConfig)
    (positions : list OptionPosition) (stockPrices : gmap string Q) :
  (∀ a, a ∈ activeAlerts c positions stockPrices
        ↔ a ∈ allAlerts c positions stockPrices
          ∧ Alert.positionId a ∉ dismissedAlerts c)
  ∧ (∀ now positionId,
       allAlerts (dismissAlert now positionId c) positions stockPrices
       = allAlerts c positions stockPrices
       ∧ activeAlerts (dismissAlert now positionId c) positions stockPrices
         = List.filter (λ a, negb (String.eqb (Alert.positionId a) positionId))
             (activeAlerts c positions stockPrices))
  ∧ activeAlerts (clearAllDismissed c) positions stockPrices
    = allAlerts c positions stockPrices.
Proof.
  split; [|split].
  - intros a. unfold activeAlerts. rewrite elem_of_List_filter, negb_true_iff.
    rewrite <- includes_elem_of. now destruct (includes _ _).
  - intros now positionId. split; [reflexivity|].
    unfold activeAlerts. cbn [dismissedAlerts dismissAlert].
    change (allAlerts (dismissAlert now positionId c) positions stockPrices)
      with (allAlerts c positions stockPrices).
    rewrite <- List_filter_filter. apply List.filter_ext. intros a.
    rewrite includes_app, negb_orb. cbn. now rewrite orb_false_r.
  - unfold activeAlerts. cbn [dismissedAlerts clearAllDismissed].
    change (allAlerts (clearAllDismissed c) positions stockPrices)
      with (allAlerts c positions stockPrices).
    now apply List_filter_all.
Qed.

(** Undismissing right after dismissing is undismissing alone; on a
    position not dismissed before, it gives the store back unchanged. *)
Theorem dismiss_then_undismiss (now : Z) (positionId : string)
    (c : UserStrategyConfig) :
  undismissAlert positionId (dismissAlert now positionId c)
  = undismissAlert positionId c
  ∧ (positionId ∉ dismissedAlerts c → dismissedAt c !! positionId = None →
     undismissAlert positionId (dismissAlert now positionId c) = c).
Proof.
  assert (E : undismissAlert positionId (dismissAlert now positionId c)
              = undismissAlert positionId c).
  { unfold undismissAlert, dismissAlert. cbn.
    rewrite List.filter_app. cbn. rewrite String.eqb_refl. cbn.
    now rewrite app_nil_r, delete_insert_eq. }
  split; [exact E|]. intros Hl Hm. rewrite E.
  unfold undismissAlert. destruct c as [s r t l m]. cbn in *.
  rewrite delete_id by exact Hm. f_equal.
  apply List_filter_all. intros x Hx. apply negb_true_iff, String.eqb_neq.
  intros ->. contradiction.
Qed.

Lemma dismiss_then_undismiss_witness :
  undismissAlert "pos-1" (dismissAlert sampleNow "pos-1" DEFAULT_STRATEGY_CONFIG)
  = DEFAULT_STRATEGY_CONFIG.
Proof.
  apply (dismiss_then_undismiss sampleNow "pos-1" DEFAULT_STRATEGY_CONFIG).
  - intros H. inversion H.
  - reflexivity.
Defined.

(** The id list after a sweep, whatever the store held. *)
Lemma expirySweep_list (now : Z) (c : UserStrategyConfig) (k : string) :
  k ∈ dismissedAlerts (expirySweep now c)
  ↔ k ∈ dismissedAlerts c ∧ stillDismissed now (dismissedAt c) k = true.
Proof.
  unfold expirySweep.
  destruct (length (List.filter (stillDismissed now (dismissedAt c)) (dismissedAlerts c))
            =? length (dismissedAlerts c)) eqn:Hlen; cbn [negb].
  - apply Nat.eqb_eq in Hlen.
    pose proof (List_filter_same_length _ _ Hlen) as Hall.
    split; [intros Hk; split; [exact Hk|now apply Hall]|now intros [Hk _]].
  - cbn [dismissedAlerts]. apply elem_of_List_filter.
Qed.

Lemma stillDismissed_inv (now : Z) (m : gmap string Z) (k : string) :
  stillDismissed now m k = true
  ↔ ∃ t, m !! k = Some t ∧ t ≠ 0%Z
         ∧ (now - t < ALERT_REAPPEAR_HOURS * 60 * 60 * 1000)%Z.
Proof.
  unfold stillDismissed. destruct (m !! k) as [t|].
  - destruct (Z.eqb_spec t 0) as [-> | Hne].
    + split; [discriminate|]. intros (t & [= <-] & Hne & _). contradiction.
    + rewrite Z.ltb_lt. split.
      * intros H. exists t. now repeat split.
      * now intros (t' & [= <-] & _ & H).
  - split; [discriminate|]. now intros (t & H & _).
Qed.

(** After a sweep every listed id has a timestamp younger than 24 hours,
    even if the store was out of step before; the sweep only removes
    entries and leaves the strategy settings alone. *)
Theorem expirySweep_result (now : Z) (c : UserStrategyConfig) :
  (∀ k, k ∈ dismissedAlerts (expirySweep now c) →
        ∃ t, dismissedAt (expirySweep now c) !! k = Some t ∧ t ≠ 0%Z
             ∧ (now - t < 24 * 60 * 60 * 1000)%Z)
  ∧ (∀ k, k ∈ dismissedAlerts (expirySweep now c) → k ∈ dismissedAlerts c)
  ∧ dismissedAt (expirySweep now c) ⊆ dismissedAt c
  ∧ activeStrategy (expirySweep now c) = activeStrategy c
  ∧ customRollThreshold (expirySweep now c) = customRollThreshold c
  ∧ customCloseThreshold (expirySweep now c) = customCloseThreshold c.
Proof.
  split; [|split].
  - intros k Hk. pose proof (proj1 (expirySweep_list now c k) Hk) as [Hin Hlive].
    apply stillDismissed_inv in Hlive as (t & Ht & Hne & Hlt).
    exists t. repeat split; [|exact Hne|exact Hlt].
    revert Hk. unfold expirySweep.
    destruct (negb _); cbn [dismissedAlerts dismissedAt]; [|now intros _].
    intros Hk. apply map_lookup_filter_Some. split; [exact Ht|].
    cbn. now apply includes_elem_of.
  - intros k Hk. now apply expirySweep_list in Hk.
  - unfold expirySweep. destruct (negb _); cbn; repeat split; try reflexivity.
    apply map_filter_subseteq.
Qed.

(** Sweeping twice at the same time is sweeping once. *)
Theorem expirySweep_idempotent (now : Z) (c : UserStrategyConfig) :
  expirySweep now (expirySweep now c) = expirySweep now c.
Proof.
  unfold expirySweep at 2 3.
  destruct (length (List.filter (stillDismissed now (dismissedAt c)) (dismissedAlerts c))
            =? length (dismissedAlerts c)) eqn:Hlen; cbn [negb].
  - unfold expirySweep. now rewrite Hlen.
  - set (l' := List.filter (stillDismissed now (dismissedAt c)) (dismissedAlerts c)).
    set (m' := filter (λ entry : string * Z, includes l' entry.1 = true)
                 (dismissedAt c)).
    unfold expirySweep. cbn [dismissedAlerts dismissedAt].
    assert (Hkeep : List.filter (stillDismissed now m') l' = l').
    { apply List_filter_all. intros k Hk.
      pose proof Hk as Hk'. apply elem_of_List_filter in Hk' as [_ Hlive].
      apply stillDismissed_inv in Hlive as (t & Ht & Hne & Hlt).
      apply stillDismissed_inv. exists t. repeat split; [|exact Hne|exact Hlt].
      apply map_lookup_filter_Some. split; [exact Ht|].
      cbn. now apply includes_elem_of. }
    rewrite Hkeep, Nat.eqb_refl. reflexivity.
Qed.

(** The lifetime of a dismissal: after dismissing at time [t], a sweep at
    time [now] keeps the id exactly when [t] is not 0 and less than 24
    hours have passed; at 24 hours to the millisecond it is dropped. *)
Theorem dismissal_lifetime (t now : Z) (positionId : string)
    (c : UserStrategyConfig) :
  positionId ∈ dismissedAlerts (expirySweep now (dismissAlert t positionId c))
  ↔ t ≠ 0%Z ∧ (now - t < 24 * 60 * 60 * 1000)%Z.
Proof.
  rewrite expirySweep_list. cbn [dismissedAlerts dismissedAt dismissAlert].
  rewrite stillDismissed_inv, lookup_insert_eq. split.
  - intros (_ & t' & [= <-] & Hne & Hlt). now split.
  - intros [Hne Hlt]. split.
    + apply elem_of_app. right. apply list_elem_of_here.
    + exists t. now repeat split.
Qed.

(** ** Rows written by the create and update routes *)

Lemma calculatePositionMetrics_consistent (p : PositionFields) :
  match Calc.status (calculatePositionMetrics p) with
  | StatusOpen =>
      Calc.realizedPL (calculatePositionMetrics p) = None
      ∧ Calc.premiumRealizedPL (calculatePositionMetrics p) = None
      ∧ Calc.stockRealizedPL (calculatePositionMetrics p) = None
  | StatusClosed | StatusAssigned =>
      ∃ total premiumPart stockPart : Q,
        Calc.realizedPL (calculatePositionMetrics p) = Some total
        ∧ Calc.premiumRealizedPL (calculatePositionMetrics p) = Some premiumPart
        ∧ Calc.stockRealizedPL (calculatePositionMetrics p) = Some stockPart
        ∧ total == premiumPart + stockPart
  end.
Proof.
  unfold calculatePositionMetrics.
  destruct (bool_decide (is_Some (closeDate p))); cbn.
  - eexists _, _, _. repeat split; reflexivity.
  - destruct (assigned p && ownsStock p); cbn.
    + eexists _, _, _. repeat split; try reflexivity. ring.
    + repeat split.
Qed.

(** Every row the create route or the current update route writes has
    its P/L fields null exactly when its status is open, and otherwise
    all three present with realizedPL = premiumRealizedPL +
    stockRealizedPL. *)
Theorem written_rows_consistent (newId : string) (v : PositionFields)
    (existing : OptionPosition) (u : PositionUpdate) :
  consistentPL (POST newId v) ∧ consistentPL (PATCH existing u).
Proof.
  split; unfold consistentPL, POST, PATCH;
    cbn [status realizedPL premiumRealizedPL stockRealizedPL];
    rewrite ?calculatePositionMetrics_patch_eq;
    apply calculatePositionMetrics_consistent.
Qed.


Lemma or_null_idem (x : option Q) : or_null (or_null x) = or_null x.
Proof. unfold or_null at 1. now rewrite or_null_truthy; unfold or_null; destruct (truthy x). Qed.

Lemma autoStockQuantity_idem (p : PositionFields) :
  autoStockQuantity (set_stockQuantity p (autoStockQuantity p))
  = autoStockQuantity p.
Proof.
  unfold autoStockQuantity at 1.
  cbn [ownsStock stockQuantity contracts set_stockQuantity].
  unfold autoStockQuantity.
  destruct (ownsStock p) eqn:Ho; cbn [andb]; [|apply or_null_idem].
  destruct (truthy (stockQuantity p)) eqn:Hq; cbn [negb].
  - rewrite or_null_truthy, Hq. cbn [negb]. apply or_null_idem.
  - destruct (truthy (Some (contracts p * 100)%Q)) eqn:Hc; cbn [negb]; [|reflexivity].
    unfold or_null. now rewrite Hc.
Qed.

Lemma override_twice {A} (old : A) (new : option A) :
  override (override old new) new = override old new.
Proof. now destruct new. Qed.

Lemma override_opt_twice {A} (old new : option A) :
  override_opt (override_opt old new) new = override_opt old new.
Proof. now destruct new. Qed.

(** Merging the same update into the row it produced changes no field. *)
Lemma patched_fields_fixed (existing : PositionFields) (u : PositionUpdate) :
  set_stockQuantity
    (mergedData (set_stockQuantity (mergedData existing u)
                   (autoStockQuantity (mergedData existing u))) u)
    (autoStockQuantity
       (mergedData (set_stockQuantity (mergedData existing u)
                      (autoStockQuantity (mergedData existing u))) u))
  = set_stockQuantity (mergedData existing u)
      (autoStockQuantity (mergedData existing u)).
Proof.
  set (merged := mergedData existing u).
  set (q := autoStockQuantity merged).
  assert (Hm : mergedData (set_stockQuantity merged q) u
               = set_stockQuantity merged (override_opt q (u_stockQuantity u))).
  { subst q merged. unfold mergedData, set_stockQuantity. cbn.
    rewrite !override_twice, !override_opt_twice.
    f_equal. now destruct (u_closeDate u). }
  rewrite Hm. destruct (u_stockQuantity u) as [x|] eqn:Hx; cbn [override_opt].
  - assert (Hsame : set_stockQuantity merged (Some x) = merged).
    { subst merged. unfold mergedData, set_stockQuantity. cbn. now rewrite Hx. }
    rewrite Hsame. reflexivity.
  - assert (Hq : autoStockQuantity (set_stockQuantity merged q) = q)
      by apply autoStockQuantity_idem.
    rewrite Hq. reflexivity.
Qed.

(** Applying the same partial update a second time changes nothing. *)
Theorem PATCH_idempotent (existing : OptionPosition) (u : PositionUpdate) :
  PATCH (PATCH existing u) u = PATCH existing u.
Proof.
  unfold PATCH at 1. cbv zeta.
  change (fields (PATCH existing u))
    with (set_stockQuantity (mergedData existing u)
            (autoStockQuantity (mergedData existing u))).
  rewrite patched_fields_fixed.
  unfold PATCH. cbn [id wheelCycleName].
  destruct (u_stockTicker u) as [t|]; [destruct (String.eqb t "")|]; reflexivity.
Qed.

(** The helper reads an amount of zero like a missing one. *)
Lemma calculatePositionMetrics_or_null (p : PositionFields) :
  calculatePositionMetrics
    {| stockTicker := stockTicker p; type := type p; contracts := contracts p;
       strike := strike p; premium := premium p; ownsStock := ownsStock p;
       stockCostBasis := or_null (stockCostBasis p);
       stockQuantity := stockQuantity p;
       stockSalePrice := or_null (stockSalePrice p);
       assigned := assigned p;
       openFees := or_null (openFees p);
       closeDate := closeDate p;
       premiumPaidToClose := or_null (premiumPaidToClose p);
       closeFees := or_null (closeFees p) |}
  = calculatePositionMetrics p.
Proof.
  unfold calculatePositionMetrics. cbn.
  rewrite !or_default_or_null. unfold or_null.
  destruct (stockSalePrice p) as [s|], (stockCostBasis p) as [b|],
    (stockQuantity p) as [q|]; cbn;
    try destruct (nonzero s) eqn:Es; try destruct (nonzero b) eqn:Eb; cbn;
    rewrite ?Es, ?Eb; reflexivity.
Qed.

(** An update that supplies nothing leaves a row written by the create
    route or by the update route exactly as it is. *)
Theorem empty_update_changes_nothing (newId : string) (v : PositionFields)
    (existing : OptionPosition) (u : PositionUpdate) :
  PATCH (POST newId v) noUpdate = POST newId v
  ∧ PATCH (PATCH existing u) noUpdate = PATCH existing u.
Proof.
  split.
  - unfold PATCH. cbv zeta. cbn [u_stockTicker noUpdate id wheelCycleName].
    change (mergedData (POST newId v) noUpdate) with (fields (POST newId v)).
    assert (Hq : autoStockQuantity (POST newId v) = autoStockQuantity v)
      by apply autoStockQuantity_idem.
    rewrite Hq.
    change (set_stockQuantity (POST newId v) (autoStockQuantity v))
      with (fields (POST newId v)).
    rewrite calculatePositionMetrics_patch_eq.
    assert (Hcalc : calculatePositionMetrics (POST newId v)
                    = calculatePositionMetrics
                        (set_stockQuantity v (autoStockQuantity v)))
      by apply (calculatePositionMetrics_or_null
                  (set_stockQuantity v (autoStockQuantity v))).
    rewrite Hcalc. reflexivity.
  - unfold PATCH at 1. cbv zeta. cbn [u_stockTicker noUpdate id wheelCycleName].
    change (mergedData (PATCH existing u) noUpdate) with (fields (PATCH existing u)).
    assert (Hq : autoStockQuantity (PATCH existing u)
                 = autoStockQuantity (mergedData existing u))
      by apply autoStockQuantity_idem.
    rewrite Hq. reflexivity.
Qed.

(** ** Wheel cycles: order, names and counts *)

Lemma compareCycles_before (a b : Summary.t) :
  before compareCycles a b
  ↔ (Summary.status a = active ∧ Summary.status b = completed)
    ∨ (Summary.status a = Summary.status b
       ∧ (Summary.totalPL b <= Summary.totalPL a)%Q).
Proof.
  unfold before, compareCycles.
  destruct (Summary.status a), (Summary.status b); split.
  - intros H. right. split; [reflexivity|lra].
  - intros [[_ H] | [_ H]]; [discriminate|lra].
  - intros _. now left.
  - intros _. lra.
  - intros H. exfalso. lra.
  - intros [[H _] | [H _]]; discriminate.
  - intros H. right. split; [reflexivity|lra].
  - intros [[H _] | [_ H]]; [discriminate|lra].
Qed.

Lemma compareCycles_total (a b : Summary.t) :
  ¬ before compareCycles a b → before compareCycles b a.
Proof.
  rewrite !compareCycles_before. intros H.
  destruct (Summary.status a) eqn:Ea, (Summary.status b) eqn:Eb.
  - right. split; [reflexivity|].
    destruct (Qlt_le_dec (Summary.totalPL b) (Summary.totalPL a)) as [Hd | Hd];
      [|exact Hd].
    exfalso. apply H. right. split; [reflexivity|now apply Qlt_le_weak].
  - exfalso. apply H. now left.
  - now left.
  - right. split; [reflexivity|].
    destruct (Qlt_le_dec (Summary.totalPL b) (Summary.totalPL a)) as [Hd | Hd];
      [|exact Hd].
    exfalso. apply H. right. split; [reflexivity|now apply Qlt_le_weak].
Qed.

Lemma compareCycles_trans (a b c : Summary.t) :
  before compareCycles a b → before compareCycles b c → before compareCycles a c.
Proof.
  rewrite !compareCycles_before.
  intros [[A1 A2] | [A1 A2]] [[B1 B2] | [B1 B2]].
  - congruence.
  - left. split; [exact A1|congruence].
  - left. split; [congruence|exact B2].
  - right. split; [congruence|now apply (Qle_trans _ _ _ B2)].
Qed.

(** The cycles come out active first, completed last, and within each of
    the two by total P/L from the highest down. *)
Theorem wheelCycles_order (positions : list OptionPosition) (i j : nat)
    (a b : Summary.t) :
  wheelCycles positions !! i = Some a →
  wheelCycles positions !! j = Some b →
  i < j →
  (Summary.status a = completed → Summary.status b = completed)
  ∧ (Summary.status a = Summary.status b →
     (Summary.totalPL b <= Summary.totalPL a)%Q).
Proof.
  intros Ha Hb Hlt.
  pose proof (Array_sort_lookup compareCycles compareCycles_total
                compareCycles_trans _ i j a b Ha Hb Hlt) as H.
  apply compareCycles_before in H as [[H1 H2] | [H1 H2]].
  - split; [congruence|]. intros E. congruence.
  - split; [congruence|]. intros _. exact H2.
Qed.

Lemma wheelCycles_order_witness :
  ∃ a b, wheelCycles threePuts !! 0 = Some a ∧ wheelCycles threePuts !! 1 = Some b
         ∧ (Summary.status a = completed → Summary.status b = completed)
         ∧ (Summary.status a = Summary.status b →
            (Summary.totalPL b <= Summary.totalPL a)%Q).
Proof.
  eexists. eexists.
  split; [vm_compute; reflexivity|]. split; [vm_compute; reflexivity|].
  apply (wheelCycles_order threePuts 0 1); [vm_compute; reflexivity..|lia].
Defined.

Lemma groupStep_keys (m : list (string * Cycle.t)) (p : OptionPosition) :
  (groupStep m p).*1
  = if Map_has m (cycleNameOf p) then m.*1 else m.*1 ++ [cycleNameOf p].
Proof.
  unfold groupStep. rewrite Map_update_keys.
  destruct (Map_has m (cycleNameOf p)); cbn [negb]; [reflexivity|].
  now rewrite fmap_app.
Qed.

Lemma wheelCyclesMap_keys (positions : list OptionPosition)
    (m : list (string * Cycle.t)) (k : string) :
  k ∈ (fold_left groupStep positions m).*1 →
  k ∈ m.*1 ∨ ∃ p, p ∈ positions ∧ cycleNameOf p = k.
Proof.
  revert m. induction positions as [|p r IH]; intros m Hk; [now left|].
  cbn [fold_left] in Hk. apply IH in Hk as [Hk | (q & Hq & E)].
  - rewrite groupStep_keys in Hk. destruct (Map_has m (cycleNameOf p)); [now left|].
    apply elem_of_app in Hk as [Hk | Hk]; [now left|].
    apply list_elem_of_singleton in Hk as ->.
    right. exists p. split; [apply list_elem_of_here|reflexivity].
  - right. exists q. split; [now apply list_elem_of_further|exact E].
Qed.

(** The names of the summaries, in the order of the map. *)
Lemma cycle_names_are_keys (positions : list OptionPosition) :
  Summary.name <$> (summarize <$> cycleAccumulators positions)
  = (fold_left groupStep positions []).*1.
Proof.
  unfold cycleAccumulators, Map_values.
  destruct (wheelCyclesMap_grouped positions) as (_ & _ & Hval).
  induction Hval as [|[k c] r Hkc Hr IH]; [reflexivity|].
  cbn in *. rewrite IH. f_equal.
  destruct (determineStatus_totals c) as [-> _].
  subst c. unfold cycleOfGroup. now rewrite fold_accrue_name.
Qed.

(** There is exactly one cycle per cycle name met among the positions:
    the names of the cycles are distinct, each is the cycle name of some
    position, every position's cycle name has its cycle, and no position
    means no cycle. *)
Theorem wheelCycles_names (positions : list OptionPosition) :
  NoDup (Summary.name <$> wheelCycles positions)
  ∧ (∀ n, n ∈ (Summary.name <$> wheelCycles positions)
          ↔ ∃ p, p ∈ positions ∧ cycleNameOf p = n)
  ∧ wheelCycles [] = [].
Proof.
  assert (Hperm : Summary.name <$> wheelCycles positions
                  ≡ₚ (fold_left groupStep positions []).*1).
  { unfold wheelCycles. rewrite Array_sort_Permutation.
    now rewrite cycle_names_are_keys. }
  destruct (wheelCyclesMap_grouped positions) as (Hnd & Hcover & _).
  split; [now rewrite Hperm|]. split; [|reflexivity].
  intros n. rewrite Hperm. split.
  - intros Hn. apply wheelCyclesMap_keys in Hn as [Hn | Hn]; [inversion Hn|exact Hn].
  - intros (p & Hp & <-). now apply Hcover.
Qed.

Lemma wheelCycles_elem_of_key (positions : list OptionPosition) (s : Summary.t) :
  s ∈ wheelCycles positions →
  ∃ k p, p ∈ positions ∧ cycleNameOf p = k
         ∧ s = summarize (determineStatus (cycleOfGroup k positions)).
Proof.
  unfold wheelCycles. intros Hs. apply Array_sort_elem_of in Hs.
  apply list_elem_of_fmap in Hs as (c & -> & Hc).
  unfold cycleAccumulators, Map_values in Hc.
  apply list_elem_of_fmap in Hc as (c0 & -> & Hc0).
  apply list_elem_of_fmap in Hc0 as ([k c1] & -> & Hkc).
  destruct (wheelCyclesMap_grouped positions) as (_ & _ & Hval).
  rewrite Forall_forall in Hval. specialize (Hval _ Hkc). cbn in Hval.
  assert (Hk : k ∈ (fold_left groupStep positions []).*1)
    by (apply list_elem_of_fmap; now exists (k, c1)).
  apply wheelCyclesMap_keys in Hk as [Hk | (p & Hp & E)]; [inversion Hk|].
  exists k, p. cbn. now rewrite Hval.
Qed.

Lemma fold_accrue_counts (group : list OptionPosition) (c : Cycle.t) :
  Cycle.totalPositions (fold_left accrue group c)
  = Cycle.totalPositions c + length group
  ∧ Cycle.openPositions (fold_left accrue group c)
    = Cycle.openPositions c + countStatus StatusOpen group
      + countStatus StatusAssigned group
  ∧ Cycle.closedPositions (fold_left accrue group c)
    = Cycle.closedPositions c + countStatus StatusClosed group.
Proof.
  revert c. induction group as [|p r IH]; intros c.
  - cbn. unfold countStatus. cbn. lia.
  - cbn [fold_left]. destruct (IH (accrue c p)) as (-> & -> & ->).
    rewrite !countStatus_cons. unfold accrue.
    destruct (status p); cbn; repeat case_bool_decide; try congruence; lia.
Qed.

Lemma determineStatus_counts (c : Cycle.t) :
  Cycle.totalPositions (determineStatus c) = Cycle.totalPositions c
  ∧ Cycle.openPositions (determineStatus c) = Cycle.openPositions c
  ∧ Cycle.closedPositions (determineStatus c) = Cycle.closedPositions c
  ∧ Cycle.totalPL (determineStatus c) = Cycle.totalPL c.
Proof. unfold determineStatus. now destruct (_ && _). Qed.

Lemma cycleOfGroup_name (k : string) (positions : list OptionPosition) :
  Cycle.name (cycleOfGroup k positions) = k.
Proof. unfold cycleOfGroup. now rewrite fold_accrue_name. Qed.

(** The counts of a cycle are those of its group: every position whose
    cycle name is the cycle's is counted once, as open when its status is
    open or assigned and as closed when it is closed; no cycle is empty. *)
Theorem wheelCycles_counts (positions : list OptionPosition) (s : Summary.t) :
  s ∈ wheelCycles positions →
  Summary.totalPositions s = length (groupOf (Summary.name s) positions)
  ∧ Summary.openPositions s
    = countStatus StatusOpen (groupOf (Summary.name s) positions)
      + countStatus StatusAssigned (groupOf (Summary.name s) positions)
  ∧ Summary.closedPositions s
    = countStatus StatusClosed (groupOf (Summary.name s) positions)
  ∧ Summary.totalPositions s = Summary.openPositions s + Summary.closedPositions s
  ∧ 0 < Summary.totalPositions s.
Proof.
  intros Hs. apply wheelCycles_elem_of_key in Hs as (k & p & Hp & Hk & ->).
  destruct (determineStatus_counts (cycleOfGroup k positions)) as (Ht & Ho & Hc & _).
  destruct (determineStatus_totals (cycleOfGroup k positions)) as (Hn & _).
  cbn [summarize Summary.name Summary.totalPositions Summary.openPositions
       Summary.closedPositions].
  rewrite Ht, Ho, Hc, Hn, cycleOfGroup_name.
  destruct (fold_accrue_counts (groupOf k positions) (Cycle.new k)) as (Et & Eo & Ec).
  fold (cycleOfGroup k positions) in Et, Eo, Ec. cbn in Et, Eo, Ec.
  rewrite Et, Eo, Ec.
  assert (Hin : p ∈ groupOf k positions).
  { unfold groupOf. apply elem_of_List_filter. split; [exact Hp|].
    now apply String.eqb_eq. }
  assert (Hpart : ∀ g, length g = countStatus StatusOpen g
                       + countStatus StatusAssigned g + countStatus StatusClosed g).
  { induction g as [|q r IH]; [reflexivity|]. rewrite !countStatus_cons. cbn [length].
    rewrite IH. destruct (status q); repeat case_bool_decide; try congruence; lia. }
  repeat split; try lia.
  - apply Hpart.
  - destruct (groupOf k positions); [inversion Hin|cbn; lia].
Qed.

Lemma wheelCycles_counts_witness :
  ∃ s, s ∈ wheelCycles openAndClosed
       ∧ Summary.totalPositions s = 2
       ∧ Summary.totalPositions s
         = length (groupOf (Summary.name s) openAndClosed).
Proof.
  eexists. split; [vm_compute; apply list_elem_of_here|].
  split; [reflexivity|].
  apply (wheelCycles_counts openAndClosed). vm_compute. apply list_elem_of_here.
Defined.

(** ** Rounded totals *)

Lemma Qfloor_bounds (x : Q) :
  (inject_Z (Qfloor x) <= x)%Q ∧ (x < inject_Z (Qfloor x) + 1)%Q.
Proof.
  split; [apply Qfloor_le|].
  pose proof (Qlt_floor x) as H. rewrite inject_Z_plus in H. exact H.
Qed.

(** Rounding a sum to cents differs from the sum of the rounded parts by
    at most one cent. *)
Lemma round2_sum_within_cent (a b : Q) :
  (- (1 # 100) <= round2 (a + b) - (round2 a + round2 b))%Q
  ∧ (round2 (a + b) - (round2 a + round2 b) <= 1 # 100)%Q.
Proof.
  unfold round2, Math_round.
  destruct (Qfloor_bounds ((a + b) * 100 + (1 # 2))) as [T1 T2].
  destruct (Qfloor_bounds (a * 100 + (1 # 2))) as [A1 A2].
  destruct (Qfloor_bounds (b * 100 + (1 # 2))) as [B1 B2].
  set (T := Qfloor ((a + b) * 100 + (1 # 2))) in *.
  set (A := Qfloor (a * 100 + (1 # 2))) in *.
  set (B := Qfloor (b * 100 + (1 # 2))) in *.
  assert (Hup : (T + - (A + B) < 2)%Z).
  { rewrite Zlt_Qlt, !inject_Z_plus, inject_Z_opp, inject_Z_plus.
    change (inject_Z 2) with 2%Q. lra. }
  assert (Hlow : (-2 < T + - (A + B))%Z).
  { rewrite Zlt_Qlt, !inject_Z_plus, inject_Z_opp, inject_Z_plus.
    change (inject_Z (-2)) with (-2)%Q. lra. }
  assert (Hle : (T + - (A + B) <= 1)%Z) by lia.
  assert (Hge : (-1 <= T + - (A + B))%Z) by lia.
  rewrite Zle_Qle, !inject_Z_plus, inject_Z_opp, inject_Z_plus in Hle, Hge.
  change (inject_Z 1) with 1%Q in Hle. change (inject_Z (-1)) with (-1)%Q in Hge.
  rewrite !Qdiv_100. split; lra.
Qed.

Lemma round2_withinCent (total a b : Q) :
  total == a + b → withinCent (round2 total) (round2 a + round2 b).
Proof.
  intros E. rewrite (round2_comp _ _ E). apply round2_sum_within_cent.
Qed.

Lemma accrue_totalPL (c : Cycle.t) (p : OptionPosition) :
  Cycle.totalPL (accrue c p)
  = (Cycle.realizedPL (accrue c p) + Cycle.unrealizedPL (accrue c p))%Q.
Proof. unfold accrue. now destruct (status p). Qed.

Lemma fold_accrue_totalPL (group : list OptionPosition) (c : Cycle.t) :
  Cycle.totalPL c = (Cycle.realizedPL c + Cycle.unrealizedPL c)%Q →
  Cycle.totalPL (fold_left accrue group c)
  = (Cycle.realizedPL (fold_left accrue group c)
     + Cycle.unrealizedPL (fold_left accrue group c))%Q.
Proof.
  revert c. induction group as [|p r IH]; intros c Hc; [exact Hc|].
  cbn [fold_left]. apply IH, accrue_totalPL.
Qed.

(** In every cycle the displayed total P/L is the unrounded realized plus
    unrealized P/L rounded to cents, so it is within one cent of the sum
    of the two displayed parts. *)
Theorem wheelCycles_total_within_cent (positions : list OptionPosition)
    (s : Summary.t) :
  s ∈ wheelCycles positions →
  withinCent (Summary.totalPL s) (Summary.realizedPL s + Summary.unrealizedPL s).
Proof.
  intros Hs. apply wheelCycles_elem_of_key in Hs as (k & p & Hp & Hk & ->).
  destruct (determineStatus_counts (cycleOfGroup k positions)) as (_ & _ & _ & Ht).
  destruct (determineStatus_totals (cycleOfGroup k positions)) as (_ & Hr & Hu).
  cbn [summarize Summary.totalPL Summary.realizedPL Summary.unrealizedPL].
  rewrite Ht, Hr, Hu. apply round2_withinCent.
  unfold cycleOfGroup. assert (Hin : p ∈ groupOf k positions).
  { unfold groupOf. apply elem_of_List_filter. split; [exact Hp|].
    now apply String.eqb_eq. }
  destruct (groupOf k positions) as [|q r]; [inversion Hin|].
  cbn [fold_left]. rewrite fold_accrue_totalPL by apply accrue_totalPL.
  reflexivity.
Qed.

Lemma wheelCycles_total_within_cent_witness :
  ∃ s, s ∈ wheelCycles openAndClosed
       ∧ withinCent (Summary.totalPL s)
           (Summary.realizedPL s + Summary.unrealizedPL s).
Proof.
  eexists. split; [vm_compute; apply list_elem_of_here|].
  apply (wheelCycles_total_within_cent openAndClosed).
  vm_compute. apply list_elem_of_here.
Defined.

(** ** Portfolio metrics: parts and totals *)

Lemma add_if_truthy_plus (total : Q) (x : option Q) :
  add_if_truthy total x == total + orZero x.
Proof.
  unfold add_if_truthy. destruct x as [v|]; cbn; [|ring].
  destruct (nonzero v) eqn:E; [reflexivity|].
  apply nonzero_false in E. rewrite E. ring.
Qed.

Lemma metricsStep_realized_parts (prices : gmap string Q) (m : Metrics.t)
    (p : OptionPosition) :
  consistentPL p →
  Metrics.realizedPL m == Metrics.premiumRealizedPL m + Metrics.stockRealizedPL m →
  Metrics.realizedPL (metricsStep prices m p)
  == Metrics.premiumRealizedPL (metricsStep prices m p)
     + Metrics.stockRealizedPL (metricsStep prices m p).
Proof.
  unfold consistentPL, metricsStep. intros Hp Hm.
  destruct (status p); cbn.
  - exact Hm.
  - destruct Hp as (t & a & b & -> & -> & -> & E).
    rewrite !add_if_truthy_plus. cbn. rewrite Hm, E. ring.
  - rewrite !add_if_truthy_plus. rewrite Hm. ring.
Qed.

(** When every stored position has consistent P/L fields, as the create
    and update routes write them, the realized total of the snapshot is
    the rounded sum of the unrounded premium and stock parts, so it is
    within one cent of the two displayed parts added up; the unrealized
    total is within one cent of its two parts for any positions. *)
Theorem metrics_totals_within_cent (prices : gmap string Q)
    (positions : list OptionPosition) :
  (∀ p, p ∈ positions → consistentPL p) →
  withinCent (Metrics.realizedPL (portfolioMetrics prices positions))
    (Metrics.premiumRealizedPL (portfolioMetrics prices positions)
     + Metrics.stockRealizedPL (portfolioMetrics prices positions))
  ∧ withinCent (Metrics.unrealizedPL (portfolioMetrics prices positions))
      (Metrics.premiumUnrealizedPL (portfolioMetrics prices positions)
       + Metrics.stockUnrealizedPL (portfolioMetrics prices positions)).
Proof.
  intros Hall. unfold portfolioMetrics.
  cbn [Metrics.realizedPL Metrics.premiumRealizedPL Metrics.stockRealizedPL
       Metrics.unrealizedPL Metrics.premiumUnrealizedPL Metrics.stockUnrealizedPL].
  split; [|apply round2_withinCent; reflexivity].
  apply round2_withinCent.
  assert (H : ∀ m,
    Metrics.realizedPL m == Metrics.premiumRealizedPL m + Metrics.stockRealizedPL m →
    Metrics.realizedPL (fold_left (metricsStep prices) positions m)
    == Metrics.premiumRealizedPL (fold_left (metricsStep prices) positions m)
       + Metrics.stockRealizedPL (fold_left (metricsStep prices) positions m)).
  { induction positions as [|p r IH]; intros m Hm; [exact Hm|].
    cbn [fold_left]. apply IH.
    - intros q Hq. apply Hall. now apply list_elem_of_further.
    - apply metricsStep_realized_parts; [apply Hall, list_elem_of_here|exact Hm]. }
  apply H. reflexivity.
Qed.

Lemma metrics_totals_within_cent_witness :
  withinCent (Metrics.realizedPL (portfolioMetrics ∅ [closedPutRow; assignedPutRow]))
    (Metrics.premiumRealizedPL (portfolioMetrics ∅ [closedPutRow; assignedPutRow])
     + Metrics.stockRealizedPL (portfolioMetrics ∅ [closedPutRow; assignedPutRow])).
Proof.
  assert (Hall : ∀ p, p ∈ [closedPutRow; assignedPutRow] → consistentPL p).
  { intros p Hp. apply elem_of_cons in Hp as [-> | Hp];
      [|apply list_elem_of_singleton in Hp as ->];
      unfold consistentPL; cbn; eexists _, _, _; repeat split. }
  exact (proj1 (metrics_totals_within_cent ∅ [closedPutRow; assignedPutRow] Hall)).
Defined.

(** ** Portfolio metrics: live prices *)

Lemma metricsStep_sameApart (prices prices' : gmap string Q) (m1 m2 : Metrics.t)
    (p : OptionPosition) :
  sameApartFromStockGain m1 m2 →
  sameApartFromStockGain (metricsStep prices m1 p) (metricsStep prices' m2 p).
Proof.
  unfold sameApartFromStockGain, metricsStep.
  intros (H1 & H2 & H3 & H4 & H5 & H6 & H7 & H8 & H9 & H10 & H11 & H12).
  destruct (status p); cbn; rewrite ?H5, ?H6, ?H7, ?H8, ?H9, ?H10, ?H11, ?H12;
    repeat split; assumption.
Qed.

Lemma metricsStep_not_assigned (prices prices' : gmap string Q) (m : Metrics.t)
    (p : OptionPosition) :
  status p ≠ StatusAssigned → metricsStep prices m p = metricsStep prices' m p.
Proof. intros Hp. unfold metricsStep. now destruct (status p). Qed.

(** Live prices move nothing but the unrealized stock gain and the
    unrealized total: every other figure of the snapshot is the same under
    any two price maps, and when no position is assigned the whole
    snapshot is. *)
Theorem prices_only_move_stock_gain (prices prices' : gmap string Q)
    (positions : list OptionPosition) :
  sameApartFromStockGain (portfolioMetrics prices positions)
                         (portfolioMetrics prices' positions)
  ∧ ((∀ p, p ∈ positions → status p ≠ StatusAssigned) →
     portfolioMetrics prices positions = portfolioMetrics prices' positions).
Proof.
  split.
  - unfold portfolioMetrics.
    match goal with
    | |- context [fold_left (metricsStep prices) positions ?init] =>
        assert (H : sameApartFromStockGain
                      (fold_left (metricsStep prices) positions init)
                      (fold_left (metricsStep prices') positions init))
    end.
    { match goal with |- context [fold_left _ _ ?init] =>
        assert (Hinit : sameApartFromStockGain init init)
          by (unfold sameApartFromStockGain; repeat split);
        revert Hinit; generalize init at 1 3; generalize init end.
      induction positions as [|p r IH]; intros m2 m1 Hm; [exact Hm|].
      cbn [fold_left]. now apply IH, metricsStep_sameApart. }
    revert H.
    match goal with |- context [fold_left (metricsStep prices) positions ?init] =>
      generalize (fold_left (metricsStep prices) positions init);
      generalize (fold_left (metricsStep prices') positions init) end.
    intros m2 m1. unfold sameApartFromStockGain. cbn.
    intros (H1 & H2 & H3 & H4 & H5 & H6 & H7 & H8 & H9 & H10 & H11 & H12).
    rewrite H5, H6, H7, H8, H9, H10, H11, H12. repeat split; assumption.
  - intros Hnone. unfold portfolioMetrics.
    match goal with
    | |- context [fold_left (metricsStep prices) positions ?init] =>
        assert (H : fold_left (metricsStep prices) positions init
                    = fold_left (metricsStep prices') positions init)
    end.
    { match goal with |- context [fold_left _ _ ?init] => generalize init end.
      induction positions as [|p r IH]; intros m; [reflexivity|].
      cbn [fold_left].
      rewrite (metricsStep_not_assigned prices prices')
        by apply Hnone, list_elem_of_here.
      apply IH. intros q Hq. now apply Hnone, list_elem_of_further. }
    now rewrite H.
Qed.

Lemma prices_only_move_stock_gain_witness :
  portfolioMetrics threePrices threePuts = portfolioMetrics ∅ threePuts.
Proof.
  apply (proj2 (prices_only_move_stock_gain threePrices ∅ threePuts)).
  intros p Hp. repeat (apply elem_of_cons in Hp as [-> | Hp]);
    [now vm_compute..|inversion Hp].
Defined.

(** ** The two generations of the metrics route *)

Lemma legacyMetricsStep_agrees (prices : gmap string Q) (old : LegacyMetrics.t)
    (new : Metrics.t) (p : OptionPosition) :
  legacyAgrees old new →
  legacyAgrees (legacyMetricsStep old p) (metricsStep prices new p)
  ∧ (status p ≠ StatusAssigned →
     LegacyMetrics.realizedPL old = Metrics.realizedPL new →
     LegacyMetrics.realizedPL (legacyMetricsStep old p)
     = Metrics.realizedPL (metricsStep prices new p)).
Proof.
  unfold legacyAgrees, legacyMetricsStep, metricsStep.
  intros (H1 & H2 & H3 & H4 & H5 & H6 & H7 & H8 & H9).
  destruct (status p); cbn; rewrite ?H5, ?H6, ?H7, ?H8, ?H9;
    (split; [repeat split; assumption|]); intros Hp Hr;
    try contradiction; now rewrite ?Hr.
Qed.

Lemma legacy_fold_agrees (prices : gmap string Q) (positions : list OptionPosition)
    (old : LegacyMetrics.t) (new : Metrics.t) :
  legacyAgrees old new →
  legacyAgrees (fold_left legacyMetricsStep positions old)
               (fold_left (metricsStep prices) positions new)
  ∧ ((∀ p, p ∈ positions → status p ≠ StatusAssigned) →
     LegacyMetrics.realizedPL old = Metrics.realizedPL new →
     LegacyMetrics.realizedPL (fold_left legacyMetricsStep positions old)
     = Metrics.realizedPL (fold_left (metricsStep prices) positions new)).
Proof.
  revert old new. induction positions as [|p r IH]; intros old new H.
  - split; [exact H|now intros _ Hr].
  - cbn [fold_left].
    destruct (legacyMetricsStep_agrees prices old new p H) as [Hstep Hreal].
    destruct (IH _ _ Hstep) as [IH1 IH2]. split; [exact IH1|].
    intros Hnone Hr. apply IH2.
    + intros q Hq. now apply Hnone, list_elem_of_further.
    + apply Hreal; [apply Hnone, list_elem_of_here|exact Hr].
Qed.

Lemma fold_metricsStep_no_stock (prices : gmap string Q)
    (positions : list OptionPosition) (m : Metrics.t) :
  (∀ p, p ∈ positions → status p ≠ StatusAssigned) →
  Metrics.stockUnrealizedPL (fold_left (metricsStep prices) positions m)
  = Metrics.stockUnrealizedPL m.
Proof.
  revert m. induction positions as [|p r IH]; intros m Hnone; [reflexivity|].
  cbn [fold_left].
  rewrite IH by (intros q Hq; now apply Hnone, list_elem_of_further).
  unfold metricsStep. specialize (Hnone p (list_elem_of_here _ _)).
  now destruct (status p).
Qed.

(** The earlier metrics route reports the same counts, premium collected,
    capital allocated and fees as the current one, under any prices; its
    unrealized total is the current unrealized premium; its realized total
    is the current one when no position is assigned. *)
Theorem legacy_metrics_agree (prices : gmap string Q)
    (positions : list OptionPosition) :
  legacyAgrees (portfolioMetrics_legacy positions)
               (portfolioMetrics prices positions)
  ∧ ((∀ p, p ∈ positions → status p ≠ StatusAssigned) →
     LegacyMetrics.realizedPL (portfolioMetrics_legacy positions)
     = Metrics.realizedPL (portfolioMetrics prices positions)
     ∧ LegacyMetrics.unrealizedPL (portfolioMetrics_legacy positions)
       = Metrics.unrealizedPL (portfolioMetrics prices positions)).
Proof.
  unfold portfolioMetrics_legacy, portfolioMetrics.
  match goal with
  | |- context [fold_left legacyMetricsStep positions ?o] =>
      match goal with
      | |- context [fold_left (metricsStep prices) positions ?n] =>
          destruct (legacy_fold_agrees prices positions o n) as [Hagree Hreal];
          [unfold legacyAgrees; cbn; repeat split|];
          pose proof (fold_metricsStep_no_stock prices positions n) as Hstock;
          cbn [Metrics.stockUnrealizedPL] in Hstock;
          revert Hagree Hreal Hstock;
          generalize (fold_left legacyMetricsStep positions o);
          generalize (fold_left (metricsStep prices) positions n)
      end
  end.
  intros new old Hagree Hreal Hstock. unfold legacyAgrees in *. cbn.
  destruct Hagree as (H1 & H2 & H3 & H4 & H5 & H6 & H7 & H8 & H9).
  rewrite H5, H6, H7, H8, H9. split; [repeat split; assumption|].
  intros Hnone. rewrite (Hreal Hnone eq_refl), (Hstock Hnone).
  split; [reflexivity|]. apply round2_comp. ring.
Qed.

Lemma legacy_metrics_agree_witness :
  LegacyMetrics.realizedPL (portfolioMetrics_legacy openAndClosed)
  = Metrics.realizedPL (portfolioMetrics threePrices openAndClosed)
  ∧ LegacyMetrics.unrealizedPL (portfolioMetrics_legacy openAndClosed)
    = Metrics.unrealizedPL (portfolioMetrics threePrices openAndClosed).
Proof.
  apply (proj2 (legacy_metrics_agree threePrices openAndClosed)).
  intros p Hp. repeat (apply elem_of_cons in Hp as [-> | Hp]);
    [now vm_compute..|inversion Hp].
Defined.

(** ** Upper-case keys of the price map *)

Lemma upper_ascii_idem (c : ascii) : upper_ascii (upper_ascii c) = upper_ascii c.
Proof. destruct c as [[] [] [] [] [] [] [] []]; reflexivity. Qed.

Lemma toUpperCase_idem (s : string) : toUpperCase (toUpperCase s) = toUpperCase s.
Proof.
  induction s as [|c r IH]; [reflexivity|].
  cbn. now rewrite upper_ascii_idem, IH.
Qed.

Lemma collectAlerts_ext (positions : list OptionPosition)
    (stockPrices stockPrices' : gmap string Q)
    (optionPrices : option (gmap string Q)) (config : StrategyConfig) :
  (∀ p : OptionPosition, p ∈ positions →
     stockPrices !! toUpperCase (stockTicker p)
     = stockPrices' !! toUpperCase (stockTicker p)) →
  collectAlerts positions stockPrices optionPrices config
  = collectAlerts positions stockPrices' optionPrices config.
Proof.
  unfold collectAlerts. generalize (@nil Alert.t).
  induction positions as [|p r IH]; intros acc H; [reflexivity|].
  cbn [fold_left]. rewrite (H p) by apply list_elem_of_here.
  apply IH. intros q Hq. now apply H, list_elem_of_further.
Qed.

Lemma stockUnrealized_ext (prices prices' : gmap string Q) (p : OptionPosition) :
  (ownsStock p = true →
   prices !! toUpperCase (stockTicker p) = prices' !! toUpperCase (stockTicker p)) →
  stockUnrealized prices p = stockUnrealized prices' p.
Proof.
  intros H. unfold stockUnrealized.
  destruct (stockCostBasis p) as [basis|]; [|reflexivity].
  destruct (stockQuantity p) as [quantity|]; [|reflexivity].
  destruct (ownsStock p); [|reflexivity].
  now rewrite H.
Qed.

Lemma portfolioMetrics_ext (prices prices' : gmap string Q)
    (positions : list OptionPosition) :
  (∀ p : OptionPosition, p ∈ positions → ownsStock p = true →
     prices !! toUpperCase (stockTicker p) = prices' !! toUpperCase (stockTicker p)) →
  portfolioMetrics prices positions = portfolioMetrics prices' positions.
Proof.
  intros H. unfold portfolioMetrics.
  match goal with
  | |- context [fold_left (metricsStep prices) positions ?m] =>
      assert (Hfold : fold_left (metricsStep prices) positions m
                      = fold_left (metricsStep prices') positions m);
      [generalize m|cbv zeta; now rewrite Hfold]
  end.
  induction positions as [|p r IH]; intros m; [reflexivity|].
  cbn [fold_left]. unfold metricsStep at 2 4.
  rewrite (stockUnrealized_ext prices prices' p)
    by (apply H, list_elem_of_here).
  apply IH. intros q Hq. now apply H, list_elem_of_further.
Qed.

(** Prices are read under the upper-case form of a ticker only: two price
    maps that agree on every key that is its own upper-case form give the
    same alerts and the same portfolio snapshot. *)
Theorem only_uppercase_keys_are_read (prices prices' : gmap string Q)
    (positions : list OptionPosition)
    (optionPrices : option (gmap string Q)) (config : StrategyConfig) :
  (∀ key, toUpperCase key = key → prices !! key = prices' !! key) →
  calculateAllAlerts positions prices optionPrices config
  = calculateAllAlerts positions prices' optionPrices config
  ∧ portfolioMetrics prices positions = portfolioMetrics prices' positions.
Proof.
  intros H. split.
  - unfold calculateAllAlerts. f_equal. apply collectAlerts_ext.
    intros p _. apply H, toUpperCase_idem.
  - apply portfolioMetrics_ext. intros p _ _. apply H, toUpperCase_idem.
Qed.

Lemma only_uppercase_keys_are_read_witness :
  calculateAllAlerts threePuts (<["aaa" := 104%Q]> threePrices) None
    STANDARD_STRATEGY
  = calculateAllAlerts threePuts threePrices None STANDARD_STRATEGY
  ∧ portfolioMetrics (<["aaa" := 104%Q]> threePrices) threePuts
    = portfolioMetrics threePrices threePuts.
Proof.
  apply (only_uppercase_keys_are_read (<["aaa" := 104%Q]> threePrices)
           threePrices threePuts None STANDARD_STRATEGY).
  intros key Hkey. apply lookup_insert_ne. intros <-. discriminate Hkey.
Defined.

(** ** The price service *)

Lemma fetchPrice_fst (quote : string → QuoteResult) (now : Z) (ticker : string)
    (c c' : gmap string PriceCache.t) :
  (fetchPrice quote now ticker c).1 = (fetchPrice quote now ticker c').1.
Proof.
  unfold fetchPrice. destruct (quote _) as [| |[price|]]; try reflexivity.
  now destruct (nonzero price).
Qed.

Lemma getStockPrice_upper (quote : string → QuoteResult) (now : Z)
    (ticker ticker' : string) (c : gmap string PriceCache.t) :
  toUpperCase ticker = toUpperCase ticker' →
  getStockPrice quote now ticker c = getStockPrice quote now ticker' c.
Proof.
  intros H. unfold getStockPrice, cachedPrice, fetchPrice. now rewrite H.
Qed.

(** A price that [getStockPrice] returns sits in the cache afterwards, and
    any later call for the same symbol, in whatever letter case, returns it
    without asking the quote service for as long as the entry is less than
    five minutes old. *)
Theorem returned_price_is_served_again (quote : string → QuoteResult) (now : Z)
    (ticker : string) (priceCache priceCache' : gmap string PriceCache.t) (v : Q) :
  getStockPrice quote now ticker priceCache = (Some v, priceCache') →
  ∃ e, priceCache' !! toUpperCase ticker = Some e
       ∧ PriceCache.price e = v
       ∧ (now - PriceCache.timestamp e < CACHE_DURATION)%Z
       ∧ ∀ (quote' : string → QuoteResult) (now' : Z) (ticker' : string),
           toUpperCase ticker' = toUpperCase ticker →
           (now' - PriceCache.timestamp e < CACHE_DURATION)%Z →
           getStockPrice quote' now' ticker' priceCache' = (Some v, priceCache').
Proof.
  unfold getStockPrice.
  destruct (cachedPrice now ticker priceCache) as [p|] eqn:Hc.
  - intros [= <- <-]. unfold cachedPrice in Hc.
    destruct (priceCache !! toUpperCase ticker) as [e|] eqn:He; [|discriminate].
    destruct (Z.ltb_spec (now - PriceCache.timestamp e) CACHE_DURATION) as [Hlt|];
      [|discriminate].
    injection Hc as Hp. exists e. repeat split; try assumption.
    intros quote' now' ticker' Ht Hn. unfold cachedPrice. rewrite Ht, He.
    apply Z.ltb_lt in Hn. now rewrite Hn, Hp.
  - unfold fetchPrice.
    destruct (quote (toUpperCase ticker)) as [| |[price|]]; try discriminate.
    destruct (nonzero price); [|discriminate]. intros [= <- <-].
    eexists. rewrite lookup_insert_eq. split; [reflexivity|]. cbn.
    split; [reflexivity|]. split; [unfold CACHE_DURATION; lia|].
    intros quote' now' ticker' Ht Hn. unfold cachedPrice.
    rewrite Ht, lookup_insert_eq. cbn. apply Z.ltb_lt in Hn. now rewrite Hn.
Qed.

Lemma returned_price_is_served_again_witness :
  ∃ e, <["AAPL" := {| PriceCache.price := 150%Q; PriceCache.timestamp := sampleNow |}]>
         (∅ : gmap string PriceCache.t) !! toUpperCase "aapl" = Some e
       ∧ PriceCache.price e = 150%Q
       ∧ (sampleNow - PriceCache.timestamp e < CACHE_DURATION)%Z
       ∧ ∀ (quote' : string → QuoteResult) (now' : Z) (ticker' : string),
           toUpperCase ticker' = toUpperCase "aapl" →
           (now' - PriceCache.timestamp e < CACHE_DURATION)%Z →
           getStockPrice quote' now' ticker'
             (<["AAPL" := {| PriceCache.price := 150%Q;
                             PriceCache.timestamp := sampleNow |}]> ∅)
           = (Some 150%Q,
              <["AAPL" := {| PriceCache.price := 150%Q;
                             PriceCache.timestamp := sampleNow |}]> ∅).
Proof.
  apply (returned_price_is_served_again quoteAAPL sampleNow "aapl" ∅).
  reflexivity.
Defined.

(** The service never reports or caches a price of zero: a cache free of
    zero prices stays so, a returned price is non-zero and is either the
    quote service's answer or a cached price less than five minutes old,
    and a call that returns no price leaves the cache as it was. *)
Theorem price_service_never_zero (quote : string → QuoteResult) (now : Z)
    (ticker : string) (priceCache : gmap string PriceCache.t) :
  noZeroCached priceCache →
  noZeroCached (getStockPrice quote now ticker priceCache).2
  ∧ (∀ v, (getStockPrice quote now ticker priceCache).1 = Some v →
       ¬ (v == 0)%Q
       ∧ (quote (toUpperCase ticker) = QuoteOf (Some v)
          ∨ cachedPrice now ticker priceCache = Some v))
  ∧ ((getStockPrice quote now ticker priceCache).1 = None →
     (getStockPrice quote now ticker priceCache).2 = priceCache).
Proof.
  intros Hinv. unfold getStockPrice.
  destruct (cachedPrice now ticker priceCache) as [p|] eqn:Hc.
  - cbn. split; [exact Hinv|]. split; [|discriminate].
    intros v [= <-]. split; [|now right].
    unfold cachedPrice in Hc.
    destruct (priceCache !! toUpperCase ticker) as [e|] eqn:He; [|discriminate].
    destruct (_ <? _)%Z; [|discriminate]. injection Hc as <-.
    exact (Hinv _ _ He).
  - unfold fetchPrice.
    destruct (quote (toUpperCase ticker)) as [| |[price|]];
      try (cbn; split; [exact Hinv|split; [discriminate|reflexivity]]).
    destruct (nonzero price) eqn:Hnz;
      [|cbn; split; [exact Hinv|split; [discriminate|reflexivity]]].
    cbn. apply nonzero_true in Hnz. split; [|split; [|discriminate]].
    + intros k e. destruct (decide (toUpperCase ticker = k)) as [<- | Hne].
      * rewrite lookup_insert_eq. now intros [= <-].
      * rewrite lookup_insert_ne by exact Hne. apply Hinv.
    + intros v [= <-]. split; [exact Hnz|now left].
Qed.

Lemma price_service_never_zero_witness :
  noZeroCached (getStockPrice quoteAAPL sampleNow "aapl" ∅).2
  ∧ (∀ v, (getStockPrice quoteAAPL sampleNow "aapl" ∅).1 = Some v →
       ¬ (v == 0)%Q
       ∧ (quoteAAPL (toUpperCase "aapl") = QuoteOf (Some v)
          ∨ cachedPrice sampleNow "aapl" ∅ = Some v))
  ∧ ((getStockPrice quoteAAPL sampleNow "aapl" ∅).1 = None →
     (getStockPrice quoteAAPL sampleNow "aapl" ∅).2 = ∅).
Proof.
  apply (price_service_never_zero quoteAAPL sampleNow "aapl" ∅).
  intros k e He. rewrite lookup_empty in He. discriminate He.
Defined.

Lemma settleAll_results (quote : string → QuoteResult) (now : Z)
    (priceCache : gmap string PriceCache.t) (tickers : list string)
    (acc : list (string * option Q)) (c : gmap string PriceCache.t) :
  (fold_left
     (λ '(results, priceCache) '(ticker, cached),
        match cached with
        | Some price => (results ++ [(ticker, Some price)], priceCache)
        | None =>
            let '(price, priceCache) := fetchPrice quote now ticker priceCache in
            (results ++ [(ticker, price)], priceCache)
        end)
     (map (λ ticker, (ticker, cachedPrice now ticker priceCache)) tickers)
     (acc, c)).1
  = acc ++ map (λ ticker, (ticker, (getStockPrice quote now ticker priceCache).1))
             tickers.
Proof.
  revert acc c. induction tickers as [|t r IH]; intros acc c.
  - cbn. now rewrite app_nil_r.
  - assert (Hg : (getStockPrice quote now t priceCache).1
                 = match cachedPrice now t priceCache with
                   | Some p => Some p
                   | None => (fetchPrice quote now t c).1
                   end).
    { unfold getStockPrice. destruct (cachedPrice now t priceCache);
        [reflexivity|apply fetchPrice_fst]. }
    cbn [map fold_left]. rewrite Hg.
    destruct (cachedPrice now t priceCache) as [p|].
    + rewrite IH, <- app_assoc. reflexivity.
    + destruct (fetchPrice quote now t c) as [price c'].
      rewrite IH, <- app_assoc. reflexivity.
Qed.

Section CollectPrices.
Context {V : Type}.
Variable g : string → option V.
Hypothesis g_upper : ∀ t t', toUpperCase t = toUpperCase t' → g t = g t'.

Let collect (l : list string) (acc : gmap string V) : gmap string V :=
  fold_left
    (λ prices '(ticker, price),
       match price with
       | Some price => <[toUpperCase ticker := price]> prices
       | None => prices
       end)
    (map (λ t, (t, g t)) l) acc.

Lemma collect_other (l : list string) (acc : gmap string V) (k : string) :
  k ∉ map toUpperCase l → collect l acc !! k = acc !! k.
Proof.
  unfold collect. revert acc. induction l as [|x r IH]; intros acc Hk; [reflexivity|].
  cbn [map fold_left]. cbn [map] in Hk. apply not_elem_of_cons in Hk as [Hx Hr].
  rewrite IH by exact Hr. destruct (g x); [|reflexivity].
  now apply lookup_insert_ne.
Qed.

Lemma collect_lookup (l : list string) (acc : gmap string V) (t : string) :
  t ∈ l →
  collect l acc !! toUpperCase t
  = match g t with Some v => Some v | None => acc !! toUpperCase t end.
Proof.
  revert acc t. induction l as [|x r IH]; intros acc t Ht; [inversion Ht|].
  destruct (decide (toUpperCase t ∈ map toUpperCase r)) as [Hin | Hout].
  - apply list_elem_of_fmap in Hin as (t' & Heq & Ht').
    unfold collect. cbn [map fold_left]. fold (collect r).
    rewrite Heq, (g_upper t t' Heq).
    unfold collect in IH. rewrite (IH _ t' Ht').
    destruct (g t') as [v|] eqn:Hg; [reflexivity|].
    destruct (g x) as [w|] eqn:Hx; [|reflexivity].
    apply lookup_insert_ne. intros Hxt.
    rewrite (g_upper x t' Hxt) in Hx. congruence.
  - assert (t = x) as ->.
    { apply elem_of_cons in Ht as [Ht | Ht]; [exact Ht|].
      exfalso. apply Hout. apply list_elem_of_fmap. now exists t. }
    unfold collect. cbn [map fold_left].
    pose proof (collect_other r) as Hother. unfold collect in Hother.
    rewrite Hother by exact Hout.
    destruct (g x); [apply lookup_insert_eq|reflexivity].
Qed.
End CollectPrices.

Lemma getMultipleStockPrices_results (quote : string → QuoteResult) (now : Z)
    (tickers : list string) (priceCache : gmap string PriceCache.t) :
  (getMultipleStockPrices quote now tickers priceCache).1
  = collectPrices
      (map (λ t, (t, (getStockPrice quote now t priceCache).1)) tickers).
Proof.
  unfold getMultipleStockPrices, settleAll.
  pose proof (settleAll_results quote now priceCache tickers [] priceCache) as Hres.
  destruct (fold_left _ _ _) as [results c'] in Hres |- *.
  cbn [fst] in Hres |- *. now subst results.
Qed.

Lemma getMultipleStockPrices_lookup (quote : string → QuoteResult) (now : Z)
    (tickers : list string) (priceCache : gmap string PriceCache.t) (t : string) :
  t ∈ tickers →
  (getMultipleStockPrices quote now tickers priceCache).1 !! toUpperCase t
  = (getStockPrice quote now t priceCache).1.
Proof.
  intros Ht. rewrite getMultipleStockPrices_results. unfold collectPrices.
  pose proof (collect_lookup (λ t, (getStockPrice quote now t priceCache).1)
                (λ a b Hab, f_equal fst (getStockPrice_upper quote now a b priceCache Hab))
                tickers ∅ t Ht) as Hlook.
  cbv zeta beta in Hlook. rewrite Hlook.
  destruct (getStockPrice quote now t priceCache).1; [reflexivity|].
  apply lookup_empty.
Qed.

Lemma getMultipleStockPrices_other (quote : string → QuoteResult) (now : Z)
    (tickers : list string) (priceCache : gmap string PriceCache.t) (k : string) :
  k ∉ map toUpperCase tickers →
  (getMultipleStockPrices quote now tickers priceCache).1 !! k = None.
Proof.
  intros Hk. rewrite getMultipleStockPrices_results. unfold collectPrices.
  pose proof (collect_other (λ t, (getStockPrice quote now t priceCache).1)
                tickers ∅ k Hk) as Hother.
  cbv zeta beta in Hother. rewrite Hother. apply lookup_empty.
Qed.

(** A batch answers every ticker as a single call on the cache as it was
    before the batch would, under the upper-case form of the ticker, and
    holds no other key. *)
Theorem batch_prices (quote : string → QuoteResult) (now : Z)
    (tickers : list string) (priceCache : gmap string PriceCache.t) :
  (∀ t, t ∈ tickers →
     (getMultipleStockPrices quote now tickers priceCache).1 !! toUpperCase t
     = (getStockPrice quote now t priceCache).1)
  ∧ (∀ k, k ∉ map toUpperCase tickers →
       (getMultipleStockPrices quote now tickers priceCache).1 !! k = None).
Proof.
  split.
  - intros t Ht. now apply getMultipleStockPrices_lookup.
  - intros k Hk. now apply getMultipleStockPrices_other.
Qed.

(** What a batch writes to the cache for one ticker. *)
Lemma settleAll_cache (quote : string → QuoteResult) (now : Z)
    (priceCache : gmap string PriceCache.t) (tickers : list string)
    (acc : list (string * option Q)) (c : gmap string PriceCache.t) :
  (fold_left
     (λ '(results, priceCache) '(ticker, cached),
        match cached with
        | Some price => (results ++ [(ticker, Some price)], priceCache)
        | None =>
            let '(price, priceCache) := fetchPrice quote now ticker priceCache in
            (results ++ [(ticker, price)], priceCache)
        end)
     (map (λ ticker, (ticker, cachedPrice now ticker priceCache)) tickers)
     (acc, c)).2
  = fold_left
      (λ c '(ticker, entry),
         match entry with
         | Some entry => <[toUpperCase ticker := entry]> c
         | None => c
         end)
      (map (λ ticker,
              (ticker,
               match cachedPrice now ticker priceCache with
               | Some _ => None
               | None =>
                   match (fetchPrice quote now ticker priceCache).1 with
                   | Some price =>
                       Some {| PriceCache.price := price;
                               PriceCache.timestamp := now |}
                   | None => None
                   end
               end)) tickers)
      c.
Proof.
  revert acc c. induction tickers as [|t r IH]; intros acc c; [reflexivity|].
  cbn [map fold_left].
  destruct (cachedPrice now t priceCache) as [p|]; [apply IH|].
  rewrite (fetchPrice_fst quote now t priceCache c).
  assert (Hsnd : (fetchPrice quote now t c).2
                 = match (fetchPrice quote now t c).1 with
                   | Some price =>
                       <[toUpperCase t := {| PriceCache.price := price;
                                             PriceCache.timestamp := now |}]> c
                   | None => c
                   end).
  { unfold fetchPrice. destruct (quote _) as [| |[price|]]; try reflexivity.
    now destruct (nonzero price). }
  destruct (fetchPrice quote now t c) as [price c']. cbn [fst snd] in Hsnd |- *.
  subst c'. rewrite IH. now destruct price.
Qed.

(** Every price a batch returns is in the cache afterwards, so that a later
    call for the same symbol returns it without asking the quote service
    while the entry is less than five minutes old. *)
Theorem batch_prices_are_cached (quote : string → QuoteResult) (now : Z)
    (tickers : list string) (priceCache : gmap string PriceCache.t)
    (t : string) (v : Q) :
  t ∈ tickers →
  (getMultipleStockPrices quote now tickers priceCache).1 !! toUpperCase t = Some v →
  ∃ e, (getMultipleStockPrices quote now tickers priceCache).2 !! toUpperCase t
       = Some e
       ∧ PriceCache.price e = v
       ∧ (now - PriceCache.timestamp e < CACHE_DURATION)%Z
       ∧ ∀ (quote' : string → QuoteResult) (now' : Z) (ticker' : string),
           toUpperCase ticker' = toUpperCase t →
           (now' - PriceCache.timestamp e < CACHE_DURATION)%Z →
           (getStockPrice quote' now' ticker'
              (getMultipleStockPrices quote now tickers priceCache).2).1
           = Some v.
Proof.
  intros Ht Hv.
  rewrite (getMultipleStockPrices_lookup quote now tickers priceCache t Ht) in Hv.
  assert (Hcache : (getMultipleStockPrices quote now tickers priceCache).2
                    !! toUpperCase t
                   = match cachedPrice now t priceCache with
                     | Some _ => priceCache !! toUpperCase t
                     | None => Some {| PriceCache.price := v;
                                       PriceCache.timestamp := now |}
                     end).
  { unfold getMultipleStockPrices, settleAll.
    pose proof (settleAll_cache quote now priceCache tickers [] priceCache) as Hc.
    destruct (fold_left _ _ _) as [results c'] in Hc |- *.
    cbn [snd] in Hc |- *. subst c'.
    match goal with
    | |- fold_left _ (map (λ ticker, (ticker, ?body)) tickers) _ !! _ = _ =>
        pose proof (collect_lookup (λ ticker, body)) as Hlook
    end.
    cbv zeta beta in Hlook. rewrite Hlook; [|clear Hlook|exact Ht].
    - unfold getStockPrice in Hv.
      destruct (cachedPrice now t priceCache); [reflexivity|].
      rewrite Hv. reflexivity.
    - intros a b Hab. unfold cachedPrice, fetchPrice. now rewrite Hab. }
  assert (He : ∃ e, (getMultipleStockPrices quote now tickers priceCache).2
                      !! toUpperCase t = Some e
                    ∧ PriceCache.price e = v
                    ∧ (now - PriceCache.timestamp e < CACHE_DURATION)%Z).
  { rewrite Hcache. unfold getStockPrice in Hv. unfold cachedPrice in *.
    destruct (priceCache !! toUpperCase t) as [e|] eqn:Hlook.
    - destruct (Z.ltb_spec (now - PriceCache.timestamp e) CACHE_DURATION).
      + exists e. cbn in Hv. injection Hv as Hv. now repeat split.
      + eexists. split; [reflexivity|]. cbn.
        split; [reflexivity|unfold CACHE_DURATION; lia].
    - eexists. split; [reflexivity|]. cbn.
      split; [reflexivity|unfold CACHE_DURATION; lia]. }
  destruct He as (e & He & Hp & Hfresh). exists e.
  repeat split; try assumption.
  intros quote' now' ticker' Hup Hn.
  unfold getStockPrice, cachedPrice. rewrite Hup, He.
  apply Z.ltb_lt in Hn. rewrite Hn. cbn. now rewrite Hp.
Qed.

Lemma batch_prices_are_cached_witness :
  ∃ e, (getMultipleStockPrices quoteAAPL sampleNow ["aapl"; "msft"] ∅).2
         !! toUpperCase "aapl" = Some e
       ∧ PriceCache.price e = 150%Q
       ∧ (sampleNow - PriceCache.timestamp e < CACHE_DURATION)%Z
       ∧ ∀ (quote' : string → QuoteResult) (now' : Z) (ticker' : string),
           toUpperCase ticker' = toUpperCase "aapl" →
           (now' - PriceCache.timestamp e < CACHE_DURATION)%Z →
           (getStockPrice quote' now' ticker'
              (getMultipleStockPrices quoteAAPL sampleNow ["aapl"; "msft"] ∅).2).1
           = Some 150%Q.
Proof.
  apply (batch_prices_are_cached quoteAAPL sampleNow ["aapl"; "msft"] ∅ "aapl").
  - apply list_elem_of_here.
  - reflexivity.
Defined.

(** ** The metrics route and the price service *)

Lemma Set_add_elem_of (s : list string) (x y : string) :
  y ∈ Set_add s x ↔ y ∈ s ∨ y = x.
Proof.
  unfold Set_add. destruct (includes s x) eqn:Hin.
  - apply includes_elem_of in Hin. split; [now left|]. now intros [H | ->].
  - rewrite elem_of_app, list_elem_of_singleton. reflexivity.
Qed.

Lemma stockTickers_elem_of (positions : list OptionPosition) (x : string) :
  x ∈ stockTickers positions
  ↔ ∃ p : OptionPosition, p ∈ positions ∧ ownsStock p = true
        ∧ stockTicker p ≠ EmptyString ∧ stockTicker p = x.
Proof.
  unfold stockTickers.
  assert (H : ∀ acc,
    x ∈ fold_left
          (λ stockTickers (position : OptionPosition),
             if ownsStock position && negb (String.eqb (stockTicker position) EmptyString)
             then Set_add stockTickers (stockTicker position)
             else stockTickers)
          positions acc
    ↔ x ∈ acc ∨ ∃ p : OptionPosition, p ∈ positions ∧ ownsStock p = true
                  ∧ stockTicker p ≠ EmptyString ∧ stockTicker p = x).
  { induction positions as [|p r IH]; intros acc.
    - cbn. split; [now left|]. intros [H | (p & Hp & _)]; [exact H|inversion Hp].
    - cbn [fold_left]. rewrite IH.
      destruct (ownsStock p) eqn:Hown; cbn [andb].
      + destruct (String.eqb_spec (stockTicker p) EmptyString) as [Hempty | Hne];
          cbn [negb].
        * split.
          -- intros [H | (q & Hq & Hrest)]; [now left|].
             right. exists q. split; [now apply list_elem_of_further|exact Hrest].
          -- intros [H | (q & Hq & Hqown & Hqne & Hqx)]; [now left|].
             apply elem_of_cons in Hq as [-> | Hq]; [contradiction|].
             right. now exists q.
        * rewrite Set_add_elem_of. split.
          -- intros [[H | ->] | (q & Hq & Hrest)].
             ++ now left.
             ++ right. exists p. split; [apply list_elem_of_here|now repeat split].
             ++ right. exists q. split; [now apply list_elem_of_further|exact Hrest].
          -- intros [H | (q & Hq & Hqown & Hqne & Hqx)]; [now left; left|].
             apply elem_of_cons in Hq as [-> | Hq]; [left; right; now symmetry|].
             right. now exists q.
      + split.
        * intros [H | (q & Hq & Hrest)]; [now left|].
          right. exists q. split; [now apply list_elem_of_further|exact Hrest].
        * intros [H | (q & Hq & Hqown & Hqne & Hqx)]; [now left|].
          apply elem_of_cons in Hq as [-> | Hq]; [congruence|].
          right. now exists q. }
  rewrite H. split; [intros [Hx | Hx]; [inversion Hx|exact Hx]|now right].
Qed.

Lemma GET_metrics_fst (quote : string → QuoteResult) (now : Z)
    (positions : list OptionPosition) (priceCache : gmap string PriceCache.t) :
  (GET_metrics quote now positions priceCache).1
  = portfolioMetrics
      (getMultipleStockPrices quote now (stockTickers positions) priceCache).1
      positions.
Proof.
  unfold GET_metrics.
  now destruct (getMultipleStockPrices quote now (stockTickers positions) priceCache).
Qed.

(** The metrics route prices every position that owns stock by its own
    ticker: when the stored tickers of such positions are not empty, the
    snapshot is the one computed from any price map that gives, for each
    of them, what a single call of the price service for its ticker
    returns. *)
Theorem metrics_route_prices_each_holding (quote : string → QuoteResult)
    (now : Z) (positions : list OptionPosition)
    (priceCache : gmap string PriceCache.t) (prices : gmap string Q) :
  (∀ p : OptionPosition, p ∈ positions → ownsStock p = true →
     stockTicker p ≠ EmptyString) →
  (∀ p : OptionPosition, p ∈ positions → ownsStock p = true →
     prices !! toUpperCase (stockTicker p)
     = (getStockPrice quote now (stockTicker p) priceCache).1) →
  (GET_metrics quote now positions priceCache).1
  = portfolioMetrics prices positions.
Proof.
  intros Hne Hprices. rewrite GET_metrics_fst. apply portfolioMetrics_ext.
  intros p Hp Hown. rewrite (Hprices p Hp Hown).
  apply getMultipleStockPrices_lookup.
  apply stockTickers_elem_of. exists p. repeat split; auto.
Qed.

Lemma metrics_route_prices_each_holding_witness :
  (GET_metrics quoteXYZ sampleNow [assignedPutRow; openPutRow] ∅).1
  = portfolioMetrics (<["XYZ" := 110%Q]> ∅) [assignedPutRow; openPutRow].
Proof.
  apply (metrics_route_prices_each_holding quoteXYZ sampleNow
           [assignedPutRow; openPutRow] ∅ (<["XYZ" := 110%Q]> ∅)).
  - intros p Hp _.
    repeat (apply elem_of_cons in Hp as [-> | Hp]); [discriminate..|inversion Hp].
  - intros p Hp Hown.
    repeat (apply elem_of_cons in Hp as [-> | Hp]);
      [reflexivity|discriminate Hown|inversion Hp].
Defined.

Lemma fold_metricsStep_empty (positions : list OptionPosition) (m : Metrics.t) :
  Metrics.stockUnrealizedPL (fold_left (metricsStep ∅) positions m)
  = Metrics.stockUnrealizedPL m.
Proof.
  revert m. induction positions as [|p r IH]; intros m; [reflexivity|].
  cbn [fold_left]. rewrite IH. unfold metricsStep.
  assert (Hnone : stockUnrealized ∅ p = None).
  { unfold stockUnrealized. rewrite lookup_empty.
    destruct (stockCostBasis p), (stockQuantity p); try reflexivity.
    now destruct (ownsStock p && _ && _). }
  rewrite Hnone. now destruct (status p).
Qed.

(** When the quote service has no usable answer and nothing is cached, the
    metrics route still reports, and reports what it would without any
    price: no unrealized gain on stock. *)
Theorem metrics_route_without_quotes (quote : string → QuoteResult) (now : Z)
    (positions : list OptionPosition) :
  (∀ symbol v, quote symbol = QuoteOf (Some v) → (v == 0)%Q) →
  (GET_metrics quote now positions ∅).1 = portfolioMetrics ∅ positions
  ∧ Metrics.stockUnrealizedPL (GET_metrics quote now positions ∅).1 == 0.
Proof.
  intros Hquote.
  assert (Heq : (GET_metrics quote now positions ∅).1
                = portfolioMetrics ∅ positions).
  { rewrite GET_metrics_fst. apply portfolioMetrics_ext. intros p _ _.
    rewrite lookup_empty.
    destruct (decide (toUpperCase (stockTicker p)
                      ∈ map toUpperCase (stockTickers positions))) as [Hin | Hout].
    - apply list_elem_of_fmap in Hin as (t & Heq & Ht). rewrite Heq.
      rewrite (getMultipleStockPrices_lookup quote now (stockTickers positions) ∅ t Ht).
      unfold getStockPrice, cachedPrice, fetchPrice. rewrite lookup_empty.
      destruct (quote (toUpperCase t)) as [| |[v|]] eqn:Hq; try reflexivity.
      apply Hquote, nonzero_false in Hq. now rewrite Hq.
    - now apply getMultipleStockPrices_other. }
  split; [exact Heq|]. rewrite Heq. unfold portfolioMetrics.
  cbv zeta. cbn [Metrics.stockUnrealizedPL].
  rewrite fold_metricsStep_empty. reflexivity.
Qed.

Lemma metrics_route_without_quotes_witness :
  (GET_metrics quoteDown sampleNow [assignedPutRow; openPutRow] ∅).1
  = portfolioMetrics ∅ [assignedPutRow; openPutRow]
  ∧ Metrics.stockUnrealizedPL
      (GET_metrics quoteDown sampleNow [assignedPutRow; openPutRow] ∅).1 == 0.
Proof.
  apply (metrics_route_without_quotes quoteDown sampleNow
           [assignedPutRow; openPutRow]).
  intros symbol v Hq. discriminate Hq.
Defined.

(** ** Stock holdings *)

Lemma Holdings_get_None (m : list (string * Holding.t)) (k : string) :
  Holdings_get m k = None ↔ k ∉ m.*1.
Proof.
  induction m as [|[k' h] r IH]; cbn.
  - split; [intros _ H; inversion H|reflexivity].
  - rewrite not_elem_of_cons. destruct (String.eqb_spec k' k) as [-> | Hne].
    + split; [discriminate|now intros [H _]].
    + rewrite IH. split; [intros H; split; [congruence|exact H]|now intros [_ H]].
Qed.

Lemma Holdings_update_keys (f : Holding.t → Holding.t) (k : string)
    (m : list (string * Holding.t)) :
  (Holdings_update f k m).*1 = m.*1.
Proof.
  induction m as [|[k' h] r IH]; [reflexivity|]. cbn.
  destruct (String.eqb k' k); cbn; [reflexivity|now rewrite IH].
Qed.





Lemma heldLot_fields (p : OptionPosition) :
  heldLot p = true →
  ∃ q b, stockQuantity p = Some q ∧ stockCostBasis p = Some b
         ∧ nonzero q = true ∧ nonzero b = true.
Proof.
  unfold heldLot, truthy. intros H. apply andb_true_iff in H as [Hq Hb].
  destruct (stockQuantity p) as [q|]; [|discriminate].
  destruct (stockCostBasis p) as [b|]; [|discriminate].
  now exists q, b.
Qed.

Lemma holdingsStep_not_held (m : list (string * Holding.t)) (p : OptionPosition) :
  heldLot p = false → holdingsStep m p = m.
Proof.
  unfold heldLot, truthy, holdingsStep. intros H.
  destruct (stockQuantity p) as [q|]; [|reflexivity].
  destruct (stockCostBasis p) as [b|]; [|reflexivity].
  now rewrite H.
Qed.




Lemma holdingsStep_keys (m : list (string * Holding.t)) (p : OptionPosition) :
  (holdingsStep m p).*1
  = if heldLot p && negb (bool_decide (stockTicker p ∈ m.*1))
    then m.*1 ++ [stockTicker p] else m.*1.
Proof.
  destruct (heldLot p) eqn:Hheld; cbn [andb].
  - destruct (heldLot_fields p Hheld) as (q & b & Hq & Hb & Hqnz & Hbnz).
    unfold holdingsStep. rewrite Hq, Hb, Hqnz, Hbnz. cbn [andb].
    destruct (Holdings_get m (stockTicker p)) as [existing|] eqn:Hget.
    + rewrite Holdings_update_keys. case_bool_decide as Hin; [reflexivity|].
      apply Holdings_get_None in Hin. congruence.
    + apply Holdings_get_None in Hget. rewrite bool_decide_eq_false_2 by exact Hget.
      now rewrite fmap_app.
  - now rewrite holdingsStep_not_held.
Qed.

Lemma holdingsMap_keys (positions : list OptionPosition)
    (m : list (string * Holding.t)) :
  NoDup m.*1 →
  NoDup (fold_left holdingsStep positions m).*1
  ∧ ∀ k, k ∈ (fold_left holdingsStep positions m).*1
         ↔ k ∈ m.*1 ∨ ∃ p : OptionPosition,
                          p ∈ positions ∧ heldLot p = true ∧ stockTicker p = k.
Proof.
  revert m. induction positions as [|p r IH]; intros m Hnd; cbn [fold_left].
  - split; [exact Hnd|]. intros k. split; [now left|].
    intros [H | (p & Hp & _)]; [exact H|inversion Hp].
  - assert (Hstep : NoDup (holdingsStep m p).*1
                    ∧ ∀ k, k ∈ (holdingsStep m p).*1
                           ↔ k ∈ m.*1 ∨ (heldLot p = true ∧ stockTicker p = k)).
    { rewrite holdingsStep_keys. destruct (heldLot p); cbn [andb].
      - case_bool_decide as Hin; cbn [negb].
        + split; [exact Hnd|]. intros k. split; [now left|].
          now intros [H | [_ <-]].
        + split.
          * apply NoDup_app. repeat split; [exact Hnd| |apply NoDup_singleton].
            intros x Hx Hx'. apply list_elem_of_singleton in Hx' as ->. contradiction.
          * intros k. rewrite elem_of_app, list_elem_of_singleton.
            split; (intros [H | H]; [now left|right]); [now split|now destruct H].
      - split; [exact Hnd|]. intros k. split; [now left|].
        now intros [H | [H _]]. }
    destruct Hstep as [Hnd' Hkeys]. destruct (IH _ Hnd') as [IH1 IH2].
    split; [exact IH1|]. intros k. rewrite IH2, Hkeys. split.
    + intros [[H | [Hheld Hk]] | (q & Hq & Hrest)].
      * now left.
      * right. exists p. split; [apply list_elem_of_here|now split].
      * right. exists q. split; [now apply list_elem_of_further|exact Hrest].
    + intros [H | (q & Hq & Hheld & Hk)]; [now left; left|].
      apply elem_of_cons in Hq as [-> | Hq]; [left; right; now split|].
      right. now exists q.
Qed.

Lemma holdingRow_ticker (prices : gmap string Q) (m : list (string * Holding.t)) :
  map StockHolding.ticker (map (holdingRow prices) m) = m.*1.
Proof.
  induction m as [|[k h] r IH]; [reflexivity|]. cbn. now rewrite <- IH.
Qed.

(** The holdings route answers with one row for each ticker of which a
    position found by the query holds a lot, and with no other row. *)
Theorem stock_holdings_tickers (localeCompare : string → string → Q)
    (quote : string → QuoteResult) (now : Z)
    (positions : list OptionPosition) (priceCache : gmap string PriceCache.t) :
  NoDup (map StockHolding.ticker
           (stockHoldings localeCompare quote now positions priceCache).1)
  ∧ ∀ k, k ∈ map StockHolding.ticker
               (stockHoldings localeCompare quote now positions priceCache).1
         ↔ ∃ p : OptionPosition,
             p ∈ positions ∧ holdsStockNow p = true ∧ heldLot p = true
             ∧ stockTicker p = k.
Proof.
  unfold stockHoldings.
  set (held := List.filter holdsStockNow positions).
  set (m := fold_left holdingsStep held []).
  destruct (getMultipleStockPrices quote now m.*1 priceCache) as [prices c'].
  cbn [fst].
  destruct (holdingsMap_keys held [] (NoDup_nil_2)) as [Hnd Hkeys]. fold m in Hnd, Hkeys.
  assert (Hperm : map StockHolding.ticker
                    (Array_sort
                       (λ a b, localeCompare (StockHolding.ticker a)
                                             (StockHolding.ticker b))
                       (map (holdingRow prices) m))
                  ≡ₚ m.*1).
  { rewrite <- (holdingRow_ticker prices m).
    apply Permutation_map, Array_sort_Permutation. }
  split.
  - now rewrite Hperm.
  - intros k. rewrite Hperm, Hkeys. split.
    + intros [H | (p & Hp & Hheld & Hk)]; [inversion H|].
      apply elem_of_List_filter in Hp as [Hp Hnow]. now exists p.
    + intros (p & Hp & Hnow & Hheld & Hk). right. exists p.
      split; [now apply elem_of_List_filter|now split].
Qed.



(** ** The alerts of one position *)

Lemma List_filter_Permutation {A} (f : A → bool) (l l' : list A) :
  l ≡ₚ l' → List.filter f l ≡ₚ List.filter f l'.
Proof.
  induction 1 as [|x l l' _ IH|x y l|l l' l'' _ IH1 _ IH2]; cbn.
  - reflexivity.
  - destruct (f x); [now constructor|exact IH].
  - destruct (f x), (f y); try reflexivity. apply perm_swap.
  - now rewrite IH1.
Qed.

Lemma collectAlerts_flat_map (positions : list OptionPosition)
    (stockPrices : gmap string Q) (optionPrices : option (gmap string Q))
    (config : StrategyConfig) :
  collectAlerts positions stockPrices optionPrices config
  = flat_map
      (λ p : OptionPosition,
         if bool_decide (status p = StatusOpen)
         then calculatePositionAlerts p
                (or_null (stockPrices !! toUpperCase (stockTicker p)))
                (or_null (optionPrices ≫= (λ m, m !! id p))) config
         else [])
      positions.
Proof.
  unfold collectAlerts.
  match goal with
  | |- fold_left ?step positions [] = flat_map ?g positions =>
      assert (H : ∀ acc, fold_left step positions acc = acc ++ flat_map g positions);
      [|apply (H [])]
  end.
  induction positions as [|p r IH]; intros acc; cbn [fold_left flat_map].
  - now rewrite app_nil_r.
  - rewrite IH. destruct (bool_decide (status p = StatusOpen)); cbn [negb].
    + now rewrite app_assoc.
    + reflexivity.
Qed.

(** With position ids that are all different, the alerts shown for one
    position are at most one, it is an alert computed from that very
    position, which is open, and it is never a close alert; a position that
    is not open shows none. *)
Theorem position_alerts_view (strategyConfig : UserStrategyConfig)
    (positions : list OptionPosition) (stockPrices : gmap string Q)
    (p : OptionPosition) :
  NoDup (map id positions) → p ∈ positions →
  length (usePositionAlerts p (allAlerts strategyConfig positions stockPrices)) ≤ 1
  ∧ (∀ a, a ∈ usePositionAlerts p (allAlerts strategyConfig positions stockPrices) →
       Alert.position a = p ∧ status p = StatusOpen ∧ Alert.type a ≠ close)
  ∧ (status p ≠ StatusOpen →
     usePositionAlerts p (allAlerts strategyConfig positions stockPrices) = []).
Proof.
  intros Hnd Hp. unfold usePositionAlerts, allAlerts, calculateAllAlerts.
  set (config := getStrategyConfig _ _ _).
  set (f := λ alert : Alert.t, String.eqb (Alert.positionId alert) (id p)).
  set (g := λ q : OptionPosition,
         if bool_decide (status q = StatusOpen)
         then calculatePositionAlerts q
                (or_null (stockPrices !! toUpperCase (stockTicker q)))
                (or_null (None ≫= (λ m : gmap string Q, m !! id q))) config
         else []).
  assert (Hperm : List.filter f
                    (Array_sort compareAlerts
                       (collectAlerts positions stockPrices None config))
                  ≡ₚ List.filter f (g p)).
  { rewrite (List_filter_Permutation f _ _ (Array_sort_Permutation _ _)).
    rewrite collectAlerts_flat_map. fold g.
    assert (Hother : ∀ l : list OptionPosition,
              (∀ q : OptionPosition, q ∈ l → id q ≠ id p) →
              List.filter f (flat_map g l) = []).
    { intros l Hl. apply List_filter_none. intros a Ha.
      apply list_elem_of_In, in_flat_map in Ha as (q & Hq & Ha).
      apply list_elem_of_In in Hq, Ha. subst g. cbn beta in Ha.
      destruct (bool_decide (status q = StatusOpen)); [|inversion Ha].
      apply calculatePositionAlerts_elem_of in Ha as (_ & Hid & _).
      subst f. cbn beta. rewrite Hid. apply String.eqb_neq. now apply Hl. }
    apply list_elem_of_split in Hp as (l1 & l2 & ->).
    rewrite map_app in Hnd. cbn [map] in Hnd.
    apply NoDup_app in Hnd as (_ & Hdisj & Hnd2).
    apply NoDup_cons in Hnd2 as [Hfresh _].
    rewrite flat_map_app. cbn [flat_map]. rewrite !List.filter_app.
    rewrite (Hother l1), (Hother l2), app_nil_r; [reflexivity| |].
    - intros q Hq E. apply Hfresh. rewrite <- E.
      apply list_elem_of_In, in_map, list_elem_of_In, Hq.
    - intros q Hq E. apply (Hdisj (id q)).
      + apply list_elem_of_In, in_map, list_elem_of_In, Hq.
      + rewrite E. apply list_elem_of_here. }
  assert (Hparts : ∃ r : option Alert.t,
            g p = option_list r
            ∧ ∀ a, r = Some a →
                Alert.position a = p ∧ status p = StatusOpen ∧ Alert.type a ≠ close).
  { subst g. cbn beta. case_bool_decide as Hopen.
    - destruct (calculatePositionAlerts_parts p
                  (or_null (stockPrices !! toUpperCase (stockTicker p)))
                  (or_null (None ≫= (λ m : gmap string Q, m !! id p))) config)
        as (r & c & E & Hr & _ & Hnone).
      rewrite (Hnone eq_refl), app_nil_r in E. exists r. split; [exact E|].
      intros a Ha. destruct (Hr a Ha) as (Hty & _ & Hpos & _).
      repeat split; [exact Hpos|exact Hopen|destruct Hty as [-> | ->]; discriminate].
    - exists None. split; [reflexivity|discriminate]. }
  destruct Hparts as (r & Hg & Hr). rewrite Hg in Hperm.
  split; [|split].
  - rewrite (Permutation_length Hperm).
    etransitivity; [apply List.filter_length_le|]. destruct r; cbn; lia.
  - intros a Ha. rewrite Hperm in Ha. apply elem_of_List_filter in Ha as [Ha _].
    destruct r as [x|]; [|inversion Ha].
    apply list_elem_of_singleton in Ha as ->. now apply Hr.
  - intros Hstatus.
    destruct (List.filter f (Array_sort compareAlerts _)) as [|a l] eqn:E;
      [reflexivity|].
    exfalso. assert (Ha : a ∈ List.filter f (option_list r)).
    { rewrite <- Hperm. apply list_elem_of_here. }
    apply elem_of_List_filter in Ha as [Ha _].
    destruct r as [x|]; [|inversion Ha].
    apply list_elem_of_singleton in Ha as ->.
    now destruct (Hr x eq_refl) as (_ & Hopen & _).
Qed.

Lemma position_alerts_view_witness :
  length (usePositionAlerts (POST "a" (putOn "AAA" 100))
            (allAlerts DEFAULT_STRATEGY_CONFIG threePuts threePrices)) ≤ 1
  ∧ (∀ a, a ∈ usePositionAlerts (POST "a" (putOn "AAA" 100))
                (allAlerts DEFAULT_STRATEGY_CONFIG threePuts threePrices) →
       Alert.position a = POST "a" (putOn "AAA" 100)
       ∧ status (POST "a" (putOn "AAA" 100)) = StatusOpen
       ∧ Alert.type a ≠ close)
  ∧ (status (POST "a" (putOn "AAA" 100)) ≠ StatusOpen →
     usePositionAlerts (POST "a" (putOn "AAA" 100))
       (allAlerts DEFAULT_STRATEGY_CONFIG threePuts threePrices) = []).
Proof.
  apply (position_alerts_view DEFAULT_STRATEGY_CONFIG threePuts threePrices
           (POST "a" (putOn "AAA" 100))).
  - vm_compute. repeat constructor; intros H;
      repeat (apply elem_of_cons in H as [H | H]; [discriminate H|]);
      inversion H.
  - apply list_elem_of_here.
Defined.
